(** * DeSIST: a shallow embedding of the node logic of [src/main.py]

    The Python program simulates a multi-hop network of [IoTNode]s that
    build an RPL-like routing tree and forward data through three
    decision games (PFG, PSG, IRG) fed by a per-neighbour archive (LIA).

    Conventions of the embedding.
    - A Python float is a rational [Q]; the constants of the source are
      written with the same decimal literals.  The rounding of float
      operations is a parameter of the embedding (section Floating
      point).  Ranks are the integers of the source extended with
      [float('inf')].
    - A method of [IoTNode] is a computation in the monad [M]: it reads
      an environment (the simulation clock, the other node objects, the
      pending random draws), threads the receiver object together with
      the global [STATS] dictionary and the processes it has spawned,
      and may raise.
    - [self.neighbors] maps ids to shared node objects; the embedding
      keeps the keys in the node and the objects in the store [peers]. *)

From Stdlib Require Import QArith Qminmax Qabs Lqa ZArith Ascii String List.
From stdpp Require Import gmap strings list pretty.

Open Scope Q_scope.

(** ** Floating point

    A Python float is a binary64 number, which is a rational, and an
    operation on floats returns the exact result rounded to a float.
    The values the selections compare (cooperation estimates, expected
    utilities, stability scores and parent scores) are computed with the
    rounding [fl] applied to the result of each operation and to each
    literal that is not an integer, in the order Python evaluates them.
    [fl] is a parameter: [exact_arithmetic] rounds nothing and
    [binary64] rounds as the interpreter does.  The energy ledger and
    the cumulated delay are kept in exact arithmetic. *)
Class Rounding : Type := fl : Q -> Q.

(** ** Global parameters *)

Definition PFG_SEND_COOPERATE : Q := 4.
Definition PFG_SEND_DEFECT : Q := -11.
Definition PFG_HOLD {R : Rounding} : Q := fl (-0.1).

Definition PSG_W_RANK {R : Rounding} : Q := fl 0.5.
Definition PSG_W_STABILITY {R : Rounding} : Q := fl 0.3.
Definition PSG_W_LINK_QUALITY {R : Rounding} : Q := fl 0.2.
Definition PSG_CHANGE_PENALTY : Q := -2.

Definition E_TX_PKT : Q := 0.05.
Definition E_RX_PKT : Q := 0.02.
Definition E_TX_CTRL : Q := 0.01.
Definition E_RX_CTRL : Q := 0.005.
Definition E_SDU_COMPUTE : Q := 0.001.
Definition E_LIA_UPDATE : Q := 0.0005.
Definition E_IDLE_LISTEN : Q := 0.0001.

(** ** Ranks and utilities *)

(** A rank is an integer or [float('inf')]. *)
Inductive Rank : Type :=
| Fin (z : Z)
| Inf.

(** [p_rank >= self.rpl_rank] *)
Definition rank_geb (a b : Rank) : bool :=
  match a, b with
  | Fin x, Fin y => (y <=? x)%Z
  | Fin _, Inf => false
  | Inf, _ => true
  end.

(** [a < b] on ranks, as a proposition. *)
Definition rank_lt (a b : Rank) : Prop :=
  match a, b with
  | Fin x, Fin y => (x < y)%Z
  | Fin _, Inf => True
  | Inf, _ => False
  end.

(** [sender_rank + 1] *)
Definition rank_succ (r : Rank) : Rank :=
  match r with
  | Fin z => Fin (z + 1)
  | Inf => Inf
  end.

(** [abs(rank - last) > 2]; [inf - inf] is a NaN, whose comparisons are
    all false. *)
Definition rank_jump (r last : Rank) : bool :=
  match r, last with
  | Fin x, Fin y => (2 <? Z.abs (x - y))%Z
  | Inf, Inf => false
  | _, _ => true
  end.

(** A parent utility: a rational or [-inf] (the initial maximum, and the
    score of a candidate of infinite rank). *)
Inductive Utility : Type :=
| NegInf
| Util (q : Q).

(** [u > v] *)
Definition util_gtb (u v : Utility) : bool :=
  match u, v with
  | Util a, Util b => negb (Qle_bool a b)
  | Util _, NegInf => true
  | NegInf, _ => false
  end.

(** [u + q] for a finite [q] *)
Definition util_add {R : Rounding} (u : Utility) (q : Q) : Utility :=
  match u with
  | Util a => Util (fl (a + q))
  | NegInf => NegInf
  end.

(** ** Data structures *)

Inductive Dest : Type :=
| DestNode (n : nat)
| DestBroadcast.

#[global] Instance Dest_eq_dec : EqDecision Dest.
Proof. solve_decision. Defined.

(** [Packet.data]: the default string payload, or the dictionary a DIO
    carries.  Indexing a string payload by ['rank'] raises. *)
Inductive Payload : Type :=
| PayloadStr (s : string)
| PayloadDio (rank : Rank) (version : Z).

(** A [Packet]; [p_type] is its [type].  The attribute
    [current_hop_sender_id] is [None] throughout and is left out. *)
Record Packet : Type := mkPacket {
  packet_id : string;
  source_id : nat;
  dest_id : Dest;
  creation_time : Q;
  data : Payload;
  path : list nat;
  p_type : string
}.

(** One entry of [lia_data].  [psg_dio_timestamps] is the
    [deque(maxlen=5)], oldest element first. *)
Record LiaEntry : Type := mkLia {
  pfg_last_outcome : option string;
  pfg_coop_count : nat;
  pfg_defect_count : nat;
  psg_last_rank_advertised : option Rank;
  psg_rank_stability_score : Q;
  psg_dio_timestamps : list Q;
  irg_reported_as_malicious_count : nat;
  link_quality_rssi : Q
}.

(** The factory of the [defaultdict]; [rssi] is the draw of
    [random.uniform(-80, -40)]. *)
Definition default_entry (rssi : Q) : LiaEntry :=
  {| pfg_last_outcome := None;
     pfg_coop_count := 0;
     pfg_defect_count := 0;
     psg_last_rank_advertised := None;
     psg_rank_stability_score := 1.0;
     psg_dio_timestamps := [];
     irg_reported_as_malicious_count := 0;
     link_quality_rssi := rssi |}.

(** An [IoTNode] object.  [neighbors] holds the keys of the dictionary in
    insertion order; [action] records the causes of the interrupts raised
    on the node's process, latest first.  The position only enters the
    neighbour discovery, which takes it as an argument; the DIO interval
    only enters the timing of events and is left out with it. *)
Record IoTNode : Type := mkNode {
  id : nat;
  is_attacker_type : option string;
  neighbors : list nat;
  energy : Q;
  alive : bool;
  rpl_parent_id : option nat;
  rpl_rank : Rank;
  rpl_version_number : Z;
  rpl_last_dio_sent_time : Q;
  lia_data : gmap nat LiaEntry;
  action : list string
}.

(** The global [STATS] dictionary.  The keys of the two choice tallies
    are node ids or the strings ['Hold'] / ['None']. *)
Record Stats : Type := mkStats {
  packets_generated : nat;
  packets_received_dest : nat;
  packets_dropped_blackhole : nat;
  packets_dropped_selfish : nat;
  packets_dropped_other : nat;
  total_delay : Q;
  nodes_energy : gmap nat Q;
  rpl_parent_changes : gmap nat nat;
  lia_pfg_outcomes : gmap nat (gmap nat (nat * nat));
  sdu_pfg_choices : gmap nat (gmap (nat + string) nat);
  sdu_psg_choices : gmap nat (gmap (nat + string) nat);
  irg_reports_made : gmap nat nat;
  control_packets_sent : gmap nat (gmap string nat)
}.

(** [d[k] += 1] on a [defaultdict(int)] *)
Definition incr {K} `{Countable K} (k : K) (d : gmap K nat) : gmap K nat :=
  <[k := S (default 0%nat (d !! k))]> d.

(** [d[i][k] += 1] on a [defaultdict] of [defaultdict(int)] *)
Definition incr2 {K} `{Countable K} (i : nat) (k : K)
    (d : gmap nat (gmap K nat)) : gmap nat (gmap K nat) :=
  <[i := incr k (default ∅ (d !! i))]> d.

(** ** The monad of a method call *)

(** What a method reads but does not own: the clock [self.env.now], the
    other node objects, and the link-quality draw made when the LIA entry
    of a given neighbour is created. *)
Record Env : Type := mkEnv {
  now : Q;
  peers : gmap nat IoTNode;
  rssi_draw : nat -> Q
}.

(** What a method may change: the receiver, [STATS], and the list of
    processes handed to [env.process] (target id and packet of each
    [_send_message]), latest first. *)
Record Ctx : Type := mkCtx {
  self : IoTNode;
  STATS : Stats;
  spawned : list (nat * Packet)
}.

Definition M (A : Type) : Type := Env -> Ctx -> option (A * Ctx).

Definition ret {A} (a : A) : M A := fun _ c => Some (a, c).

Definition bind {A B} (m : M A) (k : A -> M B) : M B :=
  fun e c => match m e c with
             | Some (a, c') => k a e c'
             | None => None
             end.

Definition raise {A} : M A := fun _ _ => None.

Definition ask : M Env := fun e c => Some (e, c).

Definition get_self : M IoTNode := fun _ c => Some (self c, c).

Definition put_self (n : IoTNode) : M unit :=
  fun _ c => Some (tt, {| self := n; STATS := STATS c; spawned := spawned c |}).

Definition get_stats : M Stats := fun _ c => Some (STATS c, c).

Definition put_stats (s : Stats) : M unit :=
  fun _ c => Some (tt, {| self := self c; STATS := s; spawned := spawned c |}).

(** [self.env.process(self._send_message(target, packet))] *)
Definition spawn_send (target : nat) (p : Packet) : M unit :=
  fun _ c => Some (tt, {| self := self c; STATS := STATS c;
                          spawned := (target, p) :: spawned c |}).

Declare Scope m_scope.
Delimit Scope m_scope with m.
Notation "x <- m ;; k" := (bind m (fun x => k))
  (at level 100, m at next level, right associativity) : m_scope.
Notation "m ;;; k" := (bind m (fun _ => k))
  (at level 100, right associativity) : m_scope.
Open Scope m_scope.

(** ** Energy model *)

Definition cost_map (cost_type : string) : option Q :=
  if String.eqb cost_type "tx_pkt" then Some E_TX_PKT
  else if String.eqb cost_type "rx_pkt" then Some E_RX_PKT
  else if String.eqb cost_type "tx_ctrl" then Some E_TX_CTRL
  else if String.eqb cost_type "rx_ctrl" then Some E_RX_CTRL
  else if String.eqb cost_type "sdu" then Some E_SDU_COMPUTE
  else if String.eqb cost_type "lia" then Some E_LIA_UPDATE
  else if String.eqb cost_type "idle" then Some E_IDLE_LISTEN
  else None.

(** [amount if amount is not None else cost_map.get(cost_type, 0)] *)
Definition actual_cost (cost_type : string) (amount : option Q) : Q :=
  match amount with
  | Some a => a
  | None => default 0 (cost_map cost_type)
  end.

Definition set_energy (n : IoTNode) (e : Q) : IoTNode :=
  {| id := id n; is_attacker_type := is_attacker_type n;
     neighbors := neighbors n; energy := e; alive := alive n;
     rpl_parent_id := rpl_parent_id n; rpl_rank := rpl_rank n;
     rpl_version_number := rpl_version_number n;
     rpl_last_dio_sent_time := rpl_last_dio_sent_time n;
     lia_data := lia_data n; action := action n |}.

(** [self.energy = 0; self.alive = False;
    self.action.interrupt("energy_depleted")] *)
Definition deplete (n : IoTNode) : IoTNode :=
  {| id := id n; is_attacker_type := is_attacker_type n;
     neighbors := neighbors n; energy := 0; alive := false;
     rpl_parent_id := rpl_parent_id n; rpl_rank := rpl_rank n;
     rpl_version_number := rpl_version_number n;
     rpl_last_dio_sent_time := rpl_last_dio_sent_time n;
     lia_data := lia_data n; action := "energy_depleted"%string :: action n |}.

Definition set_nodes_energy (s : Stats) (k : nat) (e : Q) : Stats :=
  {| packets_generated := packets_generated s;
     packets_received_dest := packets_received_dest s;
     packets_dropped_blackhole := packets_dropped_blackhole s;
     packets_dropped_selfish := packets_dropped_selfish s;
     packets_dropped_other := packets_dropped_other s;
     total_delay := total_delay s;
     nodes_energy := <[k := e]> (nodes_energy s);
     rpl_parent_changes := rpl_parent_changes s;
     lia_pfg_outcomes := lia_pfg_outcomes s;
     sdu_pfg_choices := sdu_pfg_choices s;
     sdu_psg_choices := sdu_psg_choices s;
     irg_reports_made := irg_reports_made s;
     control_packets_sent := control_packets_sent s |}.

Definition consume_energy (cost_type : string) (amount : option Q) : M unit :=
  n <- get_self ;;
  if negb (alive n) then ret tt
  else
    let n1 := set_energy n (energy n - actual_cost cost_type amount) in
    put_self n1 ;;;
    s <- get_stats ;;
    put_stats (set_nodes_energy s (id n1) (energy n1)) ;;;
    if Qle_bool (energy n1) 0 then put_self (deplete n1) else ret tt.

(** ** Learned Interaction Archive *)

Definition set_lia_data (n : IoTNode) (d : gmap nat LiaEntry) : IoTNode :=
  {| id := id n; is_attacker_type := is_attacker_type n;
     neighbors := neighbors n; energy := energy n; alive := alive n;
     rpl_parent_id := rpl_parent_id n; rpl_rank := rpl_rank n;
     rpl_version_number := rpl_version_number n;
     rpl_last_dio_sent_time := rpl_last_dio_sent_time n;
     lia_data := d; action := action n |}.

(** [entry = self.lia_data[k]]: a missing key is created by the factory. *)
Definition lia_lookup (k : nat) : M LiaEntry :=
  e <- ask ;;
  n <- get_self ;;
  match lia_data n !! k with
  | Some x => ret x
  | None =>
      let x := default_entry (rssi_draw e k) in
      put_self (set_lia_data n (<[k := x]> (lia_data n))) ;;; ret x
  end.

(** Assignments to the fields of [entry] act on the stored dictionary. *)
Definition lia_store (k : nat) (x : LiaEntry) : M unit :=
  n <- get_self ;;
  put_self (set_lia_data n (<[k := x]> (lia_data n))).

Definition set_lia_pfg_outcomes (s : Stats)
    (d : gmap nat (gmap nat (nat * nat))) : Stats :=
  {| packets_generated := packets_generated s;
     packets_received_dest := packets_received_dest s;
     packets_dropped_blackhole := packets_dropped_blackhole s;
     packets_dropped_selfish := packets_dropped_selfish s;
     packets_dropped_other := packets_dropped_other s;
     total_delay := total_delay s;
     nodes_energy := nodes_energy s;
     rpl_parent_changes := rpl_parent_changes s;
     lia_pfg_outcomes := d;
     sdu_pfg_choices := sdu_pfg_choices s;
     sdu_psg_choices := sdu_psg_choices s;
     irg_reports_made := irg_reports_made s;
     control_packets_sent := control_packets_sent s |}.

(** [STATS['lia_pfg_outcomes'][i][k][outcome[0]] += 1]; the innermost
    dictionary is plain and has the keys ['C'] and ['D'] only. *)
Definition tally_outcome (outcome : string) (cd : nat * nat) : option (nat * nat) :=
  match outcome with
  | String "C"%char _ => Some (S (fst cd), snd cd)
  | String "D"%char _ => Some (fst cd, S (snd cd))
  | _ => None
  end.

Definition lia_update_pfg (neighbor_id : nat) (outcome : string) : M unit :=
  consume_energy "lia" None ;;;
  entry <- lia_lookup neighbor_id ;;
  let coop := String.eqb outcome "Cooperate" in
  lia_store neighbor_id
    {| pfg_last_outcome := Some outcome;
       pfg_coop_count :=
         if coop then S (pfg_coop_count entry) else pfg_coop_count entry;
       pfg_defect_count :=
         if coop then pfg_defect_count entry else S (pfg_defect_count entry);
       psg_last_rank_advertised := psg_last_rank_advertised entry;
       psg_rank_stability_score := psg_rank_stability_score entry;
       psg_dio_timestamps := psg_dio_timestamps entry;
       irg_reported_as_malicious_count := irg_reported_as_malicious_count entry;
       link_quality_rssi := link_quality_rssi entry |} ;;;
  n <- get_self ;;
  s <- get_stats ;;
  let per_node := default ∅ (lia_pfg_outcomes s !! id n) in
  let cd := default (0, 0)%nat (per_node !! neighbor_id) in
  match tally_outcome outcome cd with
  | Some cd' =>
      put_stats (set_lia_pfg_outcomes s
                   (<[id n := <[neighbor_id := cd']> per_node]> (lia_pfg_outcomes s)))
  | None => raise
  end.

(** [append] on a [deque(maxlen=5)] *)
Definition deque_append (x : Q) (l : list Q) : list Q :=
  let l' := l ++ [x] in drop (length l' - 5) l'.

(** The new value of ['psg_rank_stability_score']. *)
Definition stability_update {R : Rounding} (rank : Rank) (last : option Rank)
    (score : Q) : Q :=
  match last with
  | None => score
  | Some r0 =>
      if rank_jump rank r0 then fl (score * fl 0.8)
      else Qmin 1.0 (fl (fl (score * fl 1.05) + fl 0.05))
  end.

Definition lia_update_psg_from_dio {R : Rounding} (sender_id : nat) (rank : Rank)
    (version : Z) : M unit :=
  consume_energy "lia" None ;;;
  entry <- lia_lookup sender_id ;;
  e <- ask ;;
  lia_store sender_id
    {| pfg_last_outcome := pfg_last_outcome entry;
       pfg_coop_count := pfg_coop_count entry;
       pfg_defect_count := pfg_defect_count entry;
       psg_last_rank_advertised := Some rank;
       psg_rank_stability_score :=
         stability_update rank (psg_last_rank_advertised entry)
                          (psg_rank_stability_score entry);
       psg_dio_timestamps := deque_append (now e) (psg_dio_timestamps entry);
       irg_reported_as_malicious_count := irg_reported_as_malicious_count entry;
       link_quality_rssi := link_quality_rssi entry |}.

(** [np.clip(x, lo, hi)] *)
Definition clip (x lo hi : Q) : Q := Qmin (Qmax x lo) hi.

(** The value [lia_get_pfg_p_cooperate] computes from an entry. *)
Definition p_cooperate {R : Rounding} (entry : LiaEntry) : Q :=
  let total := (pfg_coop_count entry + pfg_defect_count entry)%nat in
  if (total =? 0)%nat then fl 0.5
  else
    let base_p_coop :=
      fl (inject_Z (Z.of_nat (pfg_coop_count entry)) / inject_Z (Z.of_nat total)) in
    let base_p_coop :=
      match pfg_last_outcome entry with
      | Some o =>
          if String.eqb o "Defect"
          then Qmax (fl 0.01) (fl (base_p_coop * fl 0.3))
          else if String.eqb o "Cooperate"
          then Qmin (fl 0.99) (fl (fl (base_p_coop * fl 1.1) + fl 0.2))
          else base_p_coop
      | None => base_p_coop
      end in
    clip base_p_coop (fl 0.01) (fl 0.99).

Definition lia_get_pfg_p_cooperate {R : Rounding} (neighbor_id : nat) : M Q :=
  consume_energy "lia" None ;;;
  entry <- lia_lookup neighbor_id ;;
  ret (p_cooperate entry).

(** [-0.5] when the deque holds at least three timestamps and
    [ts[-1] - ts[-3] < 10], else [0.0]. *)
Definition freq_penalty {R : Rounding} (ts : list Q) : Q :=
  match rev ts with
  | t1 :: _ :: t3 :: _ => if Qle_bool 10 (fl (t1 - t3)) then 0.0 else fl (-0.5)
  | _ => 0.0
  end.

(** The sum is evaluated from the left; a candidate of infinite rank
    scores [-inf]. *)
Definition parent_score {R : Rounding} (entry : LiaEntry) (candidate_rank : Rank)
    : Utility :=
  match candidate_rank with
  | Fin z =>
      Util (fl (fl (fl (fl (PSG_W_RANK * - inject_Z z)
                        + fl (PSG_W_STABILITY * psg_rank_stability_score entry))
                    + fl (PSG_W_LINK_QUALITY
                          * fl (link_quality_rssi entry / -40.0)))
                + freq_penalty (psg_dio_timestamps entry)))
  | Inf => NegInf
  end.

Definition lia_get_psg_parent_score {R : Rounding} (candidate_id : nat)
    (candidate_rank : Rank) : M Utility :=
  consume_energy "lia" None ;;;
  entry <- lia_lookup candidate_id ;;
  ret (parent_score entry candidate_rank).

(** ** SDU decision methods *)

Definition set_sdu_pfg_choices (s : Stats)
    (d : gmap nat (gmap (nat + string) nat)) : Stats :=
  {| packets_generated := packets_generated s;
     packets_received_dest := packets_received_dest s;
     packets_dropped_blackhole := packets_dropped_blackhole s;
     packets_dropped_selfish := packets_dropped_selfish s;
     packets_dropped_other := packets_dropped_other s;
     total_delay := total_delay s;
     nodes_energy := nodes_energy s;
     rpl_parent_changes := rpl_parent_changes s;
     lia_pfg_outcomes := lia_pfg_outcomes s;
     sdu_pfg_choices := d;
     sdu_psg_choices := sdu_psg_choices s;
     irg_reports_made := irg_reports_made s;
     control_packets_sent := control_packets_sent s |}.

Definition set_sdu_psg_choices (s : Stats)
    (d : gmap nat (gmap (nat + string) nat)) : Stats :=
  {| packets_generated := packets_generated s;
     packets_received_dest := packets_received_dest s;
     packets_dropped_blackhole := packets_dropped_blackhole s;
     packets_dropped_selfish := packets_dropped_selfish s;
     packets_dropped_other := packets_dropped_other s;
     total_delay := total_delay s;
     nodes_energy := nodes_energy s;
     rpl_parent_changes := rpl_parent_changes s;
     lia_pfg_outcomes := lia_pfg_outcomes s;
     sdu_pfg_choices := sdu_pfg_choices s;
     sdu_psg_choices := d;
     irg_reports_made := irg_reports_made s;
     control_packets_sent := control_packets_sent s |}.

Definition set_rpl_parent_changes (s : Stats) (d : gmap nat nat) : Stats :=
  {| packets_generated := packets_generated s;
     packets_received_dest := packets_received_dest s;
     packets_dropped_blackhole := packets_dropped_blackhole s;
     packets_dropped_selfish := packets_dropped_selfish s;
     packets_dropped_other := packets_dropped_other s;
     total_delay := total_delay s;
     nodes_energy := nodes_energy s;
     rpl_parent_changes := d;
     lia_pfg_outcomes := lia_pfg_outcomes s;
     sdu_pfg_choices := sdu_pfg_choices s;
     sdu_psg_choices := sdu_psg_choices s;
     irg_reports_made := irg_reports_made s;
     control_packets_sent := control_packets_sent s |}.

Definition set_irg_reports_made (s : Stats) (d : gmap nat nat) : Stats :=
  {| packets_generated := packets_generated s;
     packets_received_dest := packets_received_dest s;
     packets_dropped_blackhole := packets_dropped_blackhole s;
     packets_dropped_selfish := packets_dropped_selfish s;
     packets_dropped_other := packets_dropped_other s;
     total_delay := total_delay s;
     nodes_energy := nodes_energy s;
     rpl_parent_changes := rpl_parent_changes s;
     lia_pfg_outcomes := lia_pfg_outcomes s;
     sdu_pfg_choices := sdu_pfg_choices s;
     sdu_psg_choices := sdu_psg_choices s;
     irg_reports_made := d;
     control_packets_sent := control_packets_sent s |}.

(** [x if x else s] for an optional node id [x]: [None] and the id [0]
    are both falsy. *)
Definition id_or (x : option nat) (s : string) : nat + string :=
  match x with
  | Some (S k) => inl (S k)
  | _ => inr s
  end.

(** [eu_send] of a candidate whose cooperation estimate is [p_coop]. *)
Definition eu_send {R : Rounding} (p_coop : Q) : Q :=
  fl (fl (p_coop * PFG_SEND_COOPERATE) + fl (fl (1 - p_coop) * PFG_SEND_DEFECT)).

(** The loop of [sdu_pfg_select_forwarder]; the accumulator is
    [(best_fw_id, max_eu, action_taken)]. *)
Fixpoint pfg_loop {R : Rounding} (candidate_fw_ids : list nat)
    (acc : option nat * Q * string) : M (option nat * Q * string) :=
  match candidate_fw_ids with
  | [] => ret acc
  | fw_id :: rest =>
      p_coop <- lia_get_pfg_p_cooperate fw_id ;;
      let eu := eu_send p_coop in
      if negb (Qle_bool eu (snd (fst acc)))
      then pfg_loop rest (Some fw_id, eu, "Send"%string)
      else pfg_loop rest acc
  end.

Definition sdu_pfg_select_forwarder {R : Rounding} (packet : Packet)
    (candidate_fw_ids : list nat) : M (option nat * string) :=
  consume_energy "sdu" None ;;;
  match candidate_fw_ids with
  | [] => ret (None, "Hold"%string)
  | _ =>
      r <- pfg_loop candidate_fw_ids (None, PFG_HOLD, "Hold"%string) ;;
      let best_fw_id := fst (fst r) in
      let action_taken := snd r in
      n <- get_self ;;
      s <- get_stats ;;
      put_stats (set_sdu_pfg_choices s
                   (incr2 (id n) (id_or best_fw_id "Hold") (sdu_pfg_choices s))) ;;;
      ret (best_fw_id, action_taken)
  end.

(** The loop of [sdu_psg_select_parent]; the accumulator is
    [(best_parent_id, max_parent_utility)]. *)
Fixpoint psg_loop {R : Rounding}
    (potential_parents_info : list (nat * Rank * Z))
    (acc : option nat * Utility) : M (option nat * Utility) :=
  match potential_parents_info with
  | [] => ret acc
  | (p_id, p_rank, p_version) :: rest =>
      n <- get_self ;;
      if rank_geb p_rank (rpl_rank n) then psg_loop rest acc
      else
        utility <- lia_get_psg_parent_score p_id p_rank ;;
        n <- get_self ;;
        let utility :=
          if decide (Some p_id = rpl_parent_id n) then utility
          else util_add utility PSG_CHANGE_PENALTY in
        if util_gtb utility (snd acc)
        then psg_loop rest (Some p_id, utility)
        else psg_loop rest acc
  end.

(** The evaluation of the current parent that precedes the loop:
    [self.neighbors.get(pid)] is truthy exactly when [pid] is a key, and
    the rank scored is the one the parent object holds now. *)
Definition psg_current_parent {R : Rounding} : M (option nat * Utility) :=
  n <- get_self ;;
  match rpl_parent_id n with
  | Some pid =>
      if decide (pid ∈ neighbors n) then
        e <- ask ;;
        match peers e !! pid with
        | Some current_parent_node =>
            u <- lia_get_psg_parent_score pid (rpl_rank current_parent_node) ;;
            ret (Some pid, u)
        | None => raise
        end
      else ret (None, NegInf)
  | None => ret (None, NegInf)
  end.

Definition sdu_psg_select_parent {R : Rounding}
    (potential_parents_info : list (nat * Rank * Z)) : M (option nat) :=
  consume_energy "sdu" None ;;;
  match potential_parents_info with
  | [] => ret None
  | _ =>
      acc <- psg_current_parent ;;
      r <- psg_loop potential_parents_info acc ;;
      let best_parent_id := fst r in
      n <- get_self ;;
      (if decide (best_parent_id ≠ rpl_parent_id n ∧ best_parent_id ≠ None)
       then s <- get_stats ;;
            put_stats (set_rpl_parent_changes s (incr (id n) (rpl_parent_changes s)))
       else ret tt) ;;;
      s <- get_stats ;;
      put_stats (set_sdu_psg_choices s
                   (incr2 (id n) (id_or best_parent_id "None") (sdu_psg_choices s))) ;;;
      ret best_parent_id
  end.

(** [coin] is the outcome of [random.random() < 0.8], drawn only when the
    threshold test passes. *)
Definition sdu_irg_decide_report (observed_node_id : nat)
    (suspected_behavior_type : string) (coin : bool) : M bool :=
  consume_energy "sdu" None ;;;
  e1 <- lia_lookup observed_node_id ;;
  if (3 <=? pfg_defect_count e1)%nat
     && (pfg_coop_count e1 <? pfg_defect_count e1)%nat
  then
    if coin then
      n <- get_self ;;
      s <- get_stats ;;
      put_stats (set_irg_reports_made s (incr (id n) (irg_reports_made s))) ;;;
      ret true
    else ret false
  else ret false.

(** ** Communication, RPL and data-plane methods *)

Definition set_control_packets_sent (s : Stats)
    (d : gmap nat (gmap string nat)) : Stats :=
  {| packets_generated := packets_generated s;
     packets_received_dest := packets_received_dest s;
     packets_dropped_blackhole := packets_dropped_blackhole s;
     packets_dropped_selfish := packets_dropped_selfish s;
     packets_dropped_other := packets_dropped_other s;
     total_delay := total_delay s;
     nodes_energy := nodes_energy s;
     rpl_parent_changes := rpl_parent_changes s;
     lia_pfg_outcomes := lia_pfg_outcomes s;
     sdu_pfg_choices := sdu_pfg_choices s;
     sdu_psg_choices := sdu_psg_choices s;
     irg_reports_made := irg_reports_made s;
     control_packets_sent := d |}.

(** [STATS["packets_received_dest"] += 1; STATS["total_delay"] += delay] *)
Definition record_delivery (s : Stats) (delay : Q) : Stats :=
  {| packets_generated := packets_generated s;
     packets_received_dest := S (packets_received_dest s);
     packets_dropped_blackhole := packets_dropped_blackhole s;
     packets_dropped_selfish := packets_dropped_selfish s;
     packets_dropped_other := packets_dropped_other s;
     total_delay := total_delay s + delay;
     nodes_energy := nodes_energy s;
     rpl_parent_changes := rpl_parent_changes s;
     lia_pfg_outcomes := lia_pfg_outcomes s;
     sdu_pfg_choices := sdu_pfg_choices s;
     sdu_psg_choices := sdu_psg_choices s;
     irg_reports_made := irg_reports_made s;
     control_packets_sent := control_packets_sent s |}.

(** [STATS["packets_dropped_selfish"] += 1] *)
Definition record_drop (s : Stats) : Stats :=
  {| packets_generated := packets_generated s;
     packets_received_dest := packets_received_dest s;
     packets_dropped_blackhole := packets_dropped_blackhole s;
     packets_dropped_selfish := S (packets_dropped_selfish s);
     packets_dropped_other := packets_dropped_other s;
     total_delay := total_delay s;
     nodes_energy := nodes_energy s;
     rpl_parent_changes := rpl_parent_changes s;
     lia_pfg_outcomes := lia_pfg_outcomes s;
     sdu_pfg_choices := sdu_pfg_choices s;
     sdu_psg_choices := sdu_psg_choices s;
     irg_reports_made := irg_reports_made s;
     control_packets_sent := control_packets_sent s |}.

Definition set_last_dio (n : IoTNode) (t : Q) : IoTNode :=
  {| id := id n; is_attacker_type := is_attacker_type n;
     neighbors := neighbors n; energy := energy n; alive := alive n;
     rpl_parent_id := rpl_parent_id n; rpl_rank := rpl_rank n;
     rpl_version_number := rpl_version_number n;
     rpl_last_dio_sent_time := t;
     lia_data := lia_data n; action := action n |}.

(** [self.rpl_parent_id = p; self.rpl_rank = r] *)
Definition adopt (n : IoTNode) (p : nat) (r : Rank) : IoTNode :=
  {| id := id n; is_attacker_type := is_attacker_type n;
     neighbors := neighbors n; energy := energy n; alive := alive n;
     rpl_parent_id := Some p; rpl_rank := r;
     rpl_version_number := rpl_version_number n;
     rpl_last_dio_sent_time := rpl_last_dio_sent_time n;
     lia_data := lia_data n; action := action n |}.

(** [packet.path.append(i)] *)
Definition path_append (p : Packet) (i : nat) : Packet :=
  {| packet_id := packet_id p; source_id := source_id p; dest_id := dest_id p;
     creation_time := creation_time p; data := data p;
     path := path p ++ [i]; p_type := p_type p |}.

(** The cost type of a transmission or reception of [packet]. *)
Definition tx_cost (packet : Packet) : string :=
  if String.eqb (p_type packet) "DATA" then "tx_pkt" else "tx_ctrl".

Definition rx_cost (packet : Packet) : string :=
  if String.eqb (p_type packet) "DATA" then "rx_pkt" else "rx_ctrl".

(** A call [target._receive_message(packet, sender_id)] still to be made. *)
Record Delivery : Type := mkDelivery {
  dl_target : nat;
  dl_packet : Packet;
  dl_sender : nat
}.

(** The body of the process [_send_message].  The distance and the delay
    only fix when the second half runs and are left out; [lost] is the
    outcome of [random.random() < 0.02].  The result is the delivery the
    process performs, if any. *)
Definition _send_message (target : nat) (packet : Packet) (lost : bool)
    : M (option Delivery) :=
  consume_energy (tx_cost packet) None ;;;
  n <- get_self ;;
  s <- get_stats ;;
  put_stats (set_control_packets_sent s
               (incr2 (id n) (p_type packet) (control_packets_sent s))) ;;;
  if lost then ret None
  else ret (Some {| dl_target := target; dl_packet := packet; dl_sender := id n |}).

(** [int(x)]: truncation towards zero. *)
Definition int_of (x : Q) : Z := Z.quot (Qnum x) (Zpos (Qden x)).

(** The loop of [broadcast_dio] over [self.neighbors.values()]. *)
Fixpoint dio_loop (ks : list nat) (dio_packet : Packet) : M unit :=
  match ks with
  | [] => ret tt
  | k :: rest =>
      e <- ask ;;
      match peers e !! k with
      | Some neighbor_node =>
          (if alive neighbor_node then spawn_send k dio_packet else ret tt) ;;;
          dio_loop rest dio_packet
      | None => raise
      end
  end.

Definition broadcast_dio : M unit :=
  n <- get_self ;;
  if negb (alive n) then ret tt
  else
    e <- ask ;;
    put_self (set_last_dio n (now e)) ;;;
    let dio_packet :=
      {| packet_id := pretty (id n) +:+ "-dio-" +:+ pretty (int_of (now e));
         source_id := id n; dest_id := DestBroadcast; creation_time := now e;
         data := PayloadDio (rpl_rank n) (rpl_version_number n);
         path := [id n]; p_type := "DIO" |} in
    dio_loop (neighbors n) dio_packet.

(** [x and x == y] for an optional id [x]: false for [None] and for [0]. *)
Definition truthy_and_eq (x : option nat) (y : nat) : bool :=
  match x with
  | Some (S k) => (S k =? y)%nat
  | _ => false
  end.

Definition handle_dio {R : Rounding} (dio_packet : Packet) (sender_id : nat)
    : M unit :=
  match data dio_packet with
  | PayloadStr _ => raise
  | PayloadDio sender_rank sender_version =>
      lia_update_psg_from_dio sender_id sender_rank sender_version ;;;
      n <- get_self ;;
      if decide (is_attacker_type n = Some "rpl_rank"%string) then ret tt
      else
        new_parent_id <-
          sdu_psg_select_parent [(sender_id, sender_rank, sender_version)] ;;
        if truthy_and_eq new_parent_id sender_id then
          n <- get_self ;;
          let old_parent := rpl_parent_id n in
          put_self (adopt n sender_id (rank_succ sender_rank)) ;;;
          if decide (old_parent ≠ Some sender_id) then
            s <- get_stats ;;
            put_stats (set_rpl_parent_changes s
                         (incr (id n) (rpl_parent_changes s)))
          else ret tt
        else ret tt
  end.

(** The branch of [handle_data_packet] taken on the forwarder decision
    [(next_hop, action)]: transmit to [self.neighbors[next_hop]], or
    record a drop.  [packet.path.append] acts on the packet object that is
    then handed to [_send_message]. *)
Definition forward_or_drop (packet : Packet) (r : option nat * string) : M bool :=
  match r with
  | (Some next_hop, action_taken) =>
      if String.eqb action_taken "Send" then
        n <- get_self ;;
        if decide (next_hop ∈ neighbors n) then
          spawn_send next_hop (path_append packet (id n)) ;;;
          ret true
        else raise
      else
        s <- get_stats ;; put_stats (record_drop s) ;;; ret false
  | (None, _) =>
      s <- get_stats ;; put_stats (record_drop s) ;;; ret false
  end.

Definition handle_data_packet {R : Rounding} (packet : Packet) (sender_id : nat)
    : M bool :=
  n <- get_self ;;
  if decide (DestNode (id n) = dest_id packet) then
    e <- ask ;;
    s <- get_stats ;;
    put_stats (record_delivery s (now e - creation_time packet)) ;;;
    ret true
  else
    let candidate_fw_ids := neighbors n in
    r <- sdu_pfg_select_forwarder packet candidate_fw_ids ;;
    forward_or_drop packet r.

Definition handle_ack (packet : Packet) (sender_id : nat) : M unit := ret tt.

Definition handle_report (packet : Packet) (sender_id : nat) : M unit := ret tt.

(** The result is the returned Python value: [Some b] for a boolean,
    [None] for [None]. *)
Definition _receive_message {R : Rounding} (packet : Packet) (sender_id : nat)
    : M (option bool) :=
  n <- get_self ;;
  if negb (alive n) then ret (Some false)
  else
    consume_energy (rx_cost packet) None ;;;
    if String.eqb (p_type packet) "DIO" then
      handle_dio packet sender_id ;;; ret None
    else if String.eqb (p_type packet) "DATA" then
      b <- handle_data_packet packet sender_id ;; ret (Some b)
    else if String.eqb (p_type packet) "ACK" then
      handle_ack packet sender_id ;;; ret None
    else if String.eqb (p_type packet) "REPORT" then
      handle_report packet sender_id ;;; ret None
    else ret (Some false).

(** ** Auxiliary definitions for the proofs *)

(** The state left by [consume_energy], as a function of the state
    before: the method never raises. *)
Definition consumed (cost_type : string) (amount : option Q) (c : Ctx) : Ctx :=
  if alive (self c) then
    let n1 := set_energy (self c)
                (energy (self c) - actual_cost cost_type amount) in
    {| self := if Qle_bool (energy n1) 0 then deplete n1 else n1;
       STATS := set_nodes_energy (STATS c) (id n1) (energy n1);
       spawned := spawned c |}
  else c.


(** The LIA entry a lookup of key [k] yields in state [c]: the stored
    one, or the one the factory creates. *)
Definition entry_of (e : Env) (c : Ctx) (k : nat) : LiaEntry :=
  default (default_entry (rssi_draw e k)) (lia_data (self c) !! k).

(** The empirical cooperate ratio of an entry. *)
Definition coop_ratio (x : LiaEntry) : Q :=
  inject_Z (Z.of_nat (pfg_coop_count x))
  / inject_Z (Z.of_nat (pfg_coop_count x + pfg_defect_count x)).

(** Well-formed LIA entries: the stability score is in [0, 1] and the
    recency window holds at most five timestamps.  The factory's entry is
    well formed and every update keeps it so. *)
Definition entry_ok (x : LiaEntry) : Prop :=
  0 <= psg_rank_stability_score x <= 1
  /\ (length (psg_dio_timestamps x) <= 5)%nat.

(** The part of a node no energy charge and no LIA access changes. *)
Definition core (n : IoTNode) : IoTNode :=
  {| id := id n; is_attacker_type := is_attacker_type n;
     neighbors := neighbors n; energy := 0; alive := true;
     rpl_parent_id := rpl_parent_id n; rpl_rank := rpl_rank n;
     rpl_version_number := rpl_version_number n;
     rpl_last_dio_sent_time := rpl_last_dio_sent_time n;
     lia_data := ∅; action := [] |}.

(** [STATS] without the per-node energy snapshots. *)
Definition erase_energy (s : Stats) : Stats :=
  {| packets_generated := packets_generated s;
     packets_received_dest := packets_received_dest s;
     packets_dropped_blackhole := packets_dropped_blackhole s;
     packets_dropped_selfish := packets_dropped_selfish s;
     packets_dropped_other := packets_dropped_other s;
     total_delay := total_delay s;
     nodes_energy := ∅;
     rpl_parent_changes := rpl_parent_changes s;
     lia_pfg_outcomes := lia_pfg_outcomes s;
     sdu_pfg_choices := sdu_pfg_choices s;
     sdu_psg_choices := sdu_psg_choices s;
     irg_reports_made := irg_reports_made s;
     control_packets_sent := control_packets_sent s |}.

(** [c'] differs from [c] at most in the energy ledger of the node (its
    balance, liveness, interrupts and energy snapshot) and in the LIA
    store. *)
Definition frame (c c' : Ctx) : Prop :=
  core (self c') = core (self c)
  /\ erase_energy (STATS c') = erase_energy (STATS c)
  /\ spawned c' = spawned c.

(** Every lookup yields the same LIA entry in [c'] as in [c]. *)
Definition same_entries (e : Env) (c c' : Ctx) : Prop :=
  forall k, entry_of e c' k = entry_of e c k.

(** The expected utility of sending to candidate [k] in state [c]. *)
Definition eu_of {R : Rounding} (e : Env) (c : Ctx) (k : nat) : Q :=
  eu_send (p_cooperate (entry_of e c k)).

(** The choice of the loop of [sdu_pfg_select_forwarder] as a function of
    the candidates' expected utilities. *)
Fixpoint pfg_pick (eu : nat -> Q) (candidate_fw_ids : list nat)
    (acc : option nat * Q * string) : option nat * Q * string :=
  match candidate_fw_ids with
  | [] => acc
  | fw_id :: rest =>
      if negb (Qle_bool (eu fw_id) (snd (fst acc)))
      then pfg_pick eu rest (Some fw_id, eu fw_id, "Send"%string)
      else pfg_pick eu rest acc
  end.

(** [d[i][k]] read off a [defaultdict] of [defaultdict(int)]. *)
Definition tally {K} `{Countable K} (d : gmap nat (gmap K nat)) (i : nat) (k : K)
    : nat :=
  default 0%nat (default ∅ (d !! i) !! k).

(** ** Initial states and sample networks *)

(** The statistics at the start of a run. *)
Definition STATS_init : Stats :=
  {| packets_generated := 0; packets_received_dest := 0;
     packets_dropped_blackhole := 0; packets_dropped_selfish := 0;
     packets_dropped_other := 0; total_delay := 0;
     nodes_energy := ∅; rpl_parent_changes := ∅; lia_pfg_outcomes := ∅;
     sdu_pfg_choices := ∅; sdu_psg_choices := ∅; irg_reports_made := ∅;
     control_packets_sent := ∅ |}.

(** The object [IoTNode.__init__] builds, once [discover_neighbors] has
    filled in the neighbour keys [ks]. *)
Definition new_node (node_id : nat) (attacker : option string) (ks : list nat)
    : IoTNode :=
  {| id := node_id; is_attacker_type := attacker; neighbors := ks;
     energy := 100.0; alive := true;
     rpl_parent_id := None;
     rpl_rank := if (node_id =? 0)%nat then Fin 0 else Inf;
     rpl_version_number := 0; rpl_last_dio_sent_time := -1;
     lia_data := ∅; action := [] |}.

(** A node that has already chosen parent [p] at rank [r]. *)
Definition with_parent (n : IoTNode) (p : nat) (r : Rank) : IoTNode :=
  adopt n p r.

(** A node whose energy is spent. *)
Definition spent (n : IoTNode) : IoTNode := deplete n.

Definition ctx_of (n : IoTNode) : Ctx :=
  {| self := n; STATS := STATS_init; spawned := [] |}.

(** An environment at time [t] holding the node objects [ns], every
    link-quality draw being -60. *)
Definition env_of (t : Q) (ns : list IoTNode) : Env :=
  {| now := t;
     peers := list_to_map (map (fun n => (id n, n)) ns);
     rssi_draw := fun _ => -60 |}.

Definition dio_of (sender : nat) (r : Rank) (t : Q) : Packet :=
  {| packet_id := "dio"; source_id := sender; dest_id := DestBroadcast;
     creation_time := t; data := PayloadDio r 0; path := [sender];
     p_type := "DIO" |}.

Definition data_of (src dst : nat) (t : Q) : Packet :=
  {| packet_id := "data"; source_id := src; dest_id := DestNode dst;
     creation_time := t; data := PayloadStr "payload"; path := [src];
     p_type := "DATA" |}.

(** The value [handle_dio] binds to [new_parent_id] when it reaches the
    selection, for a DIO of sender [s] carrying [rank] and [version]. *)
Definition new_parent_id_of {R : Rounding} (s : nat) (rank : Rank) (version : Z)
    (e : Env) (c : Ctx) : option (option nat) :=
  fst <$> (lia_update_psg_from_dio s rank version ;;;
           sdu_psg_select_parent [(s, rank, version)]) e c.

(** [STATS['rpl_parent_changes'][i]] *)
Definition parent_changes (s : Stats) (i : nat) : nat :=
  default 0%nat (rpl_parent_changes s !! i).

(** A node whose balance is [q]. *)
Definition with_energy (n : IoTNode) (q : Q) : IoTNode := set_energy n q.

(** A node that has observed [k] cooperations of neighbour [j], the last
    outcome being a cooperation. *)
Definition with_cooperations (n : IoTNode) (j k : nat) : IoTNode :=
  set_lia_data n
    (<[j := {| pfg_last_outcome := Some "Cooperate"%string;
               pfg_coop_count := k; pfg_defect_count := 0;
               psg_last_rank_advertised := None;
               psg_rank_stability_score := 1.0;
               psg_dio_timestamps := [];
               irg_reported_as_malicious_count := 0;
               link_quality_rssi := -60 |}]> (lia_data n)).

(** The candidate set the specification describes for the forwarder
    selection: the neighbours of [n] that are alive, in iteration
    order. *)
Definition live_neighbors (e : Env) (n : IoTNode) : list nat :=
  filter (fun k => alive <$> peers e !! k = Some true) (neighbors n).

(** The processes the node has handed to [env.process], in creation
    order. *)
Definition get_spawned : M (list (nat * Packet)) :=
  fun _ c => Some (rev (spawned c), c).

(** The scheduler starts spawned [_send_message] processes in creation
    order.  [run_sends] runs them, none being lost in transit, and pairs
    the liveness of the sender at the start of each send with the target
    of the delivery the send performs. *)
Fixpoint run_sends (ps : list (nat * Packet)) : M (list (bool * option nat)) :=
  match ps with
  | [] => ret []
  | (target, packet) :: rest =>
      n <- get_self ;;
      d <- _send_message target packet false ;;
      ds <- run_sends rest ;;
      ret ((alive n, dl_target <$> d) :: ds)
  end.

(** ** Neighbour discovery *)

Definition RADIO_RANGE : Q := 70.

(** What [discover_neighbors] reads of a node object of [all_nodes]: its
    id and the [position] drawn in [__init__]. *)
Record Placed : Type := mkPlaced {
  placed_id : nat;
  position : Q * Q
}.

(** The square of [dist], the argument of [np.sqrt]. *)
Definition sq_dist (p q : Q * Q) : Q :=
  (fst p - fst q) * (fst p - fst q) + (snd p - snd q) * (snd p - snd q).

(** [dist <= self.radio_range].  The radio range is not negative, so the
    square root is within range exactly when its argument is within the
    square of the range. *)
Definition in_range (p q : Q * Q) : bool :=
  Qle_bool (sq_dist p q) (RADIO_RANGE * RADIO_RANGE).

Definition set_neighbors (n : IoTNode) (ks : list nat) : IoTNode :=
  {| id := id n; is_attacker_type := is_attacker_type n; neighbors := ks;
     energy := energy n; alive := alive n;
     rpl_parent_id := rpl_parent_id n; rpl_rank := rpl_rank n;
     rpl_version_number := rpl_version_number n;
     rpl_last_dio_sent_time := rpl_last_dio_sent_time n;
     lia_data := lia_data n; action := action n |}.

(** [self.neighbors[k] = ...] on the keys of the dict: a present key
    keeps its place, a new one goes last. *)
Definition dict_add (k : nat) (ks : list nat) : list nat :=
  if decide (k ∈ ks) then ks else ks ++ [k].

(** The loop of [discover_neighbors] for a node at position [pos]. *)
Fixpoint discover_loop (pos : Q * Q) (all_nodes : list Placed) : M unit :=
  match all_nodes with
  | [] => ret tt
  | other_node :: rest =>
      n <- get_self ;;
      if (id n =? placed_id other_node)%nat then discover_loop pos rest
      else if in_range pos (position other_node) then
        put_self (set_neighbors n (dict_add (placed_id other_node) (neighbors n))) ;;;
        (_ <- lia_lookup (placed_id other_node) ;;
         discover_loop pos rest)
      else discover_loop pos rest
  end.

Definition discover_neighbors (pos : Q * Q) (all_nodes : list Placed) : M unit :=
  discover_loop pos all_nodes.

(** Node [k] is listed in [all_nodes] within radio range of [pos]. *)
Definition reachable (pos : Q * Q) (all_nodes : list Placed) (k : nat) : Prop :=
  exists o, o ∈ all_nodes /\ placed_id o = k /\ in_range pos (position o) = true.

(** ** Runs of a node *)

(** The order on node states a run moves along: the balance does not
    grow and stays non-negative, and an inert node stays inert with its
    balance and its interrupts untouched. *)
Definition node_le (n n' : IoTNode) : Prop :=
  energy n' <= energy n
  /\ 0 <= energy n'
  /\ (alive n = false ->
      alive n' = false /\ energy n' = energy n /\ action n' = action n).

(** A computation that moves the receiver along [node_le] whenever it
    returns. *)
Definition keeps {A} (m : M A) : Prop :=
  forall e c a c',
    0 <= energy (self c) -> m e c = Some (a, c') -> node_le (self c) (self c').

(** The method calls a run makes on one node.  No call site of the
    program passes [amount] to [consume_energy]. *)
Inductive Call : Type :=
| CallConsumeEnergy (cost_type : string)
| CallLiaUpdatePfg (neighbor_id : nat) (outcome : string)
| CallLiaUpdatePsgFromDio (sender_id : nat) (rank : Rank) (version : Z)
| CallLiaGetPfgPCooperate (neighbor_id : nat)
| CallLiaGetPsgParentScore (candidate_id : nat) (candidate_rank : Rank)
| CallSduPfgSelectForwarder (packet : Packet) (candidate_fw_ids : list nat)
| CallSduPsgSelectParent (potential_parents_info : list (nat * Rank * Z))
| CallSduIrgDecideReport (observed_node_id : nat)
    (suspected_behavior_type : string) (coin : bool)
| CallSendMessage (target : nat) (packet : Packet) (lost : bool)
| CallReceiveMessage (packet : Packet) (sender_id : nat)
| CallBroadcastDio
| CallHandleDio (dio_packet : Packet) (sender_id : nat)
| CallHandleDataPacket (packet : Packet) (sender_id : nat)
| CallHandleAck (packet : Packet) (sender_id : nat)
| CallHandleReport (packet : Packet) (sender_id : nat)
| CallDiscoverNeighbors (pos : Q * Q) (all_nodes : list Placed).

Definition exec {R : Rounding} (call : Call) : M unit :=
  match call with
  | CallConsumeEnergy cost_type => consume_energy cost_type None
  | CallLiaUpdatePfg k o => lia_update_pfg k o
  | CallLiaUpdatePsgFromDio s r v => lia_update_psg_from_dio s r v
  | CallLiaGetPfgPCooperate k => lia_get_pfg_p_cooperate k ;;; ret tt
  | CallLiaGetPsgParentScore k r => lia_get_psg_parent_score k r ;;; ret tt
  | CallSduPfgSelectForwarder p l => sdu_pfg_select_forwarder p l ;;; ret tt
  | CallSduPsgSelectParent l => sdu_psg_select_parent l ;;; ret tt
  | CallSduIrgDecideReport k t coin => sdu_irg_decide_report k t coin ;;; ret tt
  | CallSendMessage t p lost => _send_message t p lost ;;; ret tt
  | CallReceiveMessage p s => _receive_message p s ;;; ret tt
  | CallBroadcastDio => broadcast_dio
  | CallHandleDio p s => handle_dio p s
  | CallHandleDataPacket p s => handle_data_packet p s ;;; ret tt
  | CallHandleAck p s => handle_ack p s
  | CallHandleReport p s => handle_report p s
  | CallDiscoverNeighbors pos all_nodes => discover_neighbors pos all_nodes
  end.

(** A run: a sequence of calls, each in the environment of its time.  A
    call that raises ends the run. *)
Fixpoint exec_all {R : Rounding} (calls : list (Env * Call)) (c : Ctx)
    : option Ctx :=
  match calls with
  | [] => Some c
  | (e, call) :: rest =>
      match exec call e c with
      | Some (_, c') => exec_all rest c'
      | None => None
      end
  end.

(** ** Parent selection as a function of the scores *)

(** The choice of the loop of [sdu_psg_select_parent] as a function of
    the candidates' scores, of the node's rank and of its parent. *)
Fixpoint psg_pick {R : Rounding} (score : nat -> Rank -> Utility) (self_rank : Rank)
    (parent : option nat) (potential_parents_info : list (nat * Rank * Z))
    (acc : option nat * Utility) : option nat * Utility :=
  match potential_parents_info with
  | [] => acc
  | (p_id, p_rank, p_version) :: rest =>
      if rank_geb p_rank self_rank then psg_pick score self_rank parent rest acc
      else
        let utility := score p_id p_rank in
        let utility :=
          if decide (Some p_id = parent) then utility
          else util_add utility PSG_CHANGE_PENALTY in
        if util_gtb utility (snd acc)
        then psg_pick score self_rank parent rest (Some p_id, utility)
        else psg_pick score self_rank parent rest acc
  end.

(** The score [lia_get_psg_parent_score] gives candidate [k] at rank [r]
    in state [c]. *)
Definition score_of {R : Rounding} (e : Env) (c : Ctx) (k : nat) (r : Rank) : Utility :=
  parent_score (entry_of e c k) r.

(** The accumulator the loop of [sdu_psg_select_parent] starts from: the
    current parent with its score when it is a key of [self.neighbors],
    nothing otherwise.  [None] when the parent object is missing from the
    store. *)
Definition psg_start {R : Rounding} (e : Env) (c : Ctx) : option (option nat * Utility) :=
  match rpl_parent_id (self c) with
  | Some pid =>
      if decide (pid ∈ neighbors (self c)) then
        match peers e !! pid with
        | Some current_parent_node =>
            Some (Some pid, score_of e c pid (rpl_rank current_parent_node))
        | None => None
        end
      else Some (None, NegInf)
  | None => Some (None, NegInf)
  end.

(** The statistics [sdu_psg_select_parent] leaves on a non-empty list when
    it returns [best]: the parent change, if any, then the choice. *)
Definition psg_stats (c : Ctx) (best : option nat) : Stats :=
  let s1 :=
    if decide (best ≠ rpl_parent_id (self c) ∧ best ≠ None)
    then set_rpl_parent_changes (STATS c)
           (incr (id (self c)) (rpl_parent_changes (STATS c)))
    else STATS c in
  set_sdu_psg_choices s1
    (incr2 (id (self c)) (id_or best "None") (sdu_psg_choices s1)).

(** The entry of the sender once [lia_update_psg_from_dio] has processed
    a DIO of rank [rank] at the time of [e]. *)
Definition dio_entry {R : Rounding} (e : Env) (c : Ctx) (sender_id : nat) (rank : Rank)
    : LiaEntry :=
  let entry := entry_of e c sender_id in
  {| pfg_last_outcome := pfg_last_outcome entry;
     pfg_coop_count := pfg_coop_count entry;
     pfg_defect_count := pfg_defect_count entry;
     psg_last_rank_advertised := Some rank;
     psg_rank_stability_score :=
       stability_update rank (psg_last_rank_advertised entry)
                        (psg_rank_stability_score entry);
     psg_dio_timestamps := deque_append (now e) (psg_dio_timestamps entry);
     irg_reported_as_malicious_count := irg_reported_as_malicious_count entry;
     link_quality_rssi := link_quality_rssi entry |}.

(** The state [lia_update_psg_from_dio] leaves: the LIA charge, then the
    sender's entry replaced by [dio_entry]. *)
Definition dio_updated {R : Rounding} (e : Env) (c : Ctx) (sender_id : nat)
    (rank : Rank) : Ctx :=
  let c0 := consumed "lia" None c in
  {| self := set_lia_data (self c0)
               (<[sender_id := dio_entry e c sender_id rank]> (lia_data (self c0)));
     STATS := STATS c0;
     spawned := spawned c0 |}.

(** Every parent the node refers to among its neighbours is an object of
    the store. *)
Definition parent_known (e : Env) (c : Ctx) : Prop :=
  forall pid, rpl_parent_id (self c) = Some pid ->
              pid ∈ neighbors (self c) -> is_Some (peers e !! pid).

(** ** Forwarding observations *)

(** A node that has observed [a] cooperations and [d] defections of
    neighbour [j], the last outcome being [o]. *)
Definition with_observations (n : IoTNode) (j a d : nat) (o : string) : IoTNode :=
  set_lia_data n
    (<[j := {| pfg_last_outcome := Some o;
               pfg_coop_count := a; pfg_defect_count := d;
               psg_last_rank_advertised := None;
               psg_rank_stability_score := 1.0;
               psg_dio_timestamps := [];
               irg_reported_as_malicious_count := 0;
               link_quality_rssi := -60 |}]> (lia_data n)).

(** The entry [lia_update_pfg] writes for [outcome]. *)
Definition pfg_entry (entry : LiaEntry) (outcome : string) : LiaEntry :=
  let coop := String.eqb outcome "Cooperate" in
  {| pfg_last_outcome := Some outcome;
     pfg_coop_count :=
       if coop then S (pfg_coop_count entry) else pfg_coop_count entry;
     pfg_defect_count :=
       if coop then pfg_defect_count entry else S (pfg_defect_count entry);
     psg_last_rank_advertised := psg_last_rank_advertised entry;
     psg_rank_stability_score := psg_rank_stability_score entry;
     psg_dio_timestamps := psg_dio_timestamps entry;
     irg_reported_as_malicious_count := irg_reported_as_malicious_count entry;
     link_quality_rssi := link_quality_rssi entry |}.

(** [STATS['lia_pfg_outcomes'][i][k]] as the pair of its ['C'] and ['D']
    values. *)
Definition pfg_tally (s : Stats) (i k : nat) : nat * nat :=
  default (0, 0)%nat (default ∅ (lia_pfg_outcomes s !! i) !! k).

(** ** Messages *)

(** The DIO [broadcast_dio] builds in state [c] at the time of [e]. *)
Definition dio_packet_of (e : Env) (c : Ctx) : Packet :=
  {| packet_id := pretty (id (self c)) +:+ "-dio-" +:+ pretty (int_of (now e));
     source_id := id (self c); dest_id := DestBroadcast; creation_time := now e;
     data := PayloadDio (rpl_rank (self c)) (rpl_version_number (self c));
     path := [id (self c)]; p_type := "DIO" |}.

(** Every neighbour key refers to an object of the store. *)
Definition neighbors_known (e : Env) (c : Ctx) : Prop :=
  forall k, k ∈ neighbors (self c) -> is_Some (peers e !! k).

(** [STATS['irg_reports_made'][i]] *)
Definition reports_made (s : Stats) (i : nat) : nat :=
  default 0%nat (irg_reports_made s !! i).

(** ** Relations kept along a run *)

(** Every returning run of [m] moves the state along [R]. *)
Definition steps (R : Ctx -> Ctx -> Prop) {A} (m : M A) : Prop :=
  forall e c a c', m e c = Some (a, c') -> R c c'.

Definition with_self (c : Ctx) (n : IoTNode) : Ctx :=
  {| self := n; STATS := STATS c; spawned := spawned c |}.

Definition with_stats (c : Ctx) (s : Stats) : Ctx :=
  {| self := self c; STATS := s; spawned := spawned c |}.

Definition with_spawned (c : Ctx) (l : list (nat * Packet)) : Ctx :=
  {| self := self c; STATS := STATS c; spawned := l |}.

(** The calls that record a forwarding outcome. *)
Definition is_pfg_call (call : Call) : Prop :=
  match call with
  | CallLiaUpdatePfg _ _ => True
  | _ => False
  end.

(** The calls that discover neighbours. *)
Definition is_discover_call (call : Call) : Prop :=
  match call with
  | CallDiscoverNeighbors _ _ => True
  | _ => False
  end.

(** The forwarding observations on neighbour [k] held in [d]: last
    outcome, cooperations, defections; those of the factory's entry when
    there is none. *)
Definition pfg_view (d : gmap nat LiaEntry) (k : nat) : option string * nat * nat :=
  match d !! k with
  | Some x => (pfg_last_outcome x, pfg_coop_count x, pfg_defect_count x)
  | None => (None, 0%nat, 0%nat)
  end.

(** ** Keeping an archive well formed *)

(** All entries of the archive are well formed. *)
Definition lia_ok (c : Ctx) : Prop :=
  forall k x, lia_data (self c) !! k = Some x -> entry_ok x.

(** No entry is lost and no count of observations decreases. *)
Definition lia_grows (c c' : Ctx) : Prop :=
  forall k x, lia_data (self c) !! k = Some x ->
    exists x', lia_data (self c') !! k = Some x'
               /\ (pfg_coop_count x <= pfg_coop_count x')%nat
               /\ (pfg_defect_count x <= pfg_defect_count x')%nat.

(** The attributes of a node no method assigns, and its neighbour table,
    which is only ever extended at its end. *)
Definition same_identity (c c' : Ctx) : Prop :=
  id (self c') = id (self c)
  /\ is_attacker_type (self c') = is_attacker_type (self c)
  /\ rpl_version_number (self c') = rpl_version_number (self c)
  /\ neighbors (self c) `prefix_of` neighbors (self c').

(** [d[k]] on a [defaultdict(int)] *)
Definition count_of {K} `{Countable K} (d : gmap K nat) (k : K) : nat :=
  default 0%nat (d !! k).

(** No counter of the statistics decreases. *)
Definition stats_grow (c c' : Ctx) : Prop :=
  let s := STATS c in
  let s' := STATS c' in
  (packets_generated s <= packets_generated s')%nat
  /\ (packets_received_dest s <= packets_received_dest s')%nat
  /\ (packets_dropped_blackhole s <= packets_dropped_blackhole s')%nat
  /\ (packets_dropped_selfish s <= packets_dropped_selfish s')%nat
  /\ (packets_dropped_other s <= packets_dropped_other s')%nat
  /\ (forall i, (count_of (rpl_parent_changes s) i
                 <= count_of (rpl_parent_changes s') i)%nat)
  /\ (forall i, (count_of (irg_reports_made s) i
                 <= count_of (irg_reports_made s') i)%nat)
  /\ (forall i k, (tally (sdu_pfg_choices s) i k
                   <= tally (sdu_pfg_choices s') i k)%nat)
  /\ (forall i k, (tally (sdu_psg_choices s) i k
                   <= tally (sdu_psg_choices s') i k)%nat)
  /\ (forall i k, (tally (control_packets_sent s) i k
                   <= tally (control_packets_sent s') i k)%nat)
  /\ (forall i k, (fst (pfg_tally s i k) <= fst (pfg_tally s' i k))%nat
                  /\ (snd (pfg_tally s i k) <= snd (pfg_tally s' i k))%nat).

(** ** Roundings *)

(** Exact arithmetic: nothing is rounded. *)
#[global] Instance exact_arithmetic : Rounding := fun x => x.

(** [n / d] rounded to the nearest integer, ties to even, for
    [0 <= n] and [0 < d]. *)
Definition div_rne (n d : Z) : Z :=
  let q := (n / d)%Z in
  match (2 * (n mod d) ?= d)%Z with
  | Lt => q
  | Gt => (q + 1)%Z
  | Eq => if Z.even q then q else (q + 1)%Z
  end.

(** The exponent [k] with [2^k <= n / d < 2^(k+1)], for [0 < n] and
    [0 < d]. *)
Definition ilog2 (n d : Z) : Z :=
  let k := (Z.log2 n - Z.log2 d)%Z in
  if (0 <=? k)%Z
  then if (n <? d * 2 ^ k)%Z then (k - 1)%Z else k
  else if (n * 2 ^ (- k) <? d)%Z then (k - 1)%Z else k.

(** Rounding to the nearest binary64 number, ties to even: 53 significant
    bits, and a least exponent of -1074 for the subnormal numbers.
    Overflow, which needs magnitudes of [2^1024], is not modelled. *)
Definition round64 (x : Q) : Q :=
  let n := Qnum x in
  let d := Zpos (Qden x) in
  if (n =? 0)%Z then 0
  else
    let a := Z.abs n in
    let s := Z.max (ilog2 a d - 52) (-1074) in
    let r :=
      if (0 <=? s)%Z then inject_Z (div_rne a (d * 2 ^ s) * 2 ^ s)
      else Qred (div_rne (a * 2 ^ (- s)) d # Z.to_pos (2 ^ (- s))) in
    if (n <? 0)%Z then - r else r.

(** The arithmetic of the interpreter. *)
Definition binary64 : Rounding := round64.

(** A rounding is accurate when it moves no value of [-16, 16] by more
    than [10^-9].  Exact arithmetic is, and so is binary64, whose error
    there is at most [2^-50]. *)
Definition accurate (R : Rounding) : Prop :=
  forall x,
    -16 <= x <= 16 -> x - (1 # 1000000000) <= fl x <= x + (1 # 1000000000).
(** * Properties *)

(** ** Reasoning about method calls *)

Ltac unfold_m :=
  unfold bind, ret, raise, ask, get_self, put_self, get_stats, put_stats,
    spawn_send in *.

(** In exact arithmetic the rounding is the identity. *)
Ltac exact_fl := unfold fl, exact_arithmetic in *.

Lemma consume_energy_eq e c cost_type amount :
  consume_energy cost_type amount e c = Some (tt, consumed cost_type amount c).
Proof.
  unfold consume_energy, consumed. unfold_m.
  destruct (alive (self c)); simpl; [|reflexivity].
  destruct (Qle_bool _ 0); reflexivity.
Qed.

Lemma cost_map_nonneg cost_type : 0 <= default 0 (cost_map cost_type).
Proof.
  unfold cost_map.
  repeat (destruct (String.eqb cost_type _); [simpl; unfold Qle; simpl; lia|]).
  simpl. lra.
Qed.

Lemma consumed_lia_data cost_type amount c :
  lia_data (self (consumed cost_type amount c)) = lia_data (self c).
Proof.
  unfold consumed. destruct (alive (self c)); [|reflexivity].
  simpl. destruct (Qle_bool _ 0); reflexivity.
Qed.

Lemma entry_of_consumed e cost_type amount c k :
  entry_of e (consumed cost_type amount c) k = entry_of e c k.
Proof. unfold entry_of. now rewrite consumed_lia_data. Qed.

(** A lookup returns [entry_of] and stores it under the key. *)
Lemma lia_lookup_eq e c k :
  exists c', lia_lookup k e c = Some (entry_of e c k, c')
             /\ lia_data (self c') = <[k := entry_of e c k]> (lia_data (self c))
             /\ STATS c' = STATS c /\ spawned c' = spawned c
             /\ set_lia_data (self c') (lia_data (self c)) = self c.
Proof.
  unfold lia_lookup, entry_of. unfold_m.
  destruct (lia_data (self c) !! k) as [x|] eqn:Hk; simpl.
  - exists c. repeat split; try reflexivity.
    + symmetry. now apply insert_id.
    + now destruct c as [[] ? ?].
  - eexists. repeat split; simpl. now destruct c as [[] ? ?].
Qed.

(** ** Minimum, maximum and the cooperate ratio *)

Ltac q_spec_min a b :=
  let H := fresh "Hm" in let Hc := fresh "Hc" in
  let m := fresh "m" in let E := fresh "Em" in
  destruct (Q.min_spec a b) as [[Hc H]|[Hc H]];
  remember (Qmin a b) as m eqn:E in *; clear E.

Ltac q_spec_max a b :=
  let H := fresh "Hm" in let Hc := fresh "Hc" in
  let m := fresh "m" in let E := fresh "Em" in
  destruct (Q.max_spec a b) as [[Hc H]|[Hc H]];
  remember (Qmax a b) as m eqn:E in *; clear E.

Ltac q_minmax :=
  repeat match goal with
         | |- context [Qmin ?a ?b] => q_spec_min a b
         | |- context [Qmax ?a ?b] => q_spec_max a b
         | _ : context [Qmin ?a ?b] |- _ => q_spec_min a b
         | _ : context [Qmax ?a ?b] |- _ => q_spec_max a b
         end.

Lemma clip_bounds x : 0.01 <= clip x 0.01 0.99 <= 0.99.
Proof. unfold clip. q_minmax; lra. Qed.

Lemma clip_id x : 0.01 <= x -> x <= 0.99 -> clip x 0.01 0.99 == x.
Proof. intros. unfold clip. q_minmax; lra. Qed.

Lemma coop_ratio_bounds x :
  (pfg_coop_count x + pfg_defect_count x)%nat <> 0%nat ->
  0 <= coop_ratio x <= 1.
Proof.
  intros Hne. unfold coop_ratio.
  set (a := Z.of_nat (pfg_coop_count x)).
  set (b := Z.of_nat (pfg_coop_count x + pfg_defect_count x)).
  assert (Ha : (0 <= a)%Z) by (subst a; lia).
  assert (Hb : (0 < b)%Z) by (subst b; lia).
  assert (Hab : (a <= b)%Z) by (subst a b; lia).
  assert (Hb' : 0 < inject_Z b) by (unfold Qlt; simpl; lia).
  split.
  - apply Qle_shift_div_l; [exact Hb'|].
    rewrite Qmult_0_l. unfold Qle; simpl; lia.
  - apply Qle_shift_div_r; [exact Hb'|].
    rewrite Qmult_1_l. unfold Qle; simpl; lia.
Qed.

Lemma p_cooperate_bounds x : 0.01 <= p_cooperate x <= 0.99.
Proof.
  unfold p_cooperate.
  destruct (_ =? 0)%nat; [|apply clip_bounds].
  split; unfold Qle; simpl; lia.
Qed.

(** ** The cooperation estimate *)

Lemma lia_get_pfg_p_cooperate_eq {R : Rounding} e c k :
  exists c',
    lia_get_pfg_p_cooperate k e c = Some (p_cooperate (entry_of e c k), c')
    /\ lia_data (self c') = <[k := entry_of e c k]> (lia_data (self c))
    /\ STATS c' = STATS (consumed "lia" None c)
    /\ spawned c' = spawned c
    /\ set_lia_data (self c') (lia_data (self c)) = self (consumed "lia" None c).
Proof.
  unfold lia_get_pfg_p_cooperate, bind at 1.
  rewrite consume_energy_eq.
  destruct (lia_lookup_eq e (consumed "lia" None c) k)
    as (c' & Hrun & Hlia & Hst & Hsp & Hself).
  unfold bind, ret. rewrite Hrun.
  rewrite entry_of_consumed in *. rewrite consumed_lia_data in *.
  exists c'. repeat split; try assumption.
  rewrite Hsp. unfold consumed. now destruct (alive (self c)).
Qed.

Lemma p_cooperate_prior x :
  pfg_coop_count x = 0%nat -> pfg_defect_count x = 0%nat -> p_cooperate x = 0.5.
Proof. intros H1 H2. unfold p_cooperate. now rewrite H1, H2. Qed.

Lemma p_cooperate_defect x :
  (pfg_coop_count x + pfg_defect_count x)%nat <> 0%nat ->
  pfg_last_outcome x = Some "Defect"%string ->
  p_cooperate x == Qmax 0.01 (coop_ratio x * 0.3).
Proof.
  intros Hne Hlast. pose proof (coop_ratio_bounds x Hne) as [Hlo Hhi].
  unfold p_cooperate. rewrite Hlast.
  destruct (Nat.eqb_spec (pfg_coop_count x + pfg_defect_count x) 0);
    [contradiction|].
  simpl. fold (coop_ratio x).
  apply clip_id; q_minmax; lra.
Qed.

Lemma p_cooperate_cooperate x :
  (pfg_coop_count x + pfg_defect_count x)%nat <> 0%nat ->
  pfg_last_outcome x = Some "Cooperate"%string ->
  p_cooperate x == Qmin 0.99 (coop_ratio x * 1.1 + 0.2).
Proof.
  intros Hne Hlast. pose proof (coop_ratio_bounds x Hne) as [Hlo Hhi].
  unfold p_cooperate. rewrite Hlast.
  destruct (Nat.eqb_spec (pfg_coop_count x + pfg_defect_count x) 0);
    [contradiction|].
  simpl. fold (coop_ratio x).
  apply clip_id; q_minmax; lra.
Qed.


(** ** Advertisement bookkeeping *)

Lemma deque_append_length x l :
  (length l <= 5)%nat -> (length (deque_append x l) <= 5)%nat.
Proof.
  intros Hl. unfold deque_append.
  rewrite length_drop, length_app. simpl. lia.
Qed.

Lemma deque_append_room x l :
  (length l < 5)%nat -> deque_append x l = l ++ [x].
Proof.
  intros Hl. unfold deque_append. rewrite length_app. simpl.
  replace (length l + 1 - 5)%nat with 0%nat by lia. reflexivity.
Qed.

Lemma deque_append_full x l :
  length l = 5%nat -> deque_append x l = tail l ++ [x].
Proof.
  intros Hl. unfold deque_append. rewrite length_app, Hl. simpl.
  destruct l as [|y l]; [discriminate|]. reflexivity.
Qed.

Lemma stability_update_range rank last s :
  0 <= s <= 1 -> 0 <= stability_update rank last s <= 1.
Proof.
  intros [H0 H1]. unfold stability_update. exact_fl.
  destruct last as [r0|]; [|split; assumption].
  destruct (rank_jump rank r0); [lra|]. q_minmax; lra.
Qed.

Lemma default_entry_ok rssi : entry_ok (default_entry rssi).
Proof. unfold entry_ok; simpl. split; [lra | lia]. Qed.


(** ** Frames *)

Lemma frame_refl c : frame c c.
Proof. now repeat split. Qed.

Lemma frame_trans c1 c2 c3 : frame c1 c2 -> frame c2 c3 -> frame c1 c3.
Proof.
  intros (A1 & B1 & C1) (A2 & B2 & C2).
  repeat split; etransitivity; eassumption.
Qed.

Lemma same_entries_refl e c : same_entries e c c.
Proof. now intros k. Qed.

Lemma same_entries_trans e c1 c2 c3 :
  same_entries e c1 c2 -> same_entries e c2 c3 -> same_entries e c1 c3.
Proof. intros H1 H2 k. now rewrite H2, H1. Qed.

Lemma consumed_frame cost_type amount c : frame c (consumed cost_type amount c).
Proof.
  unfold consumed. destruct (alive (self c)); [|apply frame_refl].
  repeat split; simpl. now destruct (Qle_bool _ 0).
Qed.

Lemma consumed_same_entries e cost_type amount c :
  same_entries e c (consumed cost_type amount c).
Proof. intros k. apply entry_of_consumed. Qed.

Lemma lia_lookup_frame e c k a c' :
  lia_lookup k e c = Some (a, c') -> frame c c' /\ same_entries e c c'.
Proof.
  destruct (lia_lookup_eq e c k) as (c1 & Hrun & Hlia & Hst & Hsp & Hself).
  rewrite Hrun. intros [= <- <-]. split.
  - repeat split; [|now rewrite Hst|assumption].
    rewrite <- Hself. reflexivity.
  - intros j. unfold entry_of. rewrite Hlia.
    destruct (decide (k = j)) as [->|Hne].
    + rewrite lookup_insert_eq. reflexivity.
    + now rewrite lookup_insert_ne.
Qed.

Lemma lia_get_pfg_p_cooperate_frame {R : Rounding} e c k :
  exists c',
    lia_get_pfg_p_cooperate k e c = Some (p_cooperate (entry_of e c k), c')
    /\ frame c c' /\ same_entries e c c'.
Proof.
  unfold lia_get_pfg_p_cooperate, bind at 1. rewrite consume_energy_eq.
  destruct (lia_lookup_eq e (consumed "lia" None c) k) as (c1 & Hrun & _).
  pose proof (lia_lookup_frame _ _ _ _ _ Hrun) as [Hf He].
  unfold bind, ret. rewrite Hrun. rewrite entry_of_consumed.
  exists c1. split; [reflexivity|]. split.
  - eapply frame_trans; [apply consumed_frame|exact Hf].
  - eapply same_entries_trans; [apply consumed_same_entries|exact He].
Qed.

(** ** Forwarder selection *)

Lemma pfg_pick_ext eu1 eu2 l acc :
  (forall k, eu1 k = eu2 k) -> pfg_pick eu1 l acc = pfg_pick eu2 l acc.
Proof.
  intros Hext. revert acc. induction l as [|k l IH]; intros acc; simpl.
  - reflexivity.
  - rewrite Hext. destruct (negb _); apply IH.
Qed.

Lemma pfg_loop_eq {R : Rounding} e l : forall c acc,
  exists c',
    pfg_loop l acc e c = Some (pfg_pick (eu_of e c) l acc, c')
    /\ frame c c' /\ same_entries e c c'.
Proof.
  induction l as [|k l IH]; intros c acc; simpl.
  - exists c. split; [reflexivity|]. split; [apply frame_refl|apply same_entries_refl].
  - destruct (lia_get_pfg_p_cooperate_frame e c k) as (c1 & Hrun & Hf & He).
    unfold bind at 1. rewrite Hrun. fold (eu_of e c k).
    assert (Hext : forall j, eu_of e c1 j = eu_of e c j)
      by (intros j; unfold eu_of; now rewrite He).
    destruct (negb (Qle_bool (eu_of e c k) (snd (fst acc)))).
    + destruct (IH c1 (Some k, eu_of e c k, "Send"%string)) as (c2 & H2 & Hf2 & He2).
      exists c2. rewrite H2. split; [f_equal; f_equal; now apply pfg_pick_ext|].
      split; [eapply frame_trans|eapply same_entries_trans]; eassumption.
    + destruct (IH c1 acc) as (c2 & H2 & Hf2 & He2).
      exists c2. rewrite H2. split; [f_equal; f_equal; now apply pfg_pick_ext|].
      split; [eapply frame_trans|eapply same_entries_trans]; eassumption.
Qed.

Lemma Qle_bool_false a b : Qle_bool a b = false -> b < a.
Proof.
  intros H. apply Qnot_le_lt. intros Hle.
  apply Qle_bool_iff in Hle. congruence.
Qed.

(** The loop either keeps its accumulator, when no candidate beats the
    current maximum, or ends on the first candidate of greatest utility. *)
Lemma pfg_pick_spec eu l : forall acc,
  ((forall k, k ∈ l -> eu k <= snd (fst acc)) /\ pfg_pick eu l acc = acc)
  \/ (exists i b,
        l !! i = Some b
        /\ pfg_pick eu l acc = (Some b, eu b, "Send"%string)
        /\ snd (fst acc) < eu b
        /\ (forall k, k ∈ l -> eu k <= eu b)
        /\ (forall j k, (j < i)%nat -> l !! j = Some k -> eu k < eu b)).
Proof.
  induction l as [|x l IH]; intros acc; simpl.
  - left. split; [|reflexivity]. intros k Hk. inversion Hk.
  - destruct (Qle_bool (eu x) (snd (fst acc))) eqn:Hx; simpl.
    + apply Qle_bool_iff in Hx.
      destruct (IH acc) as [[Hall Heq]|(i & b & Hi & Heq & Hgt & Hmax & Hfirst)].
      * left. split; [|exact Heq].
        intros k Hk. apply elem_of_cons in Hk as [->|Hk]; [exact Hx|now apply Hall].
      * right. exists (S i), b. split; [exact Hi|]. split; [exact Heq|].
        split; [exact Hgt|]. split.
        -- intros k Hk. apply elem_of_cons in Hk as [->|Hk]; [lra|now apply Hmax].
        -- intros [|j] k Hj Hk; simpl in Hk.
           ++ injection Hk as <-. lra.
           ++ apply (Hfirst j); [lia|exact Hk].
    + apply Qle_bool_false in Hx. right.
      destruct (IH (Some x, eu x, "Send"%string))
        as [[Hall Heq]|(i & b & Hi & Heq & Hgt & Hmax & Hfirst)]; simpl in *.
      * exists 0%nat, x. split; [reflexivity|]. split; [exact Heq|].
        split; [exact Hx|]. split.
        -- intros k Hk. apply elem_of_cons in Hk as [->|Hk]; [lra|now apply Hall].
        -- intros j k Hj. lia.
      * exists (S i), b. split; [exact Hi|]. split; [exact Heq|].
        split; [lra|]. split.
        -- intros k Hk. apply elem_of_cons in Hk as [->|Hk]; [lra|now apply Hmax].
        -- intros [|j] k Hj Hk; simpl in Hk.
           ++ injection Hk as <-. exact Hgt.
           ++ apply (Hfirst j); [lia|exact Hk].
Qed.

Lemma frame_id c c' : frame c c' -> id (self c') = id (self c).
Proof. intros (H & _). exact (f_equal id H). Qed.

Lemma frame_pfg_choices c c' :
  frame c c' -> sdu_pfg_choices (STATS c') = sdu_pfg_choices (STATS c).
Proof. intros (_ & H & _). exact (f_equal sdu_pfg_choices H). Qed.

Lemma sdu_pfg_select_forwarder_nil {R : Rounding} e c packet :
  sdu_pfg_select_forwarder packet [] e c
  = Some ((None, "Hold"%string), consumed "sdu" None c).
Proof.
  unfold sdu_pfg_select_forwarder, bind. now rewrite consume_energy_eq.
Qed.

Lemma sdu_pfg_select_forwarder_cons {R : Rounding} e c packet k l :
  let r := pfg_pick (eu_of e c) (k :: l) (None, PFG_HOLD, "Hold"%string) in
  exists c',
    sdu_pfg_select_forwarder packet (k :: l) e c = Some ((fst (fst r), snd r), c')
    /\ core (self c') = core (self c)
    /\ same_entries e c c'
    /\ spawned c' = spawned c
    /\ erase_energy (STATS c')
       = erase_energy
           (set_sdu_pfg_choices (STATS c)
              (incr2 (id (self c)) (id_or (fst (fst r)) "Hold")
                 (sdu_pfg_choices (STATS c)))).
Proof.
  intros r. unfold sdu_pfg_select_forwarder, bind at 1.
  rewrite consume_energy_eq.
  destruct (pfg_loop_eq e (k :: l) (consumed "sdu" None c)
              (None, PFG_HOLD, "Hold"%string)) as (c1 & Hrun & Hf & He).
  assert (Hr : pfg_pick (eu_of e (consumed "sdu" None c)) (k :: l)
                 (None, PFG_HOLD, "Hold"%string) = r).
  { apply pfg_pick_ext. intros j. unfold eu_of. now rewrite entry_of_consumed. }
  rewrite Hr in Hrun.
  pose proof (frame_trans _ _ _ (consumed_frame "sdu" None c) Hf) as Hfr.
  pose proof (same_entries_trans _ _ _ _ (consumed_same_entries e "sdu" None c) He)
    as Her.
  unfold bind at 1. rewrite Hrun. unfold_m. simpl.
  eexists. split; [reflexivity|]. simpl.
  destruct Hfr as (Hcore & Hst & Hsp).
  split; [exact Hcore|]. split; [exact Her|]. split; [exact Hsp|].
  pose proof (f_equal id Hcore) as Hid. simpl in Hid.
  unfold erase_energy in *. simpl. injection Hst as -> -> -> -> -> -> -> -> -> -> -> ->.
  now rewrite Hid.
Qed.

Lemma tally_incr2_same {K} `{Countable K} (d : gmap nat (gmap K nat)) i k :
  tally (incr2 i k d) i k = S (tally d i k).
Proof.
  unfold tally, incr2, incr. rewrite lookup_insert_eq. simpl.
  now rewrite lookup_insert_eq.
Qed.

Lemma tally_incr2_other {K} `{Countable K} (d : gmap nat (gmap K nat)) i k j k' :
  (j, k') <> (i, k) -> tally (incr2 i k d) j k' = tally d j k'.
Proof.
  intros Hne. unfold tally, incr2, incr.
  destruct (decide (i = j)) as [->|Hij].
  - rewrite lookup_insert_eq. simpl.
    rewrite lookup_insert_ne by congruence. reflexivity.
  - now rewrite lookup_insert_ne.
Qed.

(** C7.  [sdu_pfg_select_forwarder] always returns, whatever the
    rounding of the float operations.  The expected utility of a
    candidate whose cooperation estimate is [p] is [p * 4 + (1 - p) * (-11)],
    each operation rounded, and the hold payoff is the float -0.1.  The
    method returns [(None, 'Hold')] for an empty candidate list and
    whenever the expected utility of every candidate is at most the hold
    payoff.  When some candidate exceeds the hold payoff it returns
    ['Send'] with a candidate whose expected utility exceeds the hold
    payoff and is greatest among the candidates, namely the first such
    candidate in iteration order: every candidate before it has a
    strictly smaller expected utility. *)
Theorem sdu_pfg_select_forwarder_spec {R : Rounding} (e : Env) (c : Ctx)
    (packet : Packet) (candidate_fw_ids : list nat) :
  let eu := fun k =>
    let p := p_cooperate (entry_of e c k) in
    fl (fl (p * 4) + fl (fl (1 - p) * -11)) in
  let hold := fl (-0.1) in
  exists r c',
    sdu_pfg_select_forwarder packet candidate_fw_ids e c = Some (r, c')
    /\ (candidate_fw_ids = [] -> r = (None, "Hold"%string))
    /\ ((forall k, k ∈ candidate_fw_ids -> eu k <= hold) ->
        r = (None, "Hold"%string))
    /\ ((exists k, k ∈ candidate_fw_ids /\ hold < eu k) ->
        exists i b,
          candidate_fw_ids !! i = Some b
          /\ r = (Some b, "Send"%string)
          /\ hold < eu b
          /\ (forall k, k ∈ candidate_fw_ids -> eu k <= eu b)
          /\ (forall j k, (j < i)%nat -> candidate_fw_ids !! j = Some k ->
                          eu k < eu b)).
Proof.
  intros eu hold.
  destruct candidate_fw_ids as [|x l].
  - eexists _, _. split; [apply sdu_pfg_select_forwarder_nil|].
    split; [reflexivity|]. split; [reflexivity|].
    intros (k & Hk & _). inversion Hk.
  - destruct (sdu_pfg_select_forwarder_cons e c packet x l) as (c' & Hrun & _).
    change (pfg_pick (eu_of e c) (x :: l) (None, PFG_HOLD, "Hold"%string))
      with (pfg_pick eu (x :: l) (None, hold, "Hold"%string)) in Hrun.
    eexists _, c'. split; [exact Hrun|].
    split; [discriminate|].
    destruct (pfg_pick_spec eu (x :: l) (None, hold, "Hold"%string))
      as [[Hall Heq]|(i & b & Hi & Heq & Hgt & Hmax & Hfirst)];
      rewrite Heq; cbn [fst snd] in *.
    + split; [reflexivity|].
      intros (k & Hk & Hlt). specialize (Hall k Hk).
      destruct (Qlt_not_le _ _ Hlt Hall).
    + split.
      * intros Hall. specialize (Hall b (list_elem_of_lookup_2 _ _ _ Hi)).
        destruct (Qlt_not_le _ _ Hgt Hall).
      * intros _. exists i, b. repeat split; assumption.
Qed.

(** At 79 cooperations and 86 defections, the last outcome being a
    cooperation, the expected utility is the hold payoff itself in exact
    arithmetic, and the selection holds. *)
Remark sdu_pfg_select_forwarder_exact_tie :
  let c := ctx_of (with_observations (new_node 2 None [1%nat; 3%nat])
                     3 79 86 "Cooperate") in
  fst <$> sdu_pfg_select_forwarder (R := exact_arithmetic) (data_of 5 0 0)
            [1%nat; 3%nat] (env_of 0 []) c
  = Some (None, "Hold"%string).
Proof. vm_compute. reflexivity. Qed.

(** C10.  On an empty candidate list [sdu_pfg_select_forwarder] returns
    [(None, 'Hold')] in the state [consume_energy('sdu')] leaves: a live
    node is charged the decision cost, and the tallies of
    [STATS['sdu_pfg_choices']] are all unchanged.  On a non-empty list
    exactly the tally of the chosen key (the forwarder's id, or ['Hold'])
    of the node is incremented by one. *)
Theorem sdu_pfg_select_forwarder_empty (e : Env) (c : Ctx) (packet : Packet) :
  (exists c',
     sdu_pfg_select_forwarder packet [] e c = Some ((None, "Hold"%string), c')
     /\ c' = consumed "sdu" None c
     /\ (alive (self c) = true ->
         nodes_energy (STATS c') !! id (self c)
         = Some (energy (self c) - E_SDU_COMPUTE))
     /\ sdu_pfg_choices (STATS c') = sdu_pfg_choices (STATS c))
  /\ (forall x l, exists r c',
        sdu_pfg_select_forwarder packet (x :: l) e c = Some (r, c')
        /\ tally (sdu_pfg_choices (STATS c')) (id (self c)) (id_or (fst r) "Hold")
           = S (tally (sdu_pfg_choices (STATS c)) (id (self c))
                  (id_or (fst r) "Hold"))
        /\ (forall j k, (j, k) <> (id (self c), id_or (fst r) "Hold") ->
              tally (sdu_pfg_choices (STATS c')) j k
              = tally (sdu_pfg_choices (STATS c)) j k)).
Proof.
  split.
  - eexists. split; [apply sdu_pfg_select_forwarder_nil|].
    split; [reflexivity|]. split.
    + intros Ha. unfold consumed. rewrite Ha. simpl. apply lookup_insert_eq.
    + apply frame_pfg_choices, consumed_frame.
  - intros x l.
    destruct (sdu_pfg_select_forwarder_cons e c packet x l)
      as (c' & Hrun & _ & _ & _ & Hst).
    eexists _, c'. split; [exact Hrun|].
    apply (f_equal sdu_pfg_choices) in Hst. simpl in Hst. rewrite Hst.
    split; [apply tally_incr2_same|].
    intros j k Hne. now apply tally_incr2_other.
Qed.

(** ** Parent selection *)

Lemma rank_geb_false a b : rank_geb a b = false <-> rank_lt a b.
Proof.
  destruct a as [x|], b as [y|]; simpl; try tauto; try (split; [easy|easy]).
  rewrite Z.leb_gt. tauto.
Qed.

Lemma frame_core c c' : frame c c' -> core (self c') = core (self c).
Proof. now intros (H & _). Qed.

Lemma core_rpl_rank n n' : core n' = core n -> rpl_rank n' = rpl_rank n.
Proof. intros H. exact (f_equal rpl_rank H). Qed.

Lemma core_rpl_parent_id n n' :
  core n' = core n -> rpl_parent_id n' = rpl_parent_id n.
Proof. intros H. exact (f_equal rpl_parent_id H). Qed.

Lemma core_neighbors n n' : core n' = core n -> neighbors n' = neighbors n.
Proof. intros H. exact (f_equal neighbors H). Qed.

Lemma core_attacker n n' :
  core n' = core n -> is_attacker_type n' = is_attacker_type n.
Proof. intros H. exact (f_equal is_attacker_type H). Qed.

Lemma core_id n n' : core n' = core n -> id n' = id n.
Proof. intros H. exact (f_equal id H). Qed.

Lemma lia_get_psg_parent_score_frame {R : Rounding} e c k r :
  exists c',
    lia_get_psg_parent_score k r e c = Some (parent_score (entry_of e c k) r, c')
    /\ frame c c' /\ same_entries e c c'.
Proof.
  unfold lia_get_psg_parent_score, bind at 1. rewrite consume_energy_eq.
  destruct (lia_lookup_eq e (consumed "lia" None c) k) as (c1 & Hrun & _).
  pose proof (lia_lookup_frame _ _ _ _ _ Hrun) as [Hf He].
  unfold bind, ret. rewrite Hrun. rewrite entry_of_consumed.
  exists c1. split; [reflexivity|]. split.
  - eapply frame_trans; [apply consumed_frame|exact Hf].
  - eapply same_entries_trans; [apply consumed_same_entries|exact He].
Qed.

Lemma lia_update_psg_from_dio_frame {R : Rounding} e c s r v a c' :
  lia_update_psg_from_dio s r v e c = Some (a, c') -> frame c c'.
Proof.
  unfold lia_update_psg_from_dio, bind at 1. rewrite consume_energy_eq.
  destruct (lia_lookup_eq e (consumed "lia" None c) s) as (c1 & Hrun & _).
  pose proof (lia_lookup_frame _ _ _ _ _ Hrun) as [Hf _].
  unfold bind at 1. rewrite Hrun. unfold lia_store. unfold_m. simpl.
  intros [= <- <-].
  pose proof (frame_trans _ _ _ (consumed_frame "lia" None c) Hf)
    as (Hc & Hs & Hsp).
  repeat split; simpl; assumption.
Qed.

(** The loop never raises; it keeps the accumulated parent or moves to a
    proposed candidate whose advertised rank is below the node's. *)
Lemma psg_loop_spec e l : forall c acc,
  exists a c',
    psg_loop l acc e c = Some (a, c')
    /\ frame c c'
    /\ (fst a = fst acc
        \/ exists p_id p_rank p_version,
             (p_id, p_rank, p_version) ∈ l
             /\ fst a = Some p_id
             /\ rank_lt p_rank (rpl_rank (self c))).
Proof.
  induction l as [|[[p_id p_rank] p_version] l IH]; intros c acc; simpl.
  - exists acc, c. split; [reflexivity|]. split; [apply frame_refl|now left].
  - unfold bind at 1, get_self at 1.
    destruct (rank_geb p_rank (rpl_rank (self c))) eqn:Hge.
    + destruct (IH c acc) as (a & c' & Hrun & Hf & Ha).
      exists a, c'. split; [exact Hrun|]. split; [exact Hf|].
      destruct Ha as [Ha|(i & r & v & Hin & Ha & Hlt)]; [now left|].
      right. exists i, r, v. split; [now apply list_elem_of_further|]. now split.
    + apply rank_geb_false in Hge.
      destruct (lia_get_psg_parent_score_frame e c p_id p_rank)
        as (c1 & Hrun1 & Hf1 & _).
      unfold bind at 1. rewrite Hrun1. unfold bind at 1, get_self at 1.
      pose proof (core_rpl_rank _ _ (frame_core _ _ Hf1)) as Hrk.
      match goal with
      | |- context [util_gtb ?u (snd acc)] => destruct (util_gtb u (snd acc))
      end.
      * match goal with
        | |- context [psg_loop l ?acc1 e c1] =>
            destruct (IH c1 acc1) as (a & c' & Hrun & Hf & Ha)
        end.
        exists a, c'. split; [exact Hrun|].
        split; [eapply frame_trans; eassumption|].
        right. destruct Ha as [Ha|(i & r & v & Hin & Ha & Hlt)].
        -- exists p_id, p_rank, p_version.
           split; [apply list_elem_of_here|]. split; [exact Ha|exact Hge].
        -- exists i, r, v. split; [now apply list_elem_of_further|].
           split; [exact Ha|]. now rewrite <- Hrk.
      * destruct (IH c1 acc) as (a & c' & Hrun & Hf & Ha).
        exists a, c'. split; [exact Hrun|].
        split; [eapply frame_trans; eassumption|].
        destruct Ha as [Ha|(i & r & v & Hin & Ha & Hlt)]; [now left|].
        right. exists i, r, v. split; [now apply list_elem_of_further|].
        split; [exact Ha|]. now rewrite <- Hrk.
Qed.

Lemma psg_current_parent_spec e c acc c' :
  psg_current_parent e c = Some (acc, c') ->
  frame c c'
  /\ (fst acc = None
      \/ exists pid, fst acc = Some pid
                     /\ rpl_parent_id (self c) = Some pid
                     /\ pid ∈ neighbors (self c)).
Proof.
  unfold psg_current_parent, bind at 1, get_self at 1.
  destruct (rpl_parent_id (self c)) as [pid|] eqn:Hp.
  - destruct (decide (pid ∈ neighbors (self c))) as [Hin|Hin].
    + unfold bind at 1, ask at 1.
      destruct (peers e !! pid) as [pn|]; [|discriminate].
      destruct (lia_get_psg_parent_score_frame e c pid (rpl_rank pn))
        as (c1 & Hrun & Hf & _).
      unfold bind, ret. rewrite Hrun. intros [= <- <-].
      split; [exact Hf|]. right. exists pid. now repeat split.
    + intros [= <- <-]. split; [apply frame_refl|now left].
  - intros [= <- <-]. split; [apply frame_refl|now left].
Qed.

(** Where the parent [sdu_psg_select_parent] returns comes from, and what
    the call records in [STATS['rpl_parent_changes']]. *)
Lemma sdu_psg_select_parent_spec e c l p c' :
  sdu_psg_select_parent l e c = Some (p, c') ->
  core (self c') = core (self c)
  /\ spawned c' = spawned c
  /\ (p = None
      \/ (exists pid, p = Some pid
                      /\ rpl_parent_id (self c) = Some pid
                      /\ pid ∈ neighbors (self c))
      \/ (exists p_id p_rank p_version,
            (p_id, p_rank, p_version) ∈ l
            /\ p = Some p_id
            /\ rank_lt p_rank (rpl_rank (self c))))
  /\ rpl_parent_changes (STATS c')
     = if decide (p ≠ rpl_parent_id (self c) ∧ p ≠ None)
       then incr (id (self c)) (rpl_parent_changes (STATS c))
       else rpl_parent_changes (STATS c).
Proof.
  unfold sdu_psg_select_parent, bind at 1. rewrite consume_energy_eq.
  pose proof (consumed_frame "sdu" None c) as Hf0.
  destruct l as [|x l].
  - intros [= <- <-]. destruct Hf0 as (Hc & Hs & Hsp).
    split; [exact Hc|]. split; [exact Hsp|]. split; [now left|].
    rewrite decide_False by tauto. exact (f_equal rpl_parent_changes Hs).
  - unfold bind at 1.
    destruct (psg_current_parent e (consumed "sdu" None c)) as [[acc c1]|] eqn:Hcur;
      [|discriminate].
    apply psg_current_parent_spec in Hcur as [Hf1 Hacc].
    destruct (psg_loop_spec e (x :: l) c1 acc) as (a & c2 & Hrun & Hf2 & Ha).
    unfold bind at 1. rewrite Hrun. unfold bind at 1, get_self at 1.
    pose proof (frame_trans _ _ _ (frame_trans _ _ _ Hf0 Hf1) Hf2)
      as (Hc & Hs & Hsp).
    pose proof (frame_core _ _ (frame_trans _ _ _ Hf0 Hf1)) as Hc1.
    rewrite (core_rpl_parent_id _ _ Hc), (core_id _ _ Hc).
    assert (Horigin :
      fst a = None
      \/ (exists pid, fst a = Some pid
                      /\ rpl_parent_id (self c) = Some pid
                      /\ pid ∈ neighbors (self c))
      \/ (exists p_id p_rank p_version,
            (p_id, p_rank, p_version) ∈ x :: l
            /\ fst a = Some p_id
            /\ rank_lt p_rank (rpl_rank (self c)))).
    { destruct Ha as [Ha|(i & r & v & Hin & Ha & Hlt)].
      - rewrite Ha. destruct Hacc as [Hn|(pid & Hpid & Hpar & Hin)]; [now left|].
        right; left. exists pid.
        rewrite <- (core_rpl_parent_id _ _ (frame_core _ _ Hf0)).
        rewrite <- (core_neighbors _ _ (frame_core _ _ Hf0)).
        now repeat split.
      - right; right. exists i, r, v. rewrite <- (core_rpl_rank _ _ Hc1).
        now repeat split. }
    pose proof (f_equal rpl_parent_changes Hs) as Hpc. simpl in Hpc.
    destruct (decide (fst a ≠ rpl_parent_id (self c) ∧ fst a ≠ None));
      unfold_m; simpl; intros [= <- <-]; simpl;
      (split; [exact Hc|]); (split; [exact Hsp|]); (split; [exact Horigin|]).
    + rewrite Hpc. now rewrite decide_True by assumption.
    + now rewrite decide_False by assumption.
Qed.

(** ** Adoption of the DIO sender *)

Lemma truthy_and_eq_true p s :
  truthy_and_eq p s = true -> p = Some s /\ s <> 0%nat.
Proof.
  unfold truthy_and_eq. destruct p as [[|k]|]; try discriminate.
  intros H%Nat.eqb_eq. subst s. split; [reflexivity|discriminate].
Qed.

(** The run of [handle_dio] once the selection has returned [p]. *)
Lemma handle_dio_unfold e c pkt s rank version c1 p c2 :
  data pkt = PayloadDio rank version ->
  is_attacker_type (self c) <> Some "rpl_rank"%string ->
  lia_update_psg_from_dio s rank version e c = Some (tt, c1) ->
  sdu_psg_select_parent [(s, rank, version)] e c1 = Some (p, c2) ->
  handle_dio pkt s e c
  = if truthy_and_eq p s then
      Some (tt,
            {| self := adopt (self c2) s (rank_succ rank);
               STATS :=
                 if decide (rpl_parent_id (self c2) ≠ Some s)
                 then set_rpl_parent_changes (STATS c2)
                        (incr (id (self c2)) (rpl_parent_changes (STATS c2)))
                 else STATS c2;
               spawned := spawned c2 |})
    else Some (tt, c2).
Proof.
  intros Hd Hatt H1 H2. unfold handle_dio. rewrite Hd.
  unfold bind at 1. rewrite H1. unfold bind at 1, get_self at 1.
  pose proof (lia_update_psg_from_dio_frame _ _ _ _ _ _ _ H1) as Hf.
  rewrite (core_attacker _ _ (frame_core _ _ Hf)).
  rewrite decide_False by assumption.
  unfold bind at 1. rewrite H2.
  destruct (truthy_and_eq p s); [|reflexivity].
  unfold_m. simpl.
  destruct (decide (rpl_parent_id (self c2) ≠ Some s)); reflexivity.
Qed.

Lemma new_parent_id_of_runs e c s rank version p :
  new_parent_id_of s rank version e c = Some p ->
  exists c1 c2,
    lia_update_psg_from_dio s rank version e c = Some (tt, c1)
    /\ sdu_psg_select_parent [(s, rank, version)] e c1 = Some (p, c2).
Proof.
  unfold new_parent_id_of, bind.
  destruct (lia_update_psg_from_dio s rank version e c) as [[[] c1]|] eqn:H1;
    [|discriminate].
  destruct (sdu_psg_select_parent _ e c1) as [[q c2]|] eqn:H2; [|discriminate].
  simpl. intros [= ->]. exists c1, c2. split; [reflexivity|exact H2].
Qed.

(** C1, as the code has it.  Whenever [handle_dio] adopts the DIO sender
    (the selection returns the sender and the adoption branch runs), the
    node's parent is the sender and its rank is the advertised rank plus
    one.  The advertised rank was strictly below the node's rank at
    evaluation time unless the sender already was the node's parent and
    one of its neighbours: a current parent is kept, and the rank
    refreshed, whatever rank it advertises. *)
Theorem handle_dio_adoption (e : Env) (c : Ctx) (pkt : Packet) (s : nat)
    (rank : Rank) (version : Z) (p : option nat) :
  data pkt = PayloadDio rank version ->
  is_attacker_type (self c) <> Some "rpl_rank"%string ->
  new_parent_id_of s rank version e c = Some p ->
  truthy_and_eq p s = true ->
  exists c',
    handle_dio pkt s e c = Some (tt, c')
    /\ rpl_parent_id (self c') = Some s
    /\ rpl_rank (self c') = rank_succ rank
    /\ (rank_lt rank (rpl_rank (self c))
        \/ (rpl_parent_id (self c) = Some s /\ s ∈ neighbors (self c)))
    /\ (rpl_parent_id (self c) <> Some s -> rank_lt rank (rpl_rank (self c))).
Proof.
  intros Hd Hatt Hsel Htruthy.
  destruct (new_parent_id_of_runs _ _ _ _ _ _ Hsel) as (c1 & c2 & H1 & H2).
  rewrite (handle_dio_unfold _ _ _ _ _ _ _ _ _ Hd Hatt H1 H2), Htruthy.
  eexists. split; [reflexivity|]. simpl.
  split; [reflexivity|]. split; [reflexivity|].
  apply truthy_and_eq_true in Htruthy as [-> Hs0].
  pose proof (lia_update_psg_from_dio_frame _ _ _ _ _ _ _ H1) as Hf.
  pose proof (frame_core _ _ Hf) as Hc1.
  destruct (sdu_psg_select_parent_spec _ _ _ _ _ H2)
    as (_ & _ & Horigin & _).
  rewrite (core_rpl_parent_id _ _ Hc1), (core_neighbors _ _ Hc1),
    (core_rpl_rank _ _ Hc1) in Horigin.
  assert (Hor : rank_lt rank (rpl_rank (self c))
                \/ (rpl_parent_id (self c) = Some s /\ s ∈ neighbors (self c))).
  { destruct Horigin as [Hn|[(pid & Hp & Hpar & Hin)|(i & r & v & Hin & Hp & Hlt)]].
    - discriminate.
    - injection Hp as <-. right. now split.
    - apply list_elem_of_singleton in Hin. injection Hin as -> -> ->.
      now left. }
  split; [exact Hor|].
  intros Hne. destruct Hor as [Hlt|[Hpar _]]; [exact Hlt|contradiction].
Qed.

(** A node of rank 2 whose parent and neighbour 1 now advertises rank 5:
    the selection returns the sender, the adoption branch runs and the
    node's rank becomes 6, although 5 is not below 2. *)
Lemma handle_dio_adoption_counterexample :
  let e := env_of 30 [with_parent (new_node 1 None [2%nat]) 3 (Fin 5)] in
  let c := ctx_of (with_parent (new_node 2 None [1%nat]) 1 (Fin 2)) in
  new_parent_id_of 1 (Fin 5) 0 e c = Some (Some 1%nat)
  /\ truthy_and_eq (Some 1%nat) 1 = true
  /\ (fun r => (rpl_parent_id (self r.2), rpl_rank (self r.2)))
       <$> handle_dio (dio_of 1 (Fin 5) 30) 1 e c
     = Some (Some 1%nat, Fin 6)
  /\ rpl_rank (self c) = Fin 2
  /\ ~ rank_lt (Fin 5) (rpl_rank (self c)).
Proof.
  repeat split; try (vm_compute; reflexivity).
  vm_compute. intros H. discriminate H.
Qed.

Lemma handle_dio_adoption_witness :
  let e := env_of 30 [new_node 1 None [2%nat]] in
  let c := ctx_of (new_node 2 None [1%nat]) in
  exists c',
    handle_dio (dio_of 1 (Fin 1) 30) 1 e c = Some (tt, c')
    /\ rpl_parent_id (self c') = Some 1%nat
    /\ rpl_rank (self c') = rank_succ (Fin 1)
    /\ (rank_lt (Fin 1) (rpl_rank (self c))
        \/ (rpl_parent_id (self c) = Some 1%nat /\ 1%nat ∈ neighbors (self c)))
    /\ (rpl_parent_id (self c) <> Some 1%nat ->
        rank_lt (Fin 1) (rpl_rank (self c))).
Proof.
  intros e c.
  apply (handle_dio_adoption e c (dio_of 1 (Fin 1) 30) 1 (Fin 1) 0 (Some 1%nat)).
  - reflexivity.
  - discriminate.
  - vm_compute. reflexivity.
  - reflexivity.
Defined.

(** ** Parent-change accounting *)

Lemma parent_changes_incr s i d :
  rpl_parent_changes s = incr i d ->
  parent_changes s i = S (default 0%nat (d !! i)).
Proof.
  intros H. unfold parent_changes, incr in *. rewrite H.
  now rewrite lookup_insert_eq.
Qed.

(** C4, what the code does.  When [handle_dio] adopts a sender that was
    not the node's parent, the change is recorded twice: once by
    [sdu_psg_select_parent] and once more by [handle_dio] itself, so that
    the node's parent-change counter grows by two for a single DIO. *)
Theorem handle_dio_counts_change_twice (e : Env) (c : Ctx) (pkt : Packet)
    (s : nat) (rank : Rank) (version : Z) (p : option nat) :
  data pkt = PayloadDio rank version ->
  is_attacker_type (self c) <> Some "rpl_rank"%string ->
  new_parent_id_of s rank version e c = Some p ->
  truthy_and_eq p s = true ->
  rpl_parent_id (self c) <> Some s ->
  exists c',
    handle_dio pkt s e c = Some (tt, c')
    /\ rpl_parent_id (self c') = Some s
    /\ parent_changes (STATS c') (id (self c))
       = S (S (parent_changes (STATS c) (id (self c)))).
Proof.
  intros Hd Hatt Hsel Htruthy Hne.
  destruct (new_parent_id_of_runs _ _ _ _ _ _ Hsel) as (c1 & c2 & H1 & H2).
  rewrite (handle_dio_unfold _ _ _ _ _ _ _ _ _ Hd Hatt H1 H2), Htruthy.
  apply truthy_and_eq_true in Htruthy as [-> Hs0].
  pose proof (lia_update_psg_from_dio_frame _ _ _ _ _ _ _ H1) as (Hc1 & Hs1 & _).
  destruct (sdu_psg_select_parent_spec _ _ _ _ _ H2) as (Hc2 & _ & _ & Hpc).
  rewrite (core_rpl_parent_id _ _ Hc1), (core_id _ _ Hc1) in Hpc.
  rewrite decide_True in Hpc by (split; congruence).
  rewrite (f_equal rpl_parent_changes Hs1 : rpl_parent_changes (STATS c1) = _)
    in Hpc.
  rewrite decide_True
    by (rewrite (core_rpl_parent_id _ _ Hc2), (core_rpl_parent_id _ _ Hc1);
        exact Hne).
  rewrite (core_id _ _ Hc2), (core_id _ _ Hc1).
  eexists. split; [reflexivity|]. simpl. split; [reflexivity|].
  erewrite parent_changes_incr by reflexivity.
  rewrite Hpc. unfold incr. now rewrite lookup_insert_eq.
Qed.

Lemma handle_dio_counts_change_twice_witness :
  let e := env_of 30 [new_node 1 None [2%nat]] in
  let c := ctx_of (new_node 2 None [1%nat]) in
  exists c',
    handle_dio (dio_of 1 (Fin 1) 30) 1 e c = Some (tt, c')
    /\ rpl_parent_id (self c') = Some 1%nat
    /\ parent_changes (STATS c') (id (self c))
       = S (S (parent_changes (STATS c) (id (self c)))).
Proof.
  intros e c.
  apply (handle_dio_counts_change_twice e c (dio_of 1 (Fin 1) 30) 1 (Fin 1) 0
           (Some 1%nat)).
  - reflexivity.
  - discriminate.
  - vm_compute. reflexivity.
  - reflexivity.
  - discriminate.
Defined.

(** ** Data-plane handling *)

(** A node that is not the destination passes every key of
    [self.neighbors] to the forwarder selection. *)
Lemma handle_data_packet_candidates {R : Rounding} e c packet sender_id :
  DestNode (id (self c)) <> dest_id packet ->
  handle_data_packet packet sender_id e c
  = bind (sdu_pfg_select_forwarder packet (neighbors (self c)))
         (forward_or_drop packet) e c.
Proof.
  intros Hne. unfold handle_data_packet, bind at 1, get_self at 1.
  now rewrite decide_False by assumption.
Qed.

Lemma forward_or_drop_hold e c packet :
  forward_or_drop packet (None, "Hold"%string) e c
  = Some (false, {| self := self c; STATS := record_drop (STATS c);
                    spawned := spawned c |}).
Proof. reflexivity. Qed.

Lemma forward_or_drop_send e c packet b :
  b ∈ neighbors (self c) ->
  forward_or_drop packet (Some b, "Send"%string) e c
  = Some (true, {| self := self c; STATS := STATS c;
                   spawned := (b, path_append packet (id (self c))) :: spawned c |}).
Proof.
  intros Hb. unfold forward_or_drop. simpl. unfold_m.
  now rewrite decide_True by assumption.
Qed.

(** C2, as the code has it.  A node that is not the destination of a
    DATA packet always completes [handle_data_packet], and whatever its
    attacker variant or that of its neighbours, the blackhole and other
    drop counters and the delivered counter are unchanged.  A drop
    (result [False]) adds exactly one to the selfish-drop counter and
    transmits nothing; otherwise no drop is recorded and the packet, with
    the node appended to its path, is handed to one neighbour. *)
Theorem handle_data_packet_drop (e : Env) (c : Ctx) (packet : Packet)
    (sender_id : nat) :
  DestNode (id (self c)) <> dest_id packet ->
  exists b c',
    handle_data_packet packet sender_id e c = Some (b, c')
    /\ packets_dropped_blackhole (STATS c') = packets_dropped_blackhole (STATS c)
    /\ packets_dropped_other (STATS c') = packets_dropped_other (STATS c)
    /\ packets_received_dest (STATS c') = packets_received_dest (STATS c)
    /\ (b = false ->
        packets_dropped_selfish (STATS c') = S (packets_dropped_selfish (STATS c))
        /\ spawned c' = spawned c)
    /\ (b = true ->
        packets_dropped_selfish (STATS c') = packets_dropped_selfish (STATS c)
        /\ exists next_hop,
             next_hop ∈ neighbors (self c)
             /\ spawned c'
                = (next_hop, path_append packet (id (self c))) :: spawned c).
Proof.
  intros Hne. rewrite handle_data_packet_candidates by assumption.
  destruct (neighbors (self c)) as [|x l] eqn:Hnb.
  - unfold bind. rewrite sdu_pfg_select_forwarder_nil, forward_or_drop_hold.
    destruct (consumed_frame "sdu" None c) as (_ & Hs & Hsp).
    eexists _, _. split; [reflexivity|]. simpl.
    split; [exact (f_equal packets_dropped_blackhole Hs)|].
    split; [exact (f_equal packets_dropped_other Hs)|].
    split; [exact (f_equal packets_received_dest Hs)|].
    split; [|discriminate]. intros _.
    split; [|exact Hsp].
    f_equal. exact (f_equal packets_dropped_selfish Hs).
  - destruct (sdu_pfg_select_forwarder_cons e c packet x l)
      as (c1 & Hrun & Hc & _ & Hsp & Hs).
    unfold bind. rewrite Hrun.
    destruct (pfg_pick_spec (eu_of e c) (x :: l) (None, PFG_HOLD, "Hold"%string))
      as [[_ Heq]|(i & b & Hi & Heq & _)]; rewrite Heq; simpl fst; simpl snd.
    + rewrite forward_or_drop_hold.
      eexists _, _. split; [reflexivity|]. simpl.
      split; [exact (f_equal packets_dropped_blackhole Hs)|].
      split; [exact (f_equal packets_dropped_other Hs)|].
      split; [exact (f_equal packets_received_dest Hs)|].
      split; [|discriminate]. intros _.
      split; [|exact Hsp].
      f_equal. exact (f_equal packets_dropped_selfish Hs).
    + assert (Hb : b ∈ x :: l) by (eapply list_elem_of_lookup_2; exact Hi).
      rewrite forward_or_drop_send
        by (rewrite (core_neighbors _ _ Hc), Hnb; exact Hb).
      eexists _, _. split; [reflexivity|]. simpl.
      split; [exact (f_equal packets_dropped_blackhole Hs)|].
      split; [exact (f_equal packets_dropped_other Hs)|].
      split; [exact (f_equal packets_received_dest Hs)|].
      split; [discriminate|]. intros _.
      split; [exact (f_equal packets_dropped_selfish Hs)|].
      exists b. split; [exact Hb|].
      now rewrite (core_id _ _ Hc), Hsp.
Qed.

Lemma handle_data_packet_drop_witness :
  let e := env_of 30 [new_node 1 (Some "blackhole"%string) [2%nat]] in
  let c := ctx_of (new_node 2 None [1%nat]) in
  exists b c',
    handle_data_packet (data_of 5 0 3) 5 e c = Some (b, c')
    /\ packets_dropped_blackhole (STATS c') = packets_dropped_blackhole (STATS c)
    /\ packets_dropped_other (STATS c') = packets_dropped_other (STATS c)
    /\ packets_received_dest (STATS c') = packets_received_dest (STATS c)
    /\ (b = false ->
        packets_dropped_selfish (STATS c') = S (packets_dropped_selfish (STATS c))
        /\ spawned c' = spawned c)
    /\ (b = true ->
        packets_dropped_selfish (STATS c') = packets_dropped_selfish (STATS c)
        /\ exists next_hop,
             next_hop ∈ neighbors (self c)
             /\ spawned c'
                = (next_hop, path_append (data_of 5 0 3) (id (self c)))
                  :: spawned c).
Proof.
  intros e c. apply (handle_data_packet_drop e c (data_of 5 0 3) 5).
  discriminate.
Defined.

(** Node 2, whose only neighbour 1 is a blackhole, drops a packet bound
    for node 0: the drop is counted as selfish and the blackhole counter
    stays at zero.  The blackhole node 1 itself, holding a packet bound
    for node 0 and trusting its neighbour 3, records no drop at all and
    forwards the packet. *)
Lemma handle_data_packet_blackhole_counterexample :
  (let e := env_of 30 [new_node 1 (Some "blackhole"%string) [2%nat]] in
   let c := ctx_of (new_node 2 None [1%nat]) in
   (fun r => (r.1, packets_dropped_blackhole (STATS r.2),
              packets_dropped_selfish (STATS r.2)))
     <$> handle_data_packet (data_of 5 0 3) 5 e c
   = Some (false, 0%nat, 1%nat))
  /\ (let e := env_of 30 [new_node 2 None [1%nat]; new_node 3 None [1%nat]] in
      let c := ctx_of (with_cooperations
                         (new_node 1 (Some "blackhole"%string) [2%nat; 3%nat])
                         3 5) in
      (fun r => (r.1, packets_dropped_blackhole (STATS r.2),
                 packets_dropped_selfish (STATS r.2), fst <$> spawned r.2))
        <$> handle_data_packet (data_of 5 0 3) 2 e c
      = Some (true, 0%nat, 0%nat, [3%nat])).
Proof. split; vm_compute; reflexivity. Qed.

(** C3, what the code does.  Node 2 has the single neighbour 3, which is
    dead: the list of live neighbours is empty, yet the candidate list
    passed to the forwarder selection is [[3]], and since node 2 trusts
    node 3 the packet is transmitted to the dead node. *)
Theorem handle_data_packet_dead_candidate :
  let e := env_of 30 [spent (new_node 3 None [2%nat])] in
  let c := ctx_of (with_cooperations (new_node 2 None [3%nat]) 3 5) in
  live_neighbors e (self c) = []
  /\ handle_data_packet (data_of 5 0 3) 5 e c
     = bind (sdu_pfg_select_forwarder (data_of 5 0 3) [3%nat])
            (forward_or_drop (data_of 5 0 3)) e c
  /\ (fun r => (r.1, fst <$> spawned r.2))
       <$> handle_data_packet (data_of 5 0 3) 5 e c
     = Some (true, [3%nat]).
Proof.
  split; [vm_compute; reflexivity|].
  split; [now apply handle_data_packet_candidates|].
  vm_compute. reflexivity.
Qed.

(** ** Inert nodes *)

(** An inbound delivery to an inert node returns [False] at once: no
    energy is charged, no handler runs, nothing changes. *)
Lemma _receive_message_dead e c packet sender_id :
  alive (self c) = false ->
  _receive_message packet sender_id e c = Some (Some false, c).
Proof.
  intros Ha. unfold _receive_message, bind, get_self. now rewrite Ha.
Qed.

(** [broadcast_dio] does nothing on an inert node. *)
Lemma broadcast_dio_dead e c :
  alive (self c) = false -> broadcast_dio e c = Some (tt, c).
Proof.
  intros Ha. unfold broadcast_dio, bind, get_self. now rewrite Ha.
Qed.

(** [_send_message] does not look at [alive]: started on an inert node
    it still counts the packet as sent and performs the delivery. *)
Lemma _send_message_dead e c target packet :
  alive (self c) = false ->
  _send_message target packet false e c
  = Some (Some {| dl_target := target; dl_packet := packet;
                  dl_sender := id (self c) |},
          {| self := self c;
             STATS := set_control_packets_sent (STATS c)
                        (incr2 (id (self c)) (p_type packet)
                           (control_packets_sent (STATS c)));
             spawned := spawned c |}).
Proof.
  intros Ha. unfold _send_message, bind at 1. rewrite consume_energy_eq.
  unfold consumed. rewrite Ha. reflexivity.
Qed.

(** C8, what the code does.  Node 2 has 0.005 units of energy left and
    two live neighbours, 1 and 3.  Its [broadcast_dio] spawns one send per
    neighbour.  The first send depletes the node and still delivers; the
    second starts when the node is already inert, and delivers to node 3
    all the same: both are counted as sent DIOs. *)
Theorem inert_node_still_sends :
  let e := env_of 30 [new_node 1 None [2%nat]; new_node 3 None [2%nat]] in
  let c := ctx_of (with_energy (new_node 2 None [1%nat; 3%nat]) 0.005) in
  (fun r => (r.1, alive (self r.2),
             tally (control_packets_sent (STATS r.2)) 2 "DIO"%string))
    <$> (broadcast_dio ;;; ps <- get_spawned ;; run_sends ps) e c
  = Some ([(true, Some 1%nat); (false, Some 3%nat)], false, 2%nat).
Proof. vm_compute. reflexivity. Qed.

(** ** The energy ledger along a run *)

Lemma node_le_refl n : 0 <= energy n -> node_le n n.
Proof. intros H. split; [lra|]. split; [exact H|]. now intros ->. Qed.

Lemma node_le_trans n1 n2 n3 : node_le n1 n2 -> node_le n2 n3 -> node_le n1 n3.
Proof.
  intros (A1 & B1 & C1) (A2 & B2 & C2). split; [lra|]. split; [exact B2|].
  intros Ha. destruct (C1 Ha) as (Ha2 & He2 & Hc2).
  destruct (C2 Ha2) as (Ha3 & He3 & Hc3).
  repeat split; [exact Ha3|congruence|congruence].
Qed.

Lemma keeps_ret {A} (a : A) : keeps (ret a).
Proof. intros e c a' c' H0 [= <- <-]. now apply node_le_refl. Qed.

Lemma keeps_raise {A} : keeps (@raise A).
Proof. intros e c a' c' H0 [=]. Qed.

Lemma keeps_ask : keeps ask.
Proof. intros e c a' c' H0 [= <- <-]. now apply node_le_refl. Qed.

Lemma keeps_get_self : keeps get_self.
Proof. intros e c a' c' H0 [= <- <-]. now apply node_le_refl. Qed.

Lemma keeps_get_stats : keeps get_stats.
Proof. intros e c a' c' H0 [= <- <-]. now apply node_le_refl. Qed.

Lemma keeps_put_stats s : keeps (put_stats s).
Proof. intros e c a' c' H0 [= <- <-]. now apply node_le_refl. Qed.

Lemma keeps_spawn_send t p : keeps (spawn_send t p).
Proof. intros e c a' c' H0 [= <- <-]. now apply node_le_refl. Qed.

Lemma keeps_get_spawned : keeps get_spawned.
Proof. intros e c a' c' H0 [= <- <-]. now apply node_le_refl. Qed.

Lemma keeps_bind {A B} (m : M A) (k : A -> M B) :
  keeps m -> (forall a, keeps (k a)) -> keeps (bind m k).
Proof.
  intros Hm Hk e c b c' H0. unfold bind.
  destruct (m e c) as [[a c1]|] eqn:Hrun; [|discriminate].
  intros Hrun2. pose proof (Hm _ _ _ _ H0 Hrun) as Hle.
  eapply node_le_trans; [exact Hle|].
  eapply Hk; [|exact Hrun2]. apply Hle.
Qed.

(** Replacing the receiver by [f self] where [f] leaves the ledger
    alone. *)
Lemma keeps_update_self {A} (f : IoTNode -> IoTNode) (k : IoTNode -> M A) :
  (forall n, energy (f n) = energy n /\ alive (f n) = alive n
             /\ action (f n) = action n) ->
  (forall n, keeps (k n)) ->
  keeps (bind get_self (fun n => bind (put_self (f n)) (fun _ => k n))).
Proof.
  intros Hf Hk e c a c' H0. unfold bind, get_self, put_self.
  intros Hrun. destruct (Hf (self c)) as (He & Ha & Hc).
  eapply node_le_trans; [|eapply Hk; [|exact Hrun]]; simpl.
  - unfold node_le. simpl. rewrite He, Ha, Hc.
    split; [lra|]. split; [exact H0|]. now intros ->.
  - now rewrite He.
Qed.

Lemma consumed_node_le cost_type amount c :
  0 <= energy (self c) ->
  0 <= actual_cost cost_type amount ->
  node_le (self c) (self (consumed cost_type amount c)).
Proof.
  intros H0 Hcost. unfold consumed.
  destruct (alive (self c)) eqn:Ha; [|now apply node_le_refl].
  simpl.
  destruct (Qle_bool (energy (self c) - actual_cost cost_type amount) 0) eqn:Hq;
    simpl.
  - unfold node_le. simpl. rewrite Ha.
    split; [lra|]. split; [lra|]. intros [=].
  - apply Qle_bool_false in Hq. unfold node_le. simpl. rewrite Ha.
    split; [lra|]. split; [lra|]. intros [=].
Qed.

Lemma keeps_consume_energy cost_type : keeps (consume_energy cost_type None).
Proof.
  intros e c a c' H0. rewrite consume_energy_eq. intros [= <- <-].
  apply consumed_node_le; [exact H0|apply cost_map_nonneg].
Qed.

Lemma keeps_lia_lookup k : keeps (lia_lookup k).
Proof.
  intros e c a c' H0 Hrun.
  destruct (lia_lookup_eq e c k) as (c1 & Hrun1 & _ & _ & _ & Hself).
  rewrite Hrun1 in Hrun. injection Hrun as <- <-.
  rewrite <- Hself in H0 |- *. simpl in *. unfold node_le. simpl.
  split; [lra|]. split; [exact H0|]. now intros ->.
Qed.

Lemma keeps_lia_store k x : keeps (lia_store k x).
Proof.
  intros e c a c' H0. unfold lia_store. unfold_m. intros [= <- <-].
  unfold node_le. simpl.
  split; [lra|]. split; [exact H0|]. now intros ->.
Qed.

Create HintDb keeps.

#[local] Hint Resolve keeps_ret keeps_raise keeps_ask keeps_get_self
  keeps_get_stats keeps_put_stats keeps_spawn_send keeps_get_spawned
  keeps_consume_energy keeps_lia_lookup keeps_lia_store : keeps.

Ltac keeps_step :=
  match goal with
  | |- keeps (bind _ _) => apply keeps_bind; [|intros ?]
  | |- keeps (if ?b then _ else _) => destruct b
  | |- keeps (match ?x with _ => _ end) => destruct x
  | |- keeps _ => solve [auto with keeps]
  end.

Ltac keeps_auto := repeat keeps_step.

Lemma keeps_lia_update_pfg k o : keeps (lia_update_pfg k o).
Proof. unfold lia_update_pfg. keeps_auto. Qed.

Lemma keeps_lia_update_psg_from_dio s r v : keeps (lia_update_psg_from_dio s r v).
Proof. unfold lia_update_psg_from_dio. keeps_auto. Qed.

Lemma keeps_lia_get_pfg_p_cooperate k : keeps (lia_get_pfg_p_cooperate k).
Proof. unfold lia_get_pfg_p_cooperate. keeps_auto. Qed.

Lemma keeps_lia_get_psg_parent_score k r : keeps (lia_get_psg_parent_score k r).
Proof. unfold lia_get_psg_parent_score. keeps_auto. Qed.

#[local] Hint Resolve keeps_lia_update_pfg keeps_lia_update_psg_from_dio
  keeps_lia_get_pfg_p_cooperate keeps_lia_get_psg_parent_score : keeps.

Lemma keeps_pfg_loop l : forall acc, keeps (pfg_loop l acc).
Proof. induction l as [|k l IH]; intros acc; simpl; keeps_auto; apply IH. Qed.

Lemma keeps_sdu_pfg_select_forwarder p l : keeps (sdu_pfg_select_forwarder p l).
Proof.
  unfold sdu_pfg_select_forwarder. keeps_auto; apply keeps_pfg_loop.
Qed.

Lemma keeps_psg_loop l : forall acc, keeps (psg_loop l acc).
Proof.
  induction l as [|[[i r] v] l IH]; intros acc; simpl; keeps_auto; apply IH.
Qed.

Lemma keeps_psg_current_parent : keeps psg_current_parent.
Proof. unfold psg_current_parent. keeps_auto. Qed.

Lemma keeps_sdu_psg_select_parent l : keeps (sdu_psg_select_parent l).
Proof.
  unfold sdu_psg_select_parent. keeps_auto;
    first [apply keeps_psg_current_parent | apply keeps_psg_loop].
Qed.

Lemma keeps_sdu_irg_decide_report k t coin : keeps (sdu_irg_decide_report k t coin).
Proof. unfold sdu_irg_decide_report. keeps_auto. Qed.

Lemma keeps__send_message t p lost : keeps (_send_message t p lost).
Proof. unfold _send_message. keeps_auto. Qed.

Lemma keeps_dio_loop ks p : keeps (dio_loop ks p).
Proof. induction ks as [|k ks IH]; simpl; keeps_auto; apply IH. Qed.

Lemma keeps_broadcast_dio : keeps broadcast_dio.
Proof.
  intros e c a c' H0. unfold broadcast_dio, bind at 1, get_self at 1.
  destruct (alive (self c)) eqn:Ha; simpl.
  - unfold bind at 1, ask at 1. unfold bind at 1, put_self at 1.
    intros Hrun. eapply node_le_trans; [|eapply keeps_dio_loop; [|exact Hrun]].
    + unfold node_le. simpl. rewrite Ha.
      split; [lra|]. split; [exact H0|]. intros [=].
    + exact H0.
  - intros [= <- <-]. now apply node_le_refl.
Qed.

#[local] Hint Resolve keeps_sdu_pfg_select_forwarder keeps_sdu_psg_select_parent
  keeps_sdu_irg_decide_report keeps__send_message keeps_broadcast_dio : keeps.

Lemma keeps_handle_dio p s : keeps (handle_dio p s).
Proof.
  unfold handle_dio. destruct (data p) as [?|rank version]; [apply keeps_raise|].
  apply keeps_bind; [auto with keeps|intros _].
  apply keeps_bind; [auto with keeps|intros n].
  destruct (decide _); [auto with keeps|].
  apply keeps_bind; [auto with keeps|intros q].
  destruct (truthy_and_eq q s); [|auto with keeps].
  apply (keeps_update_self (fun n => adopt n s (rank_succ rank))
           (fun n => if decide (rpl_parent_id n ≠ Some s)
                     then bind get_stats (fun st =>
                            put_stats (set_rpl_parent_changes st
                                         (incr (id n) (rpl_parent_changes st))))
                     else ret tt)).
  - intros m. now repeat split.
  - intros m. keeps_auto.
Qed.

Lemma keeps_forward_or_drop p r : keeps (forward_or_drop p r).
Proof. unfold forward_or_drop. keeps_auto. Qed.

Lemma keeps_handle_data_packet p s : keeps (handle_data_packet p s).
Proof.
  unfold handle_data_packet. keeps_auto. apply keeps_forward_or_drop.
Qed.

Lemma keeps__receive_message p s : keeps (_receive_message p s).
Proof.
  unfold _receive_message, handle_ack, handle_report. keeps_auto;
    first [apply keeps_handle_dio | apply keeps_handle_data_packet].
Qed.

Lemma keeps_discover_neighbors pos all_nodes :
  keeps (discover_neighbors pos all_nodes).
Proof.
  unfold discover_neighbors.
  induction all_nodes as [|o rest IH]; cbn [discover_loop]; [apply keeps_ret|].
  intros e c a c' H0. unfold bind at 1, get_self at 1.
  destruct (_ =? _)%nat; [now apply IH|].
  destruct (in_range _ _); [|now apply IH].
  unfold bind at 1, put_self at 1. intros Hrun.
  assert (Hk : keeps (bind (lia_lookup (placed_id o))
                        (fun _ => discover_loop pos rest))).
  { apply keeps_bind; [apply keeps_lia_lookup|intros _; exact IH]. }
  eapply node_le_trans; [|eapply Hk; [|exact Hrun]; exact H0].
  unfold node_le. simpl. split; [lra|]. split; [exact H0|]. now intros ->.
Qed.

Lemma keeps_exec call : keeps (exec call).
Proof.
  destruct call; simpl; keeps_auto;
    first [ apply keeps_handle_dio | apply keeps_handle_data_packet
          | apply keeps__receive_message | apply keeps_discover_neighbors
          | unfold handle_ack, handle_report; auto with keeps ].
Qed.

Lemma exec_all_node_le calls : forall c c',
  0 <= energy (self c) -> exec_all calls c = Some c' ->
  node_le (self c) (self c').
Proof.
  induction calls as [|[e call] calls IH]; intros c c' H0; simpl.
  - intros [= <-]. now apply node_le_refl.
  - destruct (exec call e c) as [[[] c1]|] eqn:Hrun; [|discriminate].
    intros Hrest. pose proof (keeps_exec call _ _ _ _ H0 Hrun) as Hle.
    eapply node_le_trans; [exact Hle|]. apply IH; [apply Hle|exact Hrest].
Qed.



(** ** The general statements at sample inputs *)



Lemma sdu_pfg_select_forwarder_spec_witness :
  let e := env_of 0 [] in
  let c := ctx_of (with_observations (new_node 2 None [1%nat; 3%nat])
                     3 79 86 "Cooperate") in
  exists c',
    sdu_pfg_select_forwarder (R := binary64) (data_of 5 0 0) [1%nat; 3%nat] e c
    = Some ((Some 3%nat, "Send"%string), c').
Proof.
  intros e c.
  destruct (sdu_pfg_select_forwarder_spec (R := binary64) e c (data_of 5 0 0)
              [1%nat; 3%nat])
    as (r & c' & Hrun & _ & _ & Hsend).
  destruct Hsend as (i & b & Hi & Hr & Hgt & _).
  - exists 3%nat. split.
    + apply list_elem_of_further, list_elem_of_here.
    + vm_compute. reflexivity.
  - exists c'. rewrite Hrun, Hr.
    destruct i as [|[|i]]; cbn in Hi.
    + injection Hi as <-. vm_compute in Hgt. discriminate Hgt.
    + injection Hi as <-. reflexivity.
    + discriminate Hi.
Defined.

Lemma sdu_pfg_select_forwarder_empty_witness :
  let e := env_of 30 [] in
  let c := ctx_of (new_node 2 None []) in
  exists c',
    sdu_pfg_select_forwarder (data_of 5 0 3) [] e c
    = Some ((None, "Hold"%string), c')
    /\ nodes_energy (STATS c') !! 2%nat = Some (100.0 - E_SDU_COMPUTE)
    /\ sdu_pfg_choices (STATS c') = sdu_pfg_choices (STATS c).
Proof.
  intros e c.
  destruct (sdu_pfg_select_forwarder_empty e c (data_of 5 0 3))
    as [(c' & Hrun & _ & Hcharge & Hsame) _].
  exists c'. split; [exact Hrun|]. split; [|exact Hsame].
  apply Hcharge. reflexivity.
Defined.

(** * Further properties of the node methods *)

(** ** Parent selection, functionally *)

Lemma psg_pick_ext {R : Rounding} sc1 sc2 rk par l acc :
  (forall k r, sc1 k r = sc2 k r) ->
  psg_pick sc1 rk par l acc = psg_pick sc2 rk par l acc.
Proof.
  intros Hext. revert acc.
  induction l as [|[[i r] v] l IH]; intros acc; simpl; [reflexivity|].
  rewrite Hext. destruct (rank_geb r rk); [apply IH|].
  destruct (util_gtb _ _); apply IH.
Qed.

Lemma score_of_same {R : Rounding} e c c' :
  same_entries e c c' -> forall k r, score_of e c' k r = score_of e c k r.
Proof. intros He k r. unfold score_of. now rewrite He. Qed.

Lemma psg_loop_eq {R : Rounding} e l : forall c acc,
  exists c',
    psg_loop l acc e c
    = Some (psg_pick (score_of e c) (rpl_rank (self c)) (rpl_parent_id (self c))
              l acc, c')
    /\ frame c c' /\ same_entries e c c'.
Proof.
  induction l as [|[[p_id p_rank] p_version] l IH]; intros c acc; simpl.
  - exists c. split; [reflexivity|].
    split; [apply frame_refl|apply same_entries_refl].
  - unfold bind at 1, get_self at 1.
    destruct (rank_geb p_rank (rpl_rank (self c))); [apply IH|].
    destruct (lia_get_psg_parent_score_frame e c p_id p_rank)
      as (c1 & Hrun1 & Hf1 & He1).
    unfold bind at 1. rewrite Hrun1. unfold bind at 1, get_self at 1.
    pose proof (frame_core _ _ Hf1) as Hc1.
    rewrite (core_rpl_parent_id _ _ Hc1). fold (score_of e c p_id p_rank).
    match goal with
    | |- context [util_gtb ?u (snd acc)] => destruct (util_gtb u (snd acc))
    end.
    + match goal with
      | |- context [psg_loop l ?acc1 e c1] =>
          destruct (IH c1 acc1) as (c2 & Hrun & Hf & He)
      end.
      exists c2. rewrite Hrun.
      rewrite (core_rpl_rank _ _ Hc1), (core_rpl_parent_id _ _ Hc1).
      split; [f_equal; f_equal; apply psg_pick_ext, score_of_same, He1|].
      split; [eapply frame_trans|eapply same_entries_trans]; eassumption.
    + destruct (IH c1 acc) as (c2 & Hrun & Hf & He).
      exists c2. rewrite Hrun.
      rewrite (core_rpl_rank _ _ Hc1), (core_rpl_parent_id _ _ Hc1).
      split; [f_equal; f_equal; apply psg_pick_ext, score_of_same, He1|].
      split; [eapply frame_trans|eapply same_entries_trans]; eassumption.
Qed.

Lemma psg_current_parent_eq {R : Rounding} e c :
  match psg_start e c with
  | Some acc =>
      exists c', psg_current_parent e c = Some (acc, c')
                 /\ frame c c' /\ same_entries e c c'
  | None => psg_current_parent e c = None
  end.
Proof.
  assert (Hret : forall acc : option nat * Utility,
    exists c', ret acc e c = Some (acc, c')
               /\ frame c c' /\ same_entries e c c').
  { intros acc. exists c. split; [reflexivity|].
    split; [apply frame_refl|apply same_entries_refl]. }
  unfold psg_start.
  destruct (rpl_parent_id (self c)) as [pid|] eqn:Hp.
  - destruct (decide (pid ∈ neighbors (self c))) as [Hin|Hin].
    + destruct (peers e !! pid) as [pn|] eqn:Hpn.
      * destruct (lia_get_psg_parent_score_frame e c pid (rpl_rank pn))
          as (c1 & Hrun & Hf & He).
        exists c1. split; [|now split].
        unfold psg_current_parent, bind at 1, get_self at 1. rewrite Hp.
        rewrite decide_True by assumption.
        unfold bind at 1, ask at 1. rewrite Hpn.
        unfold bind, ret. now rewrite Hrun.
      * unfold psg_current_parent, bind at 1, get_self at 1. rewrite Hp.
        rewrite decide_True by assumption.
        unfold bind at 1, ask at 1. now rewrite Hpn.
    + unfold psg_current_parent, bind at 1, get_self at 1. rewrite Hp.
      rewrite decide_False by assumption. apply Hret.
  - unfold psg_current_parent, bind at 1, get_self at 1. rewrite Hp.
    apply Hret.
Qed.

Lemma same_entries_psg_start {R : Rounding} e c c' :
  frame c c' -> same_entries e c c' -> psg_start e c' = psg_start e c.
Proof.
  intros Hf He. unfold psg_start.
  rewrite (core_rpl_parent_id _ _ (frame_core _ _ Hf)),
    (core_neighbors _ _ (frame_core _ _ Hf)).
  destruct (rpl_parent_id (self c)) as [pid|]; [|reflexivity].
  destruct (decide _); [|reflexivity].
  destruct (peers e !! pid); [|reflexivity].
  now rewrite (score_of_same _ _ _ He).
Qed.

(** [sdu_psg_select_parent] on a non-empty list, as a function of the
    state it is called in. *)
Lemma sdu_psg_select_parent_eq {R : Rounding} e c x l acc :
  psg_start e c = Some acc ->
  let best :=
    fst (psg_pick (score_of e c) (rpl_rank (self c)) (rpl_parent_id (self c))
           (x :: l) acc) in
  exists c',
    sdu_psg_select_parent (x :: l) e c = Some (best, c')
    /\ core (self c') = core (self c)
    /\ same_entries e c c'
    /\ spawned c' = spawned c
    /\ erase_energy (STATS c') = erase_energy (psg_stats c best).
Proof.
  intros Hstart best.
  unfold sdu_psg_select_parent, bind at 1. rewrite consume_energy_eq.
  pose proof (consumed_frame "sdu" None c) as Hf0.
  pose proof (consumed_same_entries e "sdu" None c) as He0.
  pose proof (psg_current_parent_eq e (consumed "sdu" None c)) as Hcur.
  rewrite (same_entries_psg_start _ _ _ Hf0 He0), Hstart in Hcur.
  destruct Hcur as (c1 & Hrun1 & Hf1 & He1).
  unfold bind at 1. rewrite Hrun1.
  destruct (psg_loop_eq e (x :: l) c1 acc) as (c2 & Hrun2 & Hf2 & He2).
  unfold bind at 1. rewrite Hrun2.
  pose proof (frame_trans _ _ _ Hf0 Hf1) as Hf01.
  pose proof (same_entries_trans _ _ _ _ He0 He1) as He01.
  rewrite (core_rpl_rank _ _ (frame_core _ _ Hf01)),
    (core_rpl_parent_id _ _ (frame_core _ _ Hf01)).
  rewrite (psg_pick_ext _ (score_of e c)) by (apply score_of_same, He01).
  fold best.
  destruct (frame_trans _ _ _ Hf01 Hf2) as (Hc & Hs & Hsp).
  pose proof (same_entries_trans _ _ _ _ He01 He2) as He.
  unfold bind at 1, get_self at 1.
  rewrite (core_rpl_parent_id _ _ Hc), (core_id _ _ Hc).
  unfold psg_stats.
  injection Hs as H1 H2 H3 H4 H5 H6 H7 H8 H9 H10 H11 H12.
  destruct (decide (best ≠ rpl_parent_id (self c) ∧ best ≠ None));
    unfold_m; simpl; (eexists; split; [reflexivity|]); simpl;
    (split; [exact Hc|]); (split; [exact He|]); (split; [exact Hsp|]);
    unfold erase_energy; simpl; congruence.
Qed.

(** ** Processing an advertisement *)

Lemma lia_update_psg_from_dio_run e c s r v :
  lia_update_psg_from_dio s r v e c = Some (tt, dio_updated e c s r).
Proof.
  unfold lia_update_psg_from_dio, bind at 1. rewrite consume_energy_eq.
  unfold dio_updated, dio_entry.
  rewrite <- (entry_of_consumed e "lia" None c s).
  set (c0 := consumed "lia" None c).
  unfold lia_lookup, entry_of. unfold bind at 1. unfold bind at 1, ask at 1.
  unfold bind at 1, get_self at 1.
  destruct (lia_data (self c0) !! s) as [x|] eqn:Hx; simpl.
  - unfold lia_store. unfold_m. simpl. reflexivity.
  - unfold lia_store. unfold_m. simpl. now rewrite insert_insert_eq.
Qed.

Lemma dio_updated_frame e c s r : frame c (dio_updated e c s r).
Proof.
  eapply lia_update_psg_from_dio_frame with (v := 0%Z).
  apply lia_update_psg_from_dio_run.
Qed.

Lemma entry_of_dio_updated e c s r k :
  entry_of e (dio_updated e c s r) k
  = if decide (k = s) then dio_entry e c s r else entry_of e c k.
Proof.
  unfold entry_of at 1, dio_updated. simpl. rewrite consumed_lia_data.
  destruct (decide (k = s)) as [->|Hne].
  - now rewrite lookup_insert_eq.
  - rewrite lookup_insert_ne by congruence. reflexivity.
Qed.

Lemma psg_start_known {R : Rounding} e c :
  parent_known e c -> exists acc, psg_start e c = Some acc
    /\ (fst acc = None
        \/ (fst acc = rpl_parent_id (self c)
            /\ exists pid, fst acc = Some pid /\ pid ∈ neighbors (self c))).
Proof.
  intros Hk. unfold psg_start.
  destruct (rpl_parent_id (self c)) as [pid|] eqn:Hp.
  - destruct (decide (pid ∈ neighbors (self c))) as [Hin|Hin].
    + destruct (Hk pid Hp Hin) as [pn ->].
      eexists. split; [reflexivity|]. right. simpl. split; [reflexivity|].
      now exists pid.
    + eexists. split; [reflexivity|]. now left.
  - eexists. split; [reflexivity|]. now left.
Qed.

Lemma parent_known_frame e c c' :
  frame c c' -> parent_known e c -> parent_known e c'.
Proof.
  intros Hf Hk pid. rewrite (core_rpl_parent_id _ _ (frame_core _ _ Hf)),
    (core_neighbors _ _ (frame_core _ _ Hf)). apply Hk.
Qed.

Lemma truthy_and_eq_zero p : truthy_and_eq p 0 = false.
Proof. destruct p as [[|k]|]; reflexivity. Qed.

Lemma truthy_and_eq_other p s : p <> Some s -> truthy_and_eq p s = false.
Proof.
  unfold truthy_and_eq. destruct p as [[|k]|]; try reflexivity.
  intros Hne. apply Nat.eqb_neq. congruence.
Qed.

Lemma truthy_and_eq_same s : s <> 0%nat -> truthy_and_eq (Some s) s = true.
Proof.
  unfold truthy_and_eq. destruct s as [|k]; [congruence|].
  intros _. apply Nat.eqb_refl.
Qed.

(** [handle_dio] of a node that is no rank attacker, from the parent
    [best] the selection returns in the state the LIA update leaves. *)
Lemma handle_dio_eq e c pkt s rank version acc :
  data pkt = PayloadDio rank version ->
  is_attacker_type (self c) <> Some "rpl_rank"%string ->
  psg_start e (dio_updated e c s rank) = Some acc ->
  let c1 := dio_updated e c s rank in
  let best :=
    fst (psg_pick (score_of e c1) (rpl_rank (self c)) (rpl_parent_id (self c))
           [(s, rank, version)] acc) in
  exists c',
    handle_dio pkt s e c = Some (tt, c')
    /\ rpl_parent_id (self c')
       = (if truthy_and_eq best s then Some s else rpl_parent_id (self c))
    /\ rpl_rank (self c')
       = (if truthy_and_eq best s then rank_succ rank else rpl_rank (self c))
    /\ parent_changes (STATS c') (id (self c))
       = ((if decide (best ≠ rpl_parent_id (self c) ∧ best ≠ None)
           then 1 else 0)
          + (if truthy_and_eq best s
             then if decide (rpl_parent_id (self c) ≠ Some s) then 1 else 0
             else 0)
          + parent_changes (STATS c) (id (self c)))%nat
    /\ id (self c') = id (self c)
    /\ neighbors (self c') = neighbors (self c)
    /\ spawned c' = spawned c.
Proof.
  intros Hd Hatt Hstart c1 best.
  pose proof (dio_updated_frame e c s rank) as Hf1. fold c1 in Hf1.
  pose proof (frame_core _ _ Hf1) as Hc1.
  destruct (sdu_psg_select_parent_eq e c1 (s, rank, version) [] acc Hstart)
    as (c2 & Hrun2 & Hc2 & _ & Hsp2 & Hs2).
  rewrite (core_rpl_rank _ _ Hc1), (core_rpl_parent_id _ _ Hc1) in Hrun2, Hs2.
  fold best in Hrun2, Hs2.
  rewrite (handle_dio_unfold e c pkt s rank version c1 best c2 Hd Hatt
             (lia_update_psg_from_dio_run e c s rank version) Hrun2).
  pose proof (eq_trans (core_rpl_parent_id _ _ Hc2) (core_rpl_parent_id _ _ Hc1))
    as Hpar.
  pose proof (eq_trans (core_rpl_rank _ _ Hc2) (core_rpl_rank _ _ Hc1)) as Hrk.
  pose proof (eq_trans (core_id _ _ Hc2) (core_id _ _ Hc1)) as Hid.
  pose proof (eq_trans (core_neighbors _ _ Hc2) (core_neighbors _ _ Hc1)) as Hnb.
  destruct Hf1 as (_ & Hs1 & Hsp1).
  assert (Hpc2 : parent_changes (STATS c2) (id (self c))
                 = ((if decide (best ≠ rpl_parent_id (self c) ∧ best ≠ None)
                     then 1 else 0)
                    + parent_changes (STATS c) (id (self c)))%nat).
  { unfold parent_changes.
    rewrite (f_equal rpl_parent_changes Hs2 : rpl_parent_changes (STATS c2) = _).
    unfold psg_stats. rewrite (core_rpl_parent_id _ _ Hc1), (core_id _ _ Hc1).
    pose proof (f_equal rpl_parent_changes Hs1) as Hpc1. simpl in Hpc1.
    destruct (decide (best ≠ rpl_parent_id (self c) ∧ best ≠ None)); simpl.
    - unfold incr. rewrite lookup_insert_eq, Hpc1. reflexivity.
    - now rewrite Hpc1. }
  destruct (truthy_and_eq best s).
  - eexists. split; [reflexivity|]. simpl.
    split; [reflexivity|]. split; [reflexivity|].
    split; [|split; [exact Hid|split; [exact Hnb|congruence]]].
    rewrite Hpar, Hid.
    destruct (decide (rpl_parent_id (self c) ≠ Some s)).
    + erewrite parent_changes_incr by reflexivity.
      fold (parent_changes (STATS c2) (id (self c))). rewrite Hpc2. lia.
    + rewrite Hpc2. lia.
  - exists c2. split; [reflexivity|].
    split; [exact Hpar|]. split; [exact Hrk|].
    split; [rewrite Hpc2; lia|].
    split; [exact Hid|]. split; [exact Hnb|congruence].
Qed.

Lemma psg_pick_single_skip sc rk par s rank version acc :
  rank_geb rank rk = true ->
  psg_pick sc rk par [(s, rank, version)] acc = acc.
Proof. intros H. cbn [psg_pick]. now rewrite H. Qed.

Lemma psg_pick_single_first sc rk par s z version :
  rank_lt (Fin z) rk ->
  (forall k q, exists u, sc k (Fin q) = Util u) ->
  fst (psg_pick sc rk par [(s, Fin z, version)] (None, NegInf)) = Some s.
Proof.
  intros Hlt Hsc. apply rank_geb_false in Hlt. cbn [psg_pick]. rewrite Hlt.
  destruct (Hsc s z) as [u ->].
  destruct (decide (Some s = par)); reflexivity.
Qed.

Lemma score_of_finite e c k q : exists u, score_of e c k (Fin q) = Util u.
Proof. unfold score_of, parent_score. eauto. Qed.

Lemma handle_dio_attacker_eq (e : Env) (c : Ctx) (pkt : Packet) (s : nat)
    (rank : Rank) (version : Z) :
  data pkt = PayloadDio rank version ->
  is_attacker_type (self c) = Some "rpl_rank"%string ->
  exists c',
    handle_dio pkt s e c = Some (tt, c')
    /\ rpl_parent_id (self c') = rpl_parent_id (self c)
    /\ rpl_rank (self c') = rpl_rank (self c)
    /\ erase_energy (STATS c') = erase_energy (STATS c)
    /\ spawned c' = spawned c
    /\ lia_data (self c') !! s = Some (dio_entry e c s rank)
    /\ (forall k, k <> s -> lia_data (self c') !! k = lia_data (self c) !! k).
Proof.
  intros Hd Hatt. exists (dio_updated e c s rank).
  pose proof (dio_updated_frame e c s rank) as (Hc & Hs & Hsp).
  split.
  - unfold handle_dio. rewrite Hd. unfold bind at 1.
    rewrite lia_update_psg_from_dio_run. unfold bind, get_self, ret.
    rewrite (core_attacker _ _ Hc). now rewrite decide_True by assumption.
  - split; [exact (core_rpl_parent_id _ _ Hc)|].
    split; [exact (core_rpl_rank _ _ Hc)|].
    split; [exact Hs|]. split; [exact Hsp|].
    unfold dio_updated. simpl. rewrite consumed_lia_data.
    split; [apply lookup_insert_eq|].
    intros k Hk. now rewrite lookup_insert_ne by congruence.
Qed.

(** X1.  A rank attacker only learns from a DIO: its parent, its rank and
    every statistic but the energy snapshot stay as they are, nothing is
    transmitted, and the sender's LIA entry alone is rewritten. *)
Theorem handle_dio_rank_attacker (e : Env) (c : Ctx) (pkt : Packet) (s : nat)
    (rank : Rank) (version : Z) :
  data pkt = PayloadDio rank version ->
  is_attacker_type (self c) = Some "rpl_rank"%string ->
  exists c',
    handle_dio pkt s e c = Some (tt, c')
    /\ rpl_parent_id (self c') = rpl_parent_id (self c)
    /\ rpl_rank (self c') = rpl_rank (self c)
    /\ erase_energy (STATS c') = erase_energy (STATS c)
    /\ spawned c' = spawned c
    /\ lia_data (self c') !! s = Some (dio_entry e c s rank)
    /\ (forall k, k <> s -> lia_data (self c') !! k = lia_data (self c) !! k).
Proof. apply handle_dio_attacker_eq. Qed.

Lemma handle_dio_rank_attacker_witness :
  let e := env_of 30 [new_node 1 None [2%nat]] in
  let c := ctx_of (new_node 2 (Some "rpl_rank"%string) [1%nat]) in
  exists c',
    handle_dio (dio_of 1 (Fin 1) 30) 1 e c = Some (tt, c')
    /\ rpl_parent_id (self c') = None
    /\ rpl_rank (self c') = Inf
    /\ lia_data (self c') !! 1%nat = Some (dio_entry e c 1 (Fin 1)).
Proof.
  intros e c.
  destruct (handle_dio_rank_attacker e c (dio_of 1 (Fin 1) 30) 1 (Fin 1) 0)
    as (c' & Hrun & Hp & Hr & _ & _ & Hl & _).
  - reflexivity.
  - reflexivity.
  - exists c'. split; [exact Hrun|]. split; [exact Hp|]. split; [exact Hr|exact Hl].
Defined.

(** X2.  A DIO whose advertised rank is not below the node's rank, from a
    sender that is not the node's parent, changes neither the parent nor
    the rank and records no parent change. *)
Theorem handle_dio_higher_rank_ignored (e : Env) (c : Ctx) (pkt : Packet)
    (s : nat) (rank : Rank) (version : Z) :
  data pkt = PayloadDio rank version ->
  parent_known e c ->
  rank_geb rank (rpl_rank (self c)) = true ->
  rpl_parent_id (self c) <> Some s ->
  exists c',
    handle_dio pkt s e c = Some (tt, c')
    /\ rpl_parent_id (self c') = rpl_parent_id (self c)
    /\ rpl_rank (self c') = rpl_rank (self c)
    /\ parent_changes (STATS c') (id (self c)) = parent_changes (STATS c) (id (self c)).
Proof.
  intros Hd Hk Hge Hne.
  destruct (decide (is_attacker_type (self c) = Some "rpl_rank"%string)) as [Ha|Ha].
  - destruct (handle_dio_attacker_eq e c pkt s rank version Hd Ha)
      as (c' & Hrun & Hp & Hr & Hs & _).
    exists c'. split; [exact Hrun|]. split; [exact Hp|]. split; [exact Hr|].
    unfold parent_changes.
    now rewrite (f_equal rpl_parent_changes Hs : rpl_parent_changes (STATS c') = _).
  - pose proof (dio_updated_frame e c s rank) as Hf1.
    destruct (psg_start_known e _ (parent_known_frame _ _ _ Hf1 Hk))
      as (acc & Hstart & Hacc).
    rewrite (core_rpl_parent_id _ _ (frame_core _ _ Hf1)),
      (core_neighbors _ _ (frame_core _ _ Hf1)) in Hacc.
    destruct (handle_dio_eq e c pkt s rank version acc Hd Ha Hstart)
      as (c' & Hrun & Hp & Hr & Hpc & _).
    rewrite psg_pick_single_skip in Hp, Hr, Hpc by assumption.
    assert (Hbest : fst acc <> Some s /\ ~ (fst acc ≠ rpl_parent_id (self c)
                                            ∧ fst acc ≠ None)).
    { destruct Hacc as [Hn|[Hpar _]]; rewrite ?Hn, ?Hpar; split; try congruence; tauto. }
    destruct Hbest as [Hb1 Hb2].
    rewrite truthy_and_eq_other in Hp, Hr, Hpc by assumption.
    rewrite decide_False in Hpc by assumption.
    exists c'. now repeat split.
Qed.

Lemma handle_dio_higher_rank_ignored_witness :
  let e := env_of 30 [new_node 1 None [2%nat]; new_node 3 None [2%nat]] in
  let c := ctx_of (with_parent (new_node 2 None [1%nat; 3%nat]) 1 (Fin 2)) in
  exists c',
    handle_dio (dio_of 3 (Fin 2) 30) 3 e c = Some (tt, c')
    /\ rpl_parent_id (self c') = Some 1%nat
    /\ rpl_rank (self c') = Fin 2.
Proof.
  intros e c.
  destruct (handle_dio_higher_rank_ignored e c (dio_of 3 (Fin 2) 30) 3 (Fin 2) 0)
    as (c' & Hrun & Hp & Hr & _).
  - reflexivity.
  - intros pid Hpid Hin. injection Hpid as <-. vm_compute. eauto.
  - reflexivity.
  - discriminate.
  - exists c'. split; [exact Hrun|]. split; [exact Hp|exact Hr].
Defined.

(** X3.  A DIO from the node of id 0 is never adopted, since the id is
    falsy: the parent and the rank stay as they are.  For a node without a
    parent whose rank is above the advertised one, the selection has
    nevertheless recorded a parent change. *)
Theorem handle_dio_from_node_zero (e : Env) (c : Ctx) (pkt : Packet)
    (rank : Rank) (version : Z) :
  data pkt = PayloadDio rank version ->
  parent_known e c ->
  exists c',
    handle_dio pkt 0 e c = Some (tt, c')
    /\ rpl_parent_id (self c') = rpl_parent_id (self c)
    /\ rpl_rank (self c') = rpl_rank (self c)
    /\ (is_attacker_type (self c) <> Some "rpl_rank"%string ->
        rpl_parent_id (self c) = None ->
        rank_lt rank (rpl_rank (self c)) ->
        parent_changes (STATS c') (id (self c))
        = S (parent_changes (STATS c) (id (self c)))).
Proof.
  intros Hd Hk.
  destruct (decide (is_attacker_type (self c) = Some "rpl_rank"%string)) as [Ha|Ha].
  - destruct (handle_dio_attacker_eq e c pkt 0 rank version Hd Ha)
      as (c' & Hrun & Hp & Hr & _).
    exists c'. split; [exact Hrun|]. split; [exact Hp|]. split; [exact Hr|].
    intros Hna. contradiction.
  - pose proof (dio_updated_frame e c 0 rank) as Hf1.
    destruct (psg_start_known e _ (parent_known_frame _ _ _ Hf1 Hk))
      as (acc & Hstart & _).
    destruct (handle_dio_eq e c pkt 0 rank version acc Hd Ha Hstart)
      as (c' & Hrun & Hp & Hr & Hpc & _).
    rewrite truthy_and_eq_zero in Hp, Hr, Hpc.
    exists c'. split; [exact Hrun|]. split; [exact Hp|]. split; [exact Hr|].
    intros _ Hnone Hlt. rewrite Hpc.
    unfold psg_start in Hstart.
    rewrite (core_rpl_parent_id _ _ (frame_core _ _ Hf1)), Hnone in Hstart.
    injection Hstart as <-.
    destruct rank as [z|]; [|destruct (rpl_rank (self c)); contradiction].
    rewrite Hnone.
    rewrite (psg_pick_single_first _ _ _ _ _ _ Hlt (score_of_finite e _)).
    rewrite decide_True by (split; congruence). reflexivity.
Qed.

Lemma handle_dio_from_node_zero_witness :
  let e := env_of 30 [new_node 0 None [2%nat]] in
  let c := ctx_of (new_node 2 None [0%nat]) in
  exists c',
    handle_dio (dio_of 0 (Fin 0) 30) 0 e c = Some (tt, c')
    /\ rpl_parent_id (self c') = None
    /\ rpl_rank (self c') = Inf
    /\ parent_changes (STATS c') 2 = 1%nat.
Proof.
  intros e c.
  destruct (handle_dio_from_node_zero e c (dio_of 0 (Fin 0) 30) (Fin 0) 0)
    as (c' & Hrun & Hp & Hr & Hpc).
  - reflexivity.
  - intros pid Hpid. discriminate Hpid.
  - exists c'. split; [exact Hrun|]. split; [exact Hp|]. split; [exact Hr|].
    apply Hpc; [discriminate|reflexivity|exact I].
Defined.

Lemma _receive_message_dio e c pkt s :
  alive (self c) = true ->
  p_type pkt = "DIO"%string ->
  _receive_message pkt s e c
  = match handle_dio pkt s e (consumed "rx_ctrl" None c) with
    | Some (_, c') => Some (None, c')
    | None => None
    end.
Proof.
  intros Ha Ht. unfold _receive_message, bind, get_self, ret.
  rewrite Ha. cbn [negb]. rewrite consume_energy_eq.
  unfold rx_cost. rewrite Ht. simpl.
  destruct (handle_dio pkt s e (consumed "rx_ctrl" None c)) as [[[] c']|];
    reflexivity.
Qed.

Lemma psg_start_no_parent e c :
  rpl_parent_id (self c) = None -> psg_start e c = Some (None, NegInf).
Proof. intros H. unfold psg_start. now rewrite H. Qed.

(** X4.  A live node without a parent that is no rank attacker and
    receives a DIO from a sender of non-zero id advertising a finite rank
    below its own takes the sender as parent and the advertised rank plus
    one as rank, even if the reception spends its last energy. *)
Theorem receive_dio_adopts_first_parent (e : Env) (c : Ctx) (pkt : Packet)
    (s : nat) (z : Z) (version : Z) :
  alive (self c) = true ->
  p_type pkt = "DIO"%string ->
  data pkt = PayloadDio (Fin z) version ->
  is_attacker_type (self c) <> Some "rpl_rank"%string ->
  rpl_parent_id (self c) = None ->
  s <> 0%nat ->
  rank_lt (Fin z) (rpl_rank (self c)) ->
  exists c',
    _receive_message pkt s e c = Some (None, c')
    /\ rpl_parent_id (self c') = Some s
    /\ rpl_rank (self c') = Fin (z + 1).
Proof.
  intros Ha Ht Hd Hatt Hpar Hs Hlt.
  rewrite _receive_message_dio by assumption.
  set (c0 := consumed "rx_ctrl" None c).
  pose proof (frame_core _ _ (consumed_frame "rx_ctrl" None c)) as Hc0.
  fold c0 in Hc0.
  pose proof (dio_updated_frame e c0 s (Fin z)) as Hf1.
  assert (Hstart : psg_start e (dio_updated e c0 s (Fin z)) = Some (None, NegInf)).
  { apply psg_start_no_parent.
    now rewrite (core_rpl_parent_id _ _ (frame_core _ _ Hf1)),
      (core_rpl_parent_id _ _ Hc0). }
  destruct (handle_dio_eq e c0 pkt s (Fin z) version _ Hd
              ltac:(rewrite (core_attacker _ _ Hc0); exact Hatt) Hstart)
    as (c' & Hrun & Hp & Hr & _).
  rewrite (core_rpl_rank _ _ Hc0) in Hp, Hr.
  rewrite (psg_pick_single_first _ _ _ _ _ _ Hlt (score_of_finite e _)) in Hp, Hr.
  rewrite truthy_and_eq_same in Hp, Hr by assumption.
  rewrite Hrun. exists c'. split; [reflexivity|]. split; [exact Hp|exact Hr].
Qed.

Lemma receive_dio_adopts_first_parent_witness :
  let e := env_of 30 [new_node 1 None [2%nat]] in
  let c := ctx_of (with_energy (new_node 2 None [1%nat]) 0.005) in
  exists c',
    _receive_message (dio_of 1 (Fin 1) 30) 1 e c = Some (None, c')
    /\ rpl_parent_id (self c') = Some 1%nat
    /\ rpl_rank (self c') = Fin (1 + 1).
Proof.
  intros e c.
  apply (receive_dio_adopts_first_parent e c (dio_of 1 (Fin 1) 30) 1 1 0).
  - reflexivity.
  - reflexivity.
  - reflexivity.
  - discriminate.
  - reflexivity.
  - discriminate.
  - exact I.
Defined.

(** X5.  Whatever the rounding of the float operations: with a current
    parent among the neighbours, a different candidate of lower
    advertised rank replaces it exactly when its score less the
    switching penalty of 2 is strictly greater than the score of the
    parent at the parent's present rank; otherwise the parent is
    returned. *)
Theorem sdu_psg_select_parent_switch {R : Rounding} (e : Env) (c : Ctx) (s : nat)
    (rank : Rank) (version : Z) (pid : nat) (current_parent_node : IoTNode) :
  rpl_parent_id (self c) = Some pid ->
  pid ∈ neighbors (self c) ->
  peers e !! pid = Some current_parent_node ->
  s <> pid ->
  rank_lt rank (rpl_rank (self c)) ->
  exists c',
    sdu_psg_select_parent [(s, rank, version)] e c
    = Some (if util_gtb (util_add (score_of e c s rank) (-2))
                        (score_of e c pid (rpl_rank current_parent_node))
            then Some s else Some pid, c').
Proof.
  intros Hpar Hin Hpn Hne Hlt.
  assert (Hstart : psg_start e c
                   = Some (Some pid, score_of e c pid (rpl_rank current_parent_node))).
  { unfold psg_start. rewrite Hpar, decide_True by assumption. now rewrite Hpn. }
  destruct (sdu_psg_select_parent_eq e c (s, rank, version) [] _ Hstart)
    as (c' & Hrun & _).
  exists c'. rewrite Hrun. f_equal. f_equal.
  apply rank_geb_false in Hlt. cbn [psg_pick]. rewrite Hlt, Hpar.
  rewrite decide_False by congruence. cbn [snd].
  change PSG_CHANGE_PENALTY with (-2).
  destruct (util_gtb _ _); reflexivity.
Qed.

Lemma sdu_psg_select_parent_switch_witness :
  let e := env_of 30 [with_parent (new_node 1 None [2%nat]) 0 (Fin 5);
                      new_node 3 None [2%nat]] in
  let c := ctx_of (with_parent (new_node 2 None [1%nat; 3%nat]) 1 (Fin 6)) in
  exists c',
    sdu_psg_select_parent (R := binary64) [(3%nat, Fin 1, 0%Z)] e c
    = Some (Some 3%nat, c').
Proof.
  intros e c.
  destruct (sdu_psg_select_parent_switch (R := binary64) e c 3 (Fin 1) 0 1
              (with_parent (new_node 1 None [2%nat]) 0 (Fin 5)))
    as (c' & Hrun).
  - reflexivity.
  - apply list_elem_of_here.
  - reflexivity.
  - discriminate.
  - simpl. lia.
  - exists c'. exact Hrun.
Defined.

(** In exact arithmetic the two scores of the sample above are equal,
    and the parent is kept. *)
Remark sdu_psg_select_parent_exact_tie :
  let e := env_of 30 [with_parent (new_node 1 None [2%nat]) 0 (Fin 5);
                      new_node 3 None [2%nat]] in
  let c := ctx_of (with_parent (new_node 2 None [1%nat; 3%nat]) 1 (Fin 6)) in
  fst <$> sdu_psg_select_parent (R := exact_arithmetic) [(3%nat, Fin 1, 0%Z)] e c
  = Some (Some 1%nat).
Proof. vm_compute. reflexivity. Qed.

(** X6.  [sdu_psg_select_parent] records nothing on an empty list, where
    it returns [None] after the decision charge.  On a non-empty list it
    adds one to exactly one choice tally of the node: the one of the
    returned id when that id is not 0, and the one of ['None'] when it
    returns [None] or the id 0.  It records a parent change exactly when
    it returns a parent that differs from the current one. *)
Theorem sdu_psg_select_parent_tallies {R : Rounding} (e : Env) (c : Ctx) :
  parent_known e c ->
  (sdu_psg_select_parent [] e c = Some (None, consumed "sdu" None c)
   /\ sdu_psg_choices (STATS (consumed "sdu" None c)) = sdu_psg_choices (STATS c)
   /\ rpl_parent_changes (STATS (consumed "sdu" None c))
      = rpl_parent_changes (STATS c))
  /\ (forall x l, exists best c',
        let key : nat + string :=
          match best with
          | Some (S n) => inl (S n)
          | Some O | None => inr "None"%string
          end in
        sdu_psg_select_parent (x :: l) e c = Some (best, c')
        /\ tally (sdu_psg_choices (STATS c')) (id (self c)) key
           = S (tally (sdu_psg_choices (STATS c)) (id (self c)) key)
        /\ (forall j k, (j, k) <> (id (self c), key) ->
              tally (sdu_psg_choices (STATS c')) j k
              = tally (sdu_psg_choices (STATS c)) j k)
        /\ parent_changes (STATS c') (id (self c))
           = ((if decide (best ≠ rpl_parent_id (self c) ∧ best ≠ None)
               then 1 else 0)
              + parent_changes (STATS c) (id (self c)))%nat).
Proof.
  intros Hk. split.
  - destruct (consumed_frame "sdu" None c) as (_ & Hs & _).
    split; [|split].
    + unfold sdu_psg_select_parent, bind. now rewrite consume_energy_eq.
    + exact (f_equal sdu_psg_choices Hs).
    + exact (f_equal rpl_parent_changes Hs).
  - intros x l. destruct (psg_start_known e c Hk) as (acc & Hstart & _).
    destruct (sdu_psg_select_parent_eq e c x l acc Hstart)
      as (c' & Hrun & _ & _ & _ & Hs).
    eexists _, c'. intros key. split; [exact Hrun|].
    set (best := fst (psg_pick _ _ _ _ _)) in *.
    assert (Hkey : id_or best "None" = key).
    { unfold key, id_or. destruct best as [[|n]|]; reflexivity. }
    pose proof (f_equal sdu_psg_choices Hs) as Hch.
    pose proof (f_equal rpl_parent_changes Hs) as Hpc.
    unfold psg_stats in Hch, Hpc. simpl in Hch, Hpc.
    assert (Hsame : sdu_psg_choices
                      (if decide (best ≠ rpl_parent_id (self c) ∧ best ≠ None)
                       then set_rpl_parent_changes (STATS c)
                              (incr (id (self c)) (rpl_parent_changes (STATS c)))
                       else STATS c) = sdu_psg_choices (STATS c))
      by (destruct (decide _); reflexivity).
    rewrite Hsame, Hkey in Hch. rewrite Hch.
    split; [apply tally_incr2_same|].
    split; [intros j k Hne; now apply tally_incr2_other|].
    unfold parent_changes. rewrite Hpc.
    destruct (decide _); simpl; [|reflexivity].
    unfold incr. now rewrite lookup_insert_eq.
Qed.

Lemma sdu_psg_select_parent_tallies_witness :
  let e := env_of 30 [new_node 0 None [2%nat]] in
  let c := ctx_of (new_node 2 None [0%nat]) in
  exists c',
    sdu_psg_select_parent [(0%nat, Fin 0, 0%Z)] e c = Some (Some 0%nat, c')
    /\ tally (sdu_psg_choices (STATS c')) 2 (inr "None"%string) = 1%nat
    /\ tally (sdu_psg_choices (STATS c')) 2 (inl 0%nat) = 0%nat.
Proof.
  intros e c.
  destruct (sdu_psg_select_parent_tallies e c) as [_ Hcons].
  - intros pid Hpid. discriminate Hpid.
  - destruct (Hcons (0%nat, Fin 0, 0%Z) []) as (best & c' & Hrun & Ht & Hother & _).
    assert (Hbest : best = Some 0%nat).
    { assert (Hv : fst <$> sdu_psg_select_parent [(0%nat, Fin 0, 0%Z)] e c
                   = Some (Some 0%nat)) by (vm_compute; reflexivity).
      rewrite Hrun in Hv. now injection Hv. }
    subst best. exists c'. split; [exact Hrun|]. split.
    + exact Ht.
    + apply (Hother 2%nat (inl 0%nat)). discriminate.
Defined.

(** ** Accurate roundings *)

Lemma accurate_exact : accurate exact_arithmetic.
Proof. intros x _. unfold fl, exact_arithmetic. split; lra. Qed.

Lemma div_rne_spec n d :
  (0 < d)%Z -> (- d <= 2 * (div_rne n d * d - n) <= d)%Z.
Proof.
  intros Hd. unfold div_rne.
  pose proof (Z.div_mod n d ltac:(lia)) as Hdm.
  pose proof (Z.mod_pos_bound n d Hd) as Hm.
  destruct (Z.compare_spec (2 * (n mod d)) d) as [He|Hl|Hg].
  - destruct (Z.even (n / d)); nia.
  - nia.
  - nia.
Qed.

Lemma ilog2_le n d : (ilog2 n d <= Z.log2 n - Z.log2 d)%Z.
Proof.
  unfold ilog2. destruct (0 <=? _)%Z; [destruct (_ <? _)%Z|destruct (_ <? _)%Z]; lia.
Qed.

Lemma round64_shift (a d : Z) :
  (0 < a)%Z -> (0 < d)%Z -> (a <= 16 * d)%Z ->
  (Z.max (ilog2 a d - 52) (-1074) <= -48)%Z.
Proof.
  intros Ha Hd Hle. pose proof (ilog2_le a d) as Hi.
  assert (Z.log2 a <= Z.log2 d + 4)%Z.
  { transitivity (Z.log2 (16 * d)); [now apply Z.log2_le_mono|].
    replace (16 * d)%Z with (d * 2 ^ 4)%Z by lia.
    rewrite Z.log2_mul_pow2 by lia. lia. }
  lia.
Qed.

Lemma round_pos_accurate (p den : positive) :
  (Zpos p <= 16 * Zpos den)%Z ->
  let s := Z.max (ilog2 (Zpos p) (Zpos den) - 52) (-1074) in
  let r := Qred (div_rne (Zpos p * 2 ^ (- s)) (Zpos den) # Z.to_pos (2 ^ (- s))) in
  (Zpos p # den) - (1 # 1000000000) <= r <= (Zpos p # den) + (1 # 1000000000).
Proof.
  intros Hle s r.
  assert (Hs : (s <= -48)%Z) by (apply round64_shift; lia).
  set (P := (2 ^ (- s))%Z) in *.
  assert (HP : (2 ^ 48 <= P)%Z) by (apply Z.pow_le_mono_r; lia).
  assert (HP0 : (0 < P)%Z) by lia.
  pose proof (div_rne_spec (Zpos p * P) (Zpos den) ltac:(lia)) as Hm.
  set (m := div_rne (Zpos p * P) (Zpos den)) in *.
  assert (Hr : r == m # Z.to_pos P) by apply Qred_correct.
  rewrite Hr. unfold Qminus. unfold Qle, Qplus, Qopp. cbn [Qnum Qden Z.opp].
  rewrite !Pos2Z.inj_mul, Z2Pos.id by exact HP0.
  change (2 ^ 48)%Z with 281474976710656%Z in HP.
  split; nia.
Qed.

Lemma accurate_binary64 : accurate binary64.
Proof.
  intros [n den] [Hlo Hhi]. unfold fl, binary64, round64. cbn [Qnum Qden].
  destruct n as [|p|p].
  - cbn. unfold Qle; simpl; lia.
  - assert (Hle : (Zpos p <= 16 * Zpos den)%Z) by (unfold Qle in Hhi; simpl in Hhi; lia).
    pose proof (round_pos_accurate p den Hle) as Hr. cbv zeta in Hr.
    pose proof (round64_shift (Zpos p) (Zpos den) ltac:(lia) ltac:(lia) Hle) as Hs.
    change (Z.abs (Zpos p)) with (Zpos p).
    change (Zpos p =? 0)%Z with false. change (Zpos p <? 0)%Z with false.
    cbv zeta. cbn match.
    destruct (Z.leb_spec 0 (Z.max (ilog2 (Zpos p) (Zpos den) - 52) (-1074)));
      [lia|].
    exact Hr.
  - assert (Hle : (Zpos p <= 16 * Zpos den)%Z) by (unfold Qle in Hlo; simpl in Hlo; lia).
    pose proof (round_pos_accurate p den Hle) as Hr. cbv zeta in Hr.
    pose proof (round64_shift (Zpos p) (Zpos den) ltac:(lia) ltac:(lia) Hle) as Hs.
    change (Z.abs (Zneg p)) with (Zpos p).
    change (Zneg p =? 0)%Z with false. change (Zneg p <? 0)%Z with true.
    cbv zeta. cbn match.
    destruct (Z.leb_spec 0 (Z.max (ilog2 (Zpos p) (Zpos den) - 52) (-1074)));
      [lia|].
    change (Zneg p # den) with (- (Zpos p # den)).
    destruct Hr as [Hr1 Hr2]. split; lra.
Qed.

(** What an accurate rounding leaves of the cooperation estimate and of
    the expected utility. *)
Section Accurate.

Context {R : Rounding}.
Hypothesis Hacc : accurate R.

Lemma fl_between x lo hi :
  -16 <= lo -> hi <= 16 -> lo <= x <= hi ->
  lo - (1 # 1000000000) <= fl x <= hi + (1 # 1000000000).
Proof.
  intros Hlo Hhi [H1 H2].
  destruct (Hacc x) as [A B]; [split; lra|]. split; lra.
Qed.

Lemma PFG_HOLD_accurate : -0.1001 <= PFG_HOLD <= -0.0999.
Proof.
  unfold PFG_HOLD.
  destruct (fl_between (-0.1) (-0.1) (-0.1)) as [A B]; [lra|lra|split; lra|].
  split; lra.
Qed.

Lemma eu_send_accurate p lo hi :
  0 <= lo -> hi <= 1 -> lo <= p <= hi ->
  15 * lo - 11 - 0.0001 <= eu_send p <= 15 * hi - 11 + 0.0001.
Proof.
  intros Hlo Hhi [H1 H2].
  unfold eu_send, PFG_SEND_COOPERATE, PFG_SEND_DEFECT.
  destruct (fl_between (p * 4) (4 * lo) (4 * hi)) as [A1 A2];
    [lra|lra|split; lra|].
  destruct (fl_between (1 - p) (1 - hi) (1 - lo)) as [B1 B2];
    [lra|lra|split; lra|].
  set (a := fl (p * 4)) in *. set (b := fl (1 - p)) in *.
  destruct (fl_between (b * -11) (-11 * (1 - lo) - 0.00001) (-11 * (1 - hi) + 0.00001))
    as [C1 C2]; [lra|lra|split; lra|].
  set (c := fl (b * -11)) in *.
  destruct (fl_between (a + c) (15 * lo - 11 - 0.00002) (15 * hi - 11 + 0.00002))
    as [D1 D2]; [lra|lra|split; lra|].
  split; lra.
Qed.

Lemma p_cooperate_prior_accurate x :
  pfg_coop_count x = 0%nat -> pfg_defect_count x = 0%nat ->
  0.4999 <= p_cooperate x <= 0.5001.
Proof.
  intros H1 H2. unfold p_cooperate. rewrite H1, H2. cbn [Nat.add Nat.eqb].
  destruct (fl_between 0.5 0.5 0.5) as [A B]; [lra|lra|split; lra|].
  split; lra.
Qed.

Lemma p_cooperate_defect_accurate x :
  (pfg_coop_count x + pfg_defect_count x)%nat <> 0%nat ->
  pfg_last_outcome x = Some "Defect"%string ->
  0 <= p_cooperate x <= 0.3001.
Proof.
  intros Hne Hlast. pose proof (coop_ratio_bounds x Hne) as [Hlo Hhi].
  unfold p_cooperate. rewrite Hlast.
  destruct (Nat.eqb_spec (pfg_coop_count x + pfg_defect_count x) 0);
    [contradiction|].
  cbn [String.eqb Ascii.eqb Bool.eqb]. cbv zeta. fold (coop_ratio x).
  destruct (fl_between (coop_ratio x) 0 1) as [A1 A2]; [lra|lra|split; lra|].
  set (r := fl (coop_ratio x)) in *.
  destruct (fl_between 0.3 0.3 0.3) as [B1 B2]; [lra|lra|split; lra|].
  set (c03 := fl 0.3) in *.
  destruct (fl_between 0.01 0.01 0.01) as [C1 C2]; [lra|lra|split; lra|].
  set (c01 := fl 0.01) in *.
  destruct (fl_between 0.99 0.99 0.99) as [D1 D2]; [lra|lra|split; lra|].
  set (c99 := fl 0.99) in *.
  assert (Hp : -0.0001 <= r * c03 <= 0.30001) by (split; nra).
  destruct (fl_between (r * c03) (-0.0001) 0.30001) as [E1 E2];
    [lra|lra|exact Hp|].
  set (t := fl (r * c03)) in *.
  unfold clip. q_minmax; split; lra.
Qed.

Lemma p_cooperate_cooperate_accurate x :
  (pfg_coop_count x + pfg_defect_count x)%nat <> 0%nat ->
  pfg_last_outcome x = Some "Cooperate"%string ->
  0 <= p_cooperate x <= 1
  /\ (0.48 <= coop_ratio x -> 0.7279 <= p_cooperate x)
  /\ (coop_ratio x <= 0.47 -> p_cooperate x <= 0.7171).
Proof.
  intros Hne Hlast. pose proof (coop_ratio_bounds x Hne) as [Hlo Hhi].
  unfold p_cooperate. rewrite Hlast.
  destruct (Nat.eqb_spec (pfg_coop_count x + pfg_defect_count x) 0);
    [contradiction|].
  cbn [String.eqb Ascii.eqb Bool.eqb]. cbv zeta. fold (coop_ratio x).
  destruct (fl_between (coop_ratio x) (coop_ratio x) (coop_ratio x)) as [A1 A2];
    [lra|lra|split; lra|].
  set (r := fl (coop_ratio x)) in *.
  destruct (fl_between 1.1 1.1 1.1) as [B1 B2]; [lra|lra|split; lra|].
  set (c11 := fl 1.1) in *.
  destruct (fl_between 0.2 0.2 0.2) as [F1 F2]; [lra|lra|split; lra|].
  set (c02 := fl 0.2) in *.
  destruct (fl_between 0.01 0.01 0.01) as [C1 C2]; [lra|lra|split; lra|].
  set (c01 := fl 0.01) in *.
  destruct (fl_between 0.99 0.99 0.99) as [D1 D2]; [lra|lra|split; lra|].
  set (c99 := fl 0.99) in *.
  assert (Hp : 1.1 * coop_ratio x - 0.00001 <= r * c11
               <= 1.1 * coop_ratio x + 0.00001) by (split; nra).
  destruct (fl_between (r * c11) (1.1 * coop_ratio x - 0.00001)
              (1.1 * coop_ratio x + 0.00001)) as [E1 E2]; [lra|lra|exact Hp|].
  set (t := fl (r * c11)) in *.
  destruct (fl_between (t + c02) (1.1 * coop_ratio x + 0.2 - 0.00002)
              (1.1 * coop_ratio x + 0.2 + 0.00002)) as [G1 G2];
    [lra|lra|split; lra|].
  set (y := fl (t + c02)) in *.
  unfold clip. q_minmax; (split; [split; lra|split; intros; lra]).
Qed.

End Accurate.

(** ** The forwarding game *)

Lemma eu_send_margins {R : Rounding} (x : LiaEntry) :
  accurate R ->
  -0.1001 <= PFG_HOLD <= -0.0999
  /\ (pfg_coop_count x = 0%nat -> pfg_defect_count x = 0%nat ->
      -3.51 <= eu_send (p_cooperate x) <= -3.49)
  /\ ((pfg_coop_count x + pfg_defect_count x)%nat <> 0%nat ->
      pfg_last_outcome x = Some "Defect"%string ->
      eu_send (p_cooperate x) <= -6.49)
  /\ ((pfg_coop_count x + pfg_defect_count x)%nat <> 0%nat ->
      pfg_last_outcome x = Some "Cooperate"%string ->
      (0.48 <= coop_ratio x -> -0.09 <= eu_send (p_cooperate x))
      /\ (coop_ratio x <= 0.47 -> eu_send (p_cooperate x) <= -0.24)).
Proof.
  intros Hacc. split; [now apply PFG_HOLD_accurate|]. split; [|split].
  - intros H1 H2.
    pose proof (p_cooperate_prior_accurate Hacc x H1 H2) as [Hlo Hhi].
    destruct (eu_send_accurate Hacc (p_cooperate x) 0.4999 0.5001) as [A B];
      [lra|lra|split; assumption|].
    split; lra.
  - intros Hne Hd.
    pose proof (p_cooperate_defect_accurate Hacc x Hne Hd) as [Hlo Hhi].
    destruct (eu_send_accurate Hacc (p_cooperate x) 0 0.3001) as [A B];
      [lra|lra|split; assumption|].
    lra.
  - intros Hne Hc.
    pose proof (p_cooperate_cooperate_accurate Hacc x Hne Hc)
      as ([Hlo Hhi] & Hup & Hdown).
    split.
    + intros Hr. specialize (Hup Hr).
      destruct (eu_send_accurate Hacc (p_cooperate x) 0.7279 1) as [A B];
        [lra|lra|split; assumption|].
      lra.
    + intros Hr. specialize (Hdown Hr).
      destruct (eu_send_accurate Hacc (p_cooperate x) 0 0.7171) as [A B];
        [lra|lra|split; assumption|].
      lra.
Qed.

(** X7.  Which neighbours are eligible as forwarders, under any accurate
    rounding (binary64 is one).  The hold payoff is within 0.0001 of
    -0.1.  The expected utility of sending is about -3.5 for a neighbour
    without observations and at most -6.49 for one whose last outcome is
    a Defect, both below the hold payoff.  For one whose last outcome is
    a Cooperate it is at least -0.09, above the hold payoff, when the
    cooperate ratio is at least 0.48, and at most -0.24, below it, when
    the ratio is at most 0.47; between the two ratios the rounding
    decides. *)
Theorem eu_send_eligibility {R : Rounding} (x : LiaEntry) :
  accurate R ->
  -0.1001 <= PFG_HOLD <= -0.0999
  /\ (pfg_coop_count x = 0%nat -> pfg_defect_count x = 0%nat ->
      -3.51 <= eu_send (p_cooperate x) <= -3.49)
  /\ ((pfg_coop_count x + pfg_defect_count x)%nat <> 0%nat ->
      pfg_last_outcome x = Some "Defect"%string ->
      eu_send (p_cooperate x) <= -6.49)
  /\ ((pfg_coop_count x + pfg_defect_count x)%nat <> 0%nat ->
      pfg_last_outcome x = Some "Cooperate"%string ->
      (0.48 <= coop_ratio x -> -0.09 <= eu_send (p_cooperate x))
      /\ (coop_ratio x <= 0.47 -> eu_send (p_cooperate x) <= -0.24)).
Proof. apply eu_send_margins. Qed.

Lemma eu_send_eligibility_witness :
  let x := entry_of (env_of 30 [])
             (ctx_of (with_observations (new_node 2 None [3%nat])
                        3 12 13 "Cooperate")) 3 in
  -0.09 <= eu_send (R := binary64) (p_cooperate (R := binary64) x).
Proof.
  intros x.
  destruct (eu_send_eligibility (R := binary64) x accurate_binary64)
    as (_ & _ & _ & Hc).
  apply Hc.
  - vm_compute. discriminate.
  - reflexivity.
  - vm_compute. discriminate.
Defined.

Lemma eu_send_not_trusted {R : Rounding} x :
  accurate R ->
  (pfg_coop_count x = 0%nat /\ pfg_defect_count x = 0%nat)
  \/ ((pfg_coop_count x + pfg_defect_count x)%nat <> 0%nat
      /\ pfg_last_outcome x = Some "Defect"%string) ->
  eu_send (p_cooperate x) <= PFG_HOLD.
Proof.
  intros Hacc Hx.
  destruct (eu_send_margins x Hacc) as ([Hh1 Hh2] & Hzero & Hdef & _).
  destruct Hx as [[H1 H2]|[Hne Hd]].
  - destruct (Hzero H1 H2). lra.
  - specialize (Hdef Hne Hd). lra.
Qed.

(** X8.  Under any accurate rounding (binary64 is one), a node that is
    not the destination and has, for each of its neighbours, either no
    observation or a Defect as the last outcome drops every DATA packet:
    the result is [False], one selfish drop is recorded and nothing is
    transmitted. *)
Theorem handle_data_packet_without_trust {R : Rounding} (e : Env) (c : Ctx)
    (packet : Packet) (sender_id : nat) :
  accurate R ->
  DestNode (id (self c)) <> dest_id packet ->
  (forall k, k ∈ neighbors (self c) ->
     (pfg_coop_count (entry_of e c k) = 0%nat
      /\ pfg_defect_count (entry_of e c k) = 0%nat)
     \/ ((pfg_coop_count (entry_of e c k)
          + pfg_defect_count (entry_of e c k))%nat <> 0%nat
         /\ pfg_last_outcome (entry_of e c k) = Some "Defect"%string)) ->
  exists c',
    handle_data_packet packet sender_id e c = Some (false, c')
    /\ packets_dropped_selfish (STATS c') = S (packets_dropped_selfish (STATS c))
    /\ spawned c' = spawned c.
Proof.
  intros Hacc Hne Hobs. rewrite handle_data_packet_candidates by assumption.
  destruct (neighbors (self c)) as [|x l] eqn:Hnb.
  - unfold bind. rewrite sdu_pfg_select_forwarder_nil, forward_or_drop_hold.
    destruct (consumed_frame "sdu" None c) as (_ & Hs & Hsp).
    eexists. split; [reflexivity|]. simpl. split; [|exact Hsp].
    f_equal. exact (f_equal packets_dropped_selfish Hs).
  - destruct (sdu_pfg_select_forwarder_cons e c packet x l)
      as (c1 & Hrun & _ & _ & Hsp & Hs).
    unfold bind. rewrite Hrun.
    destruct (pfg_pick_spec (eu_of e c) (x :: l) (None, PFG_HOLD, "Hold"%string))
      as [[_ Heq]|(i & b & Hi & _ & Hgt & _)].
    + rewrite Heq. simpl fst. simpl snd. rewrite forward_or_drop_hold.
      eexists. split; [reflexivity|]. simpl. split; [|exact Hsp].
      f_equal. exact (f_equal packets_dropped_selfish Hs).
    + exfalso. cbn [fst snd] in Hgt.
      pose proof (eu_send_not_trusted _ Hacc
                    (Hobs b (list_elem_of_lookup_2 _ _ _ Hi))) as Hle.
      unfold eu_of in Hgt. exact (Qlt_not_le _ _ Hgt Hle).
Qed.

Lemma handle_data_packet_without_trust_witness :
  let e := env_of 30 [new_node 1 None [2%nat]; new_node 3 None [2%nat]] in
  let c := ctx_of (with_observations (new_node 2 None [1%nat; 3%nat])
                     3 9 1 "Defect") in
  exists c',
    handle_data_packet (R := binary64) (data_of 5 0 3) 5 e c = Some (false, c')
    /\ packets_dropped_selfish (STATS c') = S (packets_dropped_selfish (STATS c))
    /\ spawned c' = spawned c.
Proof.
  intros e c.
  apply (handle_data_packet_without_trust (R := binary64) e c (data_of 5 0 3) 5).
  - exact accurate_binary64.
  - discriminate.
  - intros k Hk. apply elem_of_cons in Hk as [->|Hk].
    + left. split; reflexivity.
    + apply list_elem_of_singleton in Hk as ->. right.
      split; [vm_compute; discriminate|reflexivity].
Defined.

(** ** The price of a decision *)

Lemma consumed_enough cost_type c :
  alive (self c) = true ->
  actual_cost cost_type None < energy (self c) ->
  alive (self (consumed cost_type None c)) = true
  /\ energy (self (consumed cost_type None c))
     = energy (self c) - actual_cost cost_type None.
Proof.
  intros Ha Hlt. unfold consumed. rewrite Ha. cbn [self energy set_energy].
  destruct (Qle_bool _ 0) eqn:Hq.
  - apply Qle_bool_iff in Hq. lra.
  - split; [exact Ha|reflexivity].
Qed.

Lemma pfg_loop_energy e l : forall c acc,
  alive (self c) = true ->
  inject_Z (Z.of_nat (length l)) * E_LIA_UPDATE < energy (self c) ->
  exists a c',
    pfg_loop l acc e c = Some (a, c')
    /\ alive (self c') = true
    /\ energy (self c')
       == energy (self c) - inject_Z (Z.of_nat (length l)) * E_LIA_UPDATE.
Proof.
  induction l as [|k l IH]; intros c acc Ha Hlt.
  - exists acc, c. split; [reflexivity|]. split; [exact Ha|].
    cbn [length]. change (inject_Z (Z.of_nat 0)) with 0. ring.
  - assert (Hn : inject_Z (Z.of_nat (length (k :: l)))
                 == inject_Z (Z.of_nat (length l)) + 1).
    { simpl length. rewrite Nat2Z.inj_succ. unfold Z.succ.
      now rewrite inject_Z_plus. }
    rewrite Hn in Hlt.
    assert (Hpos : 0 <= inject_Z (Z.of_nat (length l)))
      by (unfold Qle; simpl; lia).
    assert (HE : E_LIA_UPDATE == 1 # 2000) by reflexivity.
    destruct (lia_get_pfg_p_cooperate_eq e c k) as (c1 & Hrun & _ & _ & _ & Hself).
    destruct (consumed_enough "lia" c Ha) as [Ha1 He1].
    { change (actual_cost "lia" None) with E_LIA_UPDATE. nra. }
    pose proof (f_equal alive Hself) as Hal. simpl in Hal.
    pose proof (f_equal energy Hself) as Hen. simpl in Hen.
    change (actual_cost "lia" None) with E_LIA_UPDATE in He1.
    cbn [pfg_loop]. unfold bind at 1. rewrite Hrun.
    assert (Hlt1 : inject_Z (Z.of_nat (length l)) * E_LIA_UPDATE < energy (self c1)).
    { rewrite Hen, He1. nra. }
    assert (Ha1' : alive (self c1) = true) by congruence.
    match goal with
    | |- context [if ?b then _ else _] => destruct b
    end.
    + destruct (IH c1 (Some k, eu_send (p_cooperate (entry_of e c k)), "Send"%string)
                  Ha1' Hlt1) as (a & c' & Hr & Ha' & He').
      exists a, c'. split; [exact Hr|]. split; [exact Ha'|].
      rewrite He', Hen, He1, Hn. ring.
    + destruct (IH c1 acc Ha1' Hlt1) as (a & c' & Hr & Ha' & He').
      exists a, c'. split; [exact Hr|]. split; [exact Ha'|].
      rewrite He', Hen, He1, Hn. ring.
Qed.



(** ** Recording forwarding outcomes *)

Lemma lia_update_pfg_run e c k outcome cd' :
  tally_outcome outcome (pfg_tally (STATS c) (id (self c)) k) = Some cd' ->
  exists c',
    lia_update_pfg k outcome e c = Some (tt, c')
    /\ core (self c') = core (self c)
    /\ spawned c' = spawned c
    /\ lia_data (self c') = <[k := pfg_entry (entry_of e c k) outcome]> (lia_data (self c))
    /\ pfg_tally (STATS c') (id (self c)) k = cd'
    /\ (forall i j, (i, j) <> (id (self c), k) ->
          pfg_tally (STATS c') i j = pfg_tally (STATS c) i j)
    /\ alive (self c') = alive (self (consumed "lia" None c))
    /\ energy (self c') = energy (self (consumed "lia" None c))
    /\ erase_energy (STATS c')
       = erase_energy
           (set_lia_pfg_outcomes (STATS c)
              (<[id (self c) :=
                   <[k := cd']> (default ∅ (lia_pfg_outcomes (STATS c) !! id (self c)))]>
                 (lia_pfg_outcomes (STATS c)))).
Proof.
  intros Ht. unfold lia_update_pfg, bind at 1. rewrite consume_energy_eq.
  destruct (lia_lookup_eq e (consumed "lia" None c) k)
    as (c1 & Hrun & Hlia & Hst & Hsp & Hself).
  unfold bind at 1. rewrite Hrun. rewrite entry_of_consumed in *.
  rewrite consumed_lia_data in *.
  destruct (consumed_frame "lia" None c) as (Hc0 & Hs0 & Hsp0).
  pose proof (f_equal core Hself) as Hc1. simpl in Hc1.
  assert (Hcore : core (self c1) = core (self c)).
  { rewrite <- Hc0, <- Hself. reflexivity. }
  pose proof (f_equal lia_pfg_outcomes Hs0) as Hpo. simpl in Hpo.
  unfold lia_store. unfold bind at 1. unfold bind at 1, get_self at 1.
  unfold put_self at 1. unfold bind at 1, get_self at 1.
  unfold bind at 1, get_stats at 1. cbn [self STATS].
  change (id (set_lia_data (self c1) _)) with (id (self c1)).
  rewrite (core_id _ _ Hcore), Hst, Hpo.
  unfold pfg_tally in Ht. rewrite Ht. unfold put_stats.
  eexists. split; [reflexivity|]. cbn [self STATS spawned].
  split; [exact Hcore|]. split; [congruence|].
  split; [cbn [lia_data set_lia_data]; rewrite Hlia; apply insert_insert_eq|].
  split.
  { unfold pfg_tally. cbn. rewrite lookup_insert_eq. cbn.
    now rewrite lookup_insert_eq. }
  split.
  - intros i j Hne. unfold pfg_tally. cbn.
    destruct (decide (id (self c) = i)) as [<-|Hi].
    + rewrite lookup_insert_eq. cbn.
      rewrite lookup_insert_ne by congruence. reflexivity.
    + now rewrite lookup_insert_ne.
  - pose proof (f_equal alive Hself) as Hal. pose proof (f_equal energy Hself) as Hen.
    simpl in Hal, Hen. split; [assumption|]. split; [assumption|].
    unfold erase_energy in *. cbn.
    injection Hs0 as E1 E2 E3 E4 E5 E6 E7 E8 E9 E10 E11 E12. congruence.
Qed.

Lemma entry_of_insert e c c' k x :
  lia_data (self c') = <[k := x]> (lia_data (self c)) ->
  forall j, entry_of e c' j = if decide (j = k) then x else entry_of e c j.
Proof.
  intros H j. unfold entry_of at 1. rewrite H.
  destruct (decide (j = k)) as [->|Hne].
  - now rewrite lookup_insert_eq.
  - rewrite lookup_insert_ne by congruence. reflexivity.
Qed.

(** X10.  [lia_update_pfg] with a Cooperate or a Defect returns, adds one
    to the matching count of the neighbour's entry and to the matching
    statistic, sets the last outcome, and touches no other entry and no
    other statistic pair; counts that agreed with the statistics still
    agree.  An outcome that starts with neither letter raises, the
    statistics having no such key. *)
Theorem lia_update_pfg_spec (e : Env) (c : Ctx) (neighbor_id : nat)
    (outcome : string) :
  (outcome = "Cooperate"%string \/ outcome = "Defect"%string ->
   exists c',
     lia_update_pfg neighbor_id outcome e c = Some (tt, c')
     /\ entry_of e c' neighbor_id = pfg_entry (entry_of e c neighbor_id) outcome
     /\ (forall j, j <> neighbor_id -> entry_of e c' j = entry_of e c j)
     /\ pfg_tally (STATS c') (id (self c)) neighbor_id
        = (if String.eqb outcome "Cooperate"
           then (S (fst (pfg_tally (STATS c) (id (self c)) neighbor_id)),
                 snd (pfg_tally (STATS c) (id (self c)) neighbor_id))
           else (fst (pfg_tally (STATS c) (id (self c)) neighbor_id),
                 S (snd (pfg_tally (STATS c) (id (self c)) neighbor_id))))
     /\ (forall i j, (i, j) <> (id (self c), neighbor_id) ->
           pfg_tally (STATS c') i j = pfg_tally (STATS c) i j)
     /\ ((pfg_coop_count (entry_of e c neighbor_id),
          pfg_defect_count (entry_of e c neighbor_id))
         = pfg_tally (STATS c) (id (self c)) neighbor_id ->
         (pfg_coop_count (entry_of e c' neighbor_id),
          pfg_defect_count (entry_of e c' neighbor_id))
         = pfg_tally (STATS c') (id (self c)) neighbor_id))
  /\ ((forall a rest, outcome = String a rest -> a <> "C"%char /\ a <> "D"%char) ->
      lia_update_pfg neighbor_id outcome e c = None).
Proof.
  split.
  - intros Hout.
    assert (Ht : tally_outcome outcome (pfg_tally (STATS c) (id (self c)) neighbor_id)
                 = Some (if String.eqb outcome "Cooperate"
                         then (S (fst (pfg_tally (STATS c) (id (self c)) neighbor_id)),
                               snd (pfg_tally (STATS c) (id (self c)) neighbor_id))
                         else (fst (pfg_tally (STATS c) (id (self c)) neighbor_id),
                               S (snd (pfg_tally (STATS c) (id (self c)) neighbor_id))))).
    { destruct Hout as [-> | ->]; reflexivity. }
    destruct (lia_update_pfg_run e c neighbor_id outcome _ Ht)
      as (c' & Hrun & _ & _ & Hlia & Htal & Hoth & _).
    pose proof (entry_of_insert e c c' _ _ Hlia) as Hent.
    exists c'. split; [exact Hrun|].
    split; [rewrite Hent; now rewrite decide_True|].
    split; [intros j Hj; rewrite Hent; now rewrite decide_False|].
    split; [exact Htal|]. split; [exact Hoth|].
    intros Hagree. rewrite Htal, Hent, decide_True by reflexivity.
    rewrite <- Hagree. unfold pfg_entry.
    destruct Hout as [-> | ->]; reflexivity.
  - intros Hbad. unfold lia_update_pfg, bind at 1. rewrite consume_energy_eq.
    destruct (lia_lookup_eq e (consumed "lia" None c) neighbor_id)
      as (c1 & Hrun & _).
    unfold bind at 1. rewrite Hrun. unfold lia_store. unfold_m.
    assert (Hnone : forall cd, tally_outcome outcome cd = None).
    { intros cd. unfold tally_outcome. destruct outcome as [|a rest]; [reflexivity|].
      destruct (Hbad a rest eq_refl) as [HC HD].
      destruct a as [[] [] [] [] [] [] [] []]; try reflexivity; congruence. }
    cbn. now rewrite Hnone.
Qed.

Lemma lia_update_pfg_spec_witness :
  let e := env_of 30 [] in
  let c := ctx_of (new_node 2 None [3%nat]) in
  (exists c',
     lia_update_pfg 3 "Defect" e c = Some (tt, c')
     /\ pfg_defect_count (entry_of e c' 3) = 1%nat
     /\ pfg_tally (STATS c') 2 3 = (0, 1)%nat)
  /\ lia_update_pfg 3 "Forward" e c = None.
Proof.
  intros e c. split.
  - destruct (lia_update_pfg_spec e c 3 "Defect") as [Hok _].
    destruct Hok as (c' & Hrun & Hent & _ & Htal & _).
    + now right.
    + exists c'. split; [exact Hrun|]. split; [now rewrite Hent|exact Htal].
  - destruct (lia_update_pfg_spec e c 3 "Forward") as [_ Hbad].
    apply Hbad. intros a rest [= <- <-]. split; discriminate.
Defined.

Lemma Qdiv_le_cross (n1 d1 n2 d2 : Z) :
  (0 < d1)%Z -> (0 < d2)%Z -> (n1 * d2 <= n2 * d1)%Z ->
  inject_Z n1 / inject_Z d1 <= inject_Z n2 / inject_Z d2.
Proof.
  intros H1 H2 Hle.
  assert (Hd1 : 0 < inject_Z d1) by (unfold Qlt; simpl; lia).
  assert (Hd2 : 0 < inject_Z d2) by (unfold Qlt; simpl; lia).
  assert (Hn : inject_Z n1 * inject_Z d2 <= inject_Z n2 * inject_Z d1)
    by (unfold Qle, Qmult; simpl; lia).
  apply Qle_shift_div_r; [exact Hd1|].
  assert (E : inject_Z n2 / inject_Z d2 * inject_Z d1
              == inject_Z n2 * inject_Z d1 / inject_Z d2).
  { field. intros H0. rewrite H0 in Hd2. exact (Qlt_irrefl 0 Hd2). }
  rewrite E. apply Qle_shift_div_l; [exact Hd2|exact Hn].
Qed.

Lemma coop_ratio_ge x (n m : nat) :
  (pfg_coop_count x + pfg_defect_count x)%nat <> 0%nat ->
  (n + m)%nat <> 0%nat ->
  (n * pfg_defect_count x <= m * pfg_coop_count x)%nat ->
  inject_Z (Z.of_nat n) / inject_Z (Z.of_nat (n + m)) <= coop_ratio x.
Proof.
  intros Hne Hnm Hle. unfold coop_ratio. apply Qdiv_le_cross; lia.
Qed.

Lemma coop_ratio_le x (n m : nat) :
  (pfg_coop_count x + pfg_defect_count x)%nat <> 0%nat ->
  (n + m)%nat <> 0%nat ->
  (m * pfg_coop_count x <= n * pfg_defect_count x)%nat ->
  coop_ratio x <= inject_Z (Z.of_nat n) / inject_Z (Z.of_nat (n + m)).
Proof.
  intros Hne Hnm Hle. unfold coop_ratio. apply Qdiv_le_cross; lia.
Qed.

(** X11.  How an observation changes the next decision, under any
    accurate rounding (binary64 is one).  Right after a Defect is
    recorded for a neighbour, a forwarder selection over that neighbour
    alone holds.  Right after a Cooperate is recorded for a neighbour
    with [a] cooperations and [d] defections so far, it sends to the
    neighbour when [12 * d <= 13 * (a + 1)] (a cooperate ratio of at
    least 0.48) and holds when [53 * (a + 1) <= 47 * d] (a ratio of at
    most 0.47); between the two the rounding decides. *)
Theorem observation_then_selection {R : Rounding} (e : Env) (c : Ctx)
    (packet : Packet) (k : nat) :
  accurate R ->
  (exists c',
     bind (lia_update_pfg k "Defect") (fun _ => sdu_pfg_select_forwarder packet [k])
       e c = Some ((None, "Hold"%string), c'))
  /\ ((12 * pfg_defect_count (entry_of e c k)
       <= 13 * (pfg_coop_count (entry_of e c k) + 1))%nat ->
      exists c',
        bind (lia_update_pfg k "Cooperate")
          (fun _ => sdu_pfg_select_forwarder packet [k]) e c
        = Some ((Some k, "Send"%string), c'))
  /\ ((53 * (pfg_coop_count (entry_of e c k) + 1)
       <= 47 * pfg_defect_count (entry_of e c k))%nat ->
      exists c',
        bind (lia_update_pfg k "Cooperate")
          (fun _ => sdu_pfg_select_forwarder packet [k]) e c
        = Some ((None, "Hold"%string), c')).
Proof.
  intros Hacc.
  pose proof (PFG_HOLD_accurate Hacc) as [Hh1 Hh2].
  assert (Hrun : forall outcome cd',
    tally_outcome outcome (pfg_tally (STATS c) (id (self c)) k) = Some cd' ->
    exists c',
      bind (lia_update_pfg k outcome) (fun _ => sdu_pfg_select_forwarder packet [k])
        e c
      = Some (if Qle_bool (eu_send (p_cooperate (pfg_entry (entry_of e c k) outcome)))
                          PFG_HOLD
              then (None, "Hold"%string) else (Some k, "Send"%string), c')).
  { intros outcome cd' Ht.
    destruct (lia_update_pfg_run e c k outcome cd' Ht)
      as (c1 & Hrun1 & _ & _ & Hlia & _).
    pose proof (entry_of_insert e c c1 _ _ Hlia k) as Hent.
    rewrite decide_True in Hent by reflexivity.
    destruct (sdu_pfg_select_forwarder_cons e c1 packet k []) as (c2 & Hrun2 & _).
    exists c2. unfold bind. rewrite Hrun1, Hrun2. f_equal. f_equal.
    cbn [pfg_pick fst snd]. unfold eu_of. rewrite Hent.
    destruct (Qle_bool _ PFG_HOLD); reflexivity. }
  split; [|split].
  - destruct (Hrun "Defect"%string _ eq_refl) as (c' & Hc').
    exists c'. rewrite Hc'.
    set (x := pfg_entry (entry_of e c k) "Defect").
    assert (Hne : (pfg_coop_count x + pfg_defect_count x)%nat <> 0%nat)
      by (subst x; simpl; lia).
    destruct (eu_send_margins x Hacc) as (_ & _ & Hd & _).
    specialize (Hd Hne eq_refl).
    assert (Hle : eu_send (p_cooperate x) <= PFG_HOLD) by lra.
    apply Qle_bool_iff in Hle. now rewrite Hle.
  - intros Hcnt. destruct (Hrun "Cooperate"%string _ eq_refl) as (c' & Hc').
    exists c'. rewrite Hc'.
    set (x := pfg_entry (entry_of e c k) "Cooperate").
    assert (Hne : (pfg_coop_count x + pfg_defect_count x)%nat <> 0%nat)
      by (subst x; simpl; lia).
    destruct (eu_send_margins x Hacc) as (_ & _ & _ & Hc).
    destruct (Hc Hne eq_refl) as [Hup _].
    assert (Hr : 0.48 <= coop_ratio x).
    { pose proof (coop_ratio_ge x 12 13 Hne ltac:(lia)) as Hge.
      assert (H48 : inject_Z (Z.of_nat 12) / inject_Z (Z.of_nat (12 + 13)) == 0.48)
        by reflexivity.
      rewrite H48 in Hge. apply Hge. subst x. simpl. lia. }
    specialize (Hup Hr).
    destruct (Qle_bool _ PFG_HOLD) eqn:Hq; [|reflexivity].
    apply Qle_bool_iff in Hq. exfalso. subst x. lra.
  - intros Hcnt. destruct (Hrun "Cooperate"%string _ eq_refl) as (c' & Hc').
    exists c'. rewrite Hc'.
    set (x := pfg_entry (entry_of e c k) "Cooperate").
    assert (Hne : (pfg_coop_count x + pfg_defect_count x)%nat <> 0%nat)
      by (subst x; simpl; lia).
    destruct (eu_send_margins x Hacc) as (_ & _ & _ & Hc).
    destruct (Hc Hne eq_refl) as [_ Hdown].
    assert (Hr : coop_ratio x <= 0.47).
    { pose proof (coop_ratio_le x 47 53 Hne ltac:(lia)) as Hle.
      assert (H47 : inject_Z (Z.of_nat 47) / inject_Z (Z.of_nat (47 + 53)) == 0.47)
        by reflexivity.
      rewrite H47 in Hle. apply Hle. subst x. simpl. lia. }
    specialize (Hdown Hr).
    assert (Hle : eu_send (p_cooperate x) <= PFG_HOLD) by lra.
    apply Qle_bool_iff in Hle. now rewrite Hle.
Qed.

Lemma observation_then_selection_witness :
  let e := env_of 30 [] in
  let c := ctx_of (new_node 2 None [3%nat]) in
  exists c',
    bind (lia_update_pfg 3 "Cooperate")
      (fun _ => sdu_pfg_select_forwarder (R := binary64) (data_of 5 0 3) [3%nat])
      e c
    = Some ((Some 3%nat, "Send"%string), c').
Proof.
  intros e c.
  destruct (observation_then_selection (R := binary64) e c (data_of 5 0 3) 3
              accurate_binary64) as (_ & Hsend & _).
  apply Hsend. vm_compute. lia.
Defined.

(** ** Transport *)

(** X12.  A message lost in transit costs as much as a delivered one.
    When the loss draw hits, [_send_message] returns [None] without any
    delivery; the sender has been charged ['tx_pkt'] for a DATA packet
    and ['tx_ctrl'] for a packet of any other type, and one has been
    added to the sender's count of sent packets of the packet's type
    (DATA packets included) and to no other count. *)
Theorem send_message_lost (e : Env) (c : Ctx) (target : nat) (packet : Packet) :
  exists c',
    _send_message target packet true e c = Some (None, c')
    /\ self c'
       = self (consumed (if String.eqb (p_type packet) "DATA"
                         then "tx_pkt" else "tx_ctrl") None c)
    /\ tally (control_packets_sent (STATS c')) (id (self c)) (p_type packet)
       = S (tally (control_packets_sent (STATS c)) (id (self c)) (p_type packet))
    /\ (forall j k, (j, k) <> (id (self c), p_type packet) ->
          tally (control_packets_sent (STATS c')) j k
          = tally (control_packets_sent (STATS c)) j k)
    /\ spawned c' = spawned c.
Proof.
  unfold _send_message, bind at 1. rewrite consume_energy_eq.
  destruct (consumed_frame (tx_cost packet) None c) as (Hc & Hs & Hsp).
  pose proof (f_equal control_packets_sent Hs) as Hcp. simpl in Hcp.
  unfold_m. cbn [self STATS]. rewrite (core_id _ _ Hc).
  eexists. split; [reflexivity|]. cbn [self STATS spawned].
  split; [reflexivity|]. cbn [control_packets_sent set_control_packets_sent].
  rewrite Hcp. split; [apply tally_incr2_same|].
  split; [intros j k Hne; now apply tally_incr2_other|exact Hsp].
Qed.

Lemma send_message_lost_witness :
  let e := env_of 30 [new_node 1 None [2%nat]] in
  let c := ctx_of (new_node 2 None [1%nat]) in
  exists c',
    _send_message 1 (data_of 2 0 30) true e c = Some (None, c')
    /\ energy (self c') = 100.0 - 0.05
    /\ tally (control_packets_sent (STATS c')) 2 "DATA"%string = 1%nat.
Proof.
  intros e c.
  destruct (send_message_lost e c 1 (data_of 2 0 30))
    as (c' & Hrun & Hself & Ht & _).
  exists c'. split; [exact Hrun|]. split; [|exact Ht].
  rewrite Hself. reflexivity.
Defined.

Lemma _receive_message_live e c pkt s :
  alive (self c) = true ->
  _receive_message pkt s e c
  = (if String.eqb (p_type pkt) "DIO" then
       bind (handle_dio pkt s) (fun _ => ret None)
     else if String.eqb (p_type pkt) "DATA" then
       bind (handle_data_packet pkt s) (fun b => ret (Some b))
     else if String.eqb (p_type pkt) "ACK" then ret None
     else if String.eqb (p_type pkt) "REPORT" then ret None
     else ret (Some false)) e (consumed (rx_cost pkt) None c).
Proof.
  intros Ha. unfold _receive_message, bind at 1, get_self at 1.
  rewrite Ha. cbn [negb]. unfold bind at 1. rewrite consume_energy_eq.
  repeat (destruct (String.eqb (p_type pkt) _); [reflexivity|]).
  reflexivity.
Qed.

(** X13.  A live node that receives a packet that is neither a DIO nor a
    DATA packet is charged the control receive cost and nothing else
    happens: the result is [None] for an ACK or a REPORT and [False] for
    any other type. *)
Theorem receive_message_other (e : Env) (c : Ctx) (packet : Packet)
    (sender_id : nat) :
  alive (self c) = true ->
  p_type packet <> "DIO"%string ->
  p_type packet <> "DATA"%string ->
  _receive_message packet sender_id e c
  = Some (if String.eqb (p_type packet) "ACK"
             || String.eqb (p_type packet) "REPORT"
          then None else Some false,
          consumed "rx_ctrl" None c).
Proof.
  intros Ha Hdio Hdata. rewrite _receive_message_live by assumption.
  unfold rx_cost.
  apply String.eqb_neq in Hdio. apply String.eqb_neq in Hdata.
  rewrite Hdio, Hdata.
  destruct (String.eqb (p_type packet) "ACK"); [reflexivity|].
  destruct (String.eqb (p_type packet) "REPORT"); reflexivity.
Qed.

Lemma receive_message_other_witness :
  let e := env_of 30 [] in
  let c := ctx_of (new_node 2 None []) in
  let ack := {| packet_id := "a"; source_id := 1; dest_id := DestNode 2;
                creation_time := 3; data := PayloadStr "payload";
                path := [1%nat]; p_type := "ACK" |} in
  _receive_message ack 1 e c = Some (None, consumed "rx_ctrl" None c).
Proof.
  intros e c ack.
  apply (receive_message_other e c ack 1); [reflexivity|discriminate|discriminate].
Defined.

(** X14.  A live node that receives a DATA packet addressed to itself
    returns [True] and records the delivery: the delivered count grows by
    one and the cumulated delay by the present time less the creation
    time of the packet.  No drop is recorded, nothing is transmitted, and
    the node pays the data receive cost alone. *)
Theorem receive_data_at_destination (e : Env) (c : Ctx) (packet : Packet)
    (sender_id : nat) :
  alive (self c) = true ->
  p_type packet = "DATA"%string ->
  dest_id packet = DestNode (id (self c)) ->
  exists c',
    _receive_message packet sender_id e c = Some (Some true, c')
    /\ self c' = self (consumed "rx_pkt" None c)
    /\ packets_received_dest (STATS c') = S (packets_received_dest (STATS c))
    /\ total_delay (STATS c')
       = total_delay (STATS c) + (now e - creation_time packet)
    /\ packets_dropped_selfish (STATS c') = packets_dropped_selfish (STATS c)
    /\ packets_dropped_blackhole (STATS c') = packets_dropped_blackhole (STATS c)
    /\ packets_dropped_other (STATS c') = packets_dropped_other (STATS c)
    /\ spawned c' = spawned c.
Proof.
  intros Ha Ht Hdest. rewrite _receive_message_live by assumption.
  unfold rx_cost. rewrite Ht. cbn [String.eqb Ascii.eqb Bool.eqb].
  change (("DATA" =? "DIO")%string) with false.
  change (("DATA" =? "DATA")%string) with true. cbv iota.
  destruct (consumed_frame "rx_pkt" None c) as (Hc & Hs & Hsp).
  unfold handle_data_packet, bind at 1. unfold bind at 1, get_self at 1.
  rewrite (core_id _ _ Hc), Hdest, decide_True by reflexivity.
  unfold_m. eexists. split; [reflexivity|]. cbn [self STATS spawned].
  split; [reflexivity|].
  cbn [record_delivery packets_received_dest total_delay packets_dropped_selfish
       packets_dropped_blackhole packets_dropped_other].
  rewrite (f_equal packets_received_dest Hs : packets_received_dest (STATS _) = _).
  rewrite (f_equal total_delay Hs : total_delay (STATS _) = _).
  split; [reflexivity|]. split; [reflexivity|].
  split; [exact (f_equal packets_dropped_selfish Hs)|].
  split; [exact (f_equal packets_dropped_blackhole Hs)|].
  split; [exact (f_equal packets_dropped_other Hs)|exact Hsp].
Qed.

Lemma receive_data_at_destination_witness :
  let e := env_of 30 [] in
  let c := ctx_of (new_node 2 None []) in
  exists c',
    _receive_message (data_of 5 2 3) 1 e c = Some (Some true, c')
    /\ packets_received_dest (STATS c') = 1%nat
    /\ total_delay (STATS c') = 0 + (30 - 3).
Proof.
  intros e c.
  destruct (receive_data_at_destination e c (data_of 5 2 3) 1)
    as (c' & Hrun & _ & Hd & Ht & _); [reflexivity|reflexivity|reflexivity|].
  exists c'. split; [exact Hrun|]. split; [exact Hd|exact Ht].
Defined.

Lemma dio_loop_eq e p ks : forall c,
  (forall k, k ∈ ks -> is_Some (peers e !! k)) ->
  dio_loop ks p e c
  = Some (tt, {| self := self c; STATS := STATS c;
                 spawned :=
                   rev (map (fun k => (k, p))
                          (filter (fun k => alive <$> peers e !! k = Some true) ks))
                   ++ spawned c |}).
Proof.
  induction ks as [|k ks IH]; intros c Hk.
  - now destruct c.
  - cbn [dio_loop]. unfold bind at 1, ask at 1.
    destruct (Hk k (list_elem_of_here _ _)) as [pn Hpn]. rewrite Hpn.
    assert (Hks : forall j, j ∈ ks -> is_Some (peers e !! j))
      by (intros j Hj; apply Hk; now apply list_elem_of_further).
    rewrite filter_cons.
    destruct (alive pn) eqn:Ha.
    + rewrite decide_True by (rewrite Hpn; simpl; now rewrite Ha).
      unfold bind at 1, spawn_send at 1. rewrite IH by assumption.
      cbn [self STATS spawned map rev]. now rewrite <- app_assoc.
    + rewrite decide_False by (rewrite Hpn; simpl; rewrite Ha; discriminate).
      unfold bind at 1, ret at 1. now rewrite IH by assumption.
Qed.

(** X15.  [broadcast_dio] on a live node stamps the time of the broadcast
    and hands one DIO to each neighbour that is alive, in the order of the
    neighbour table, and none to a dead one.  All sends carry the same
    packet, which advertises the node's present rank and version; the
    broadcast itself costs no energy and changes no statistic. *)
Theorem broadcast_dio_spec (e : Env) (c : Ctx) :
  alive (self c) = true ->
  neighbors_known e c ->
  exists c',
    broadcast_dio e c = Some (tt, c')
    /\ self c' = set_last_dio (self c) (now e)
    /\ STATS c' = STATS c
    /\ spawned c'
       = rev (map (fun k => (k, dio_packet_of e c)) (live_neighbors e (self c)))
         ++ spawned c.
Proof.
  intros Ha Hk. unfold broadcast_dio, bind at 1, get_self at 1.
  rewrite Ha. cbn [negb]. unfold bind at 1, ask at 1.
  unfold bind at 1, put_self at 1.
  rewrite dio_loop_eq by exact Hk.
  eexists. split; [reflexivity|]. now repeat split.
Qed.

Lemma broadcast_dio_spec_witness :
  let e := env_of 30 [new_node 1 None [2%nat]; spent (new_node 3 None [2%nat])] in
  let c := ctx_of (new_node 2 None [1%nat; 3%nat]) in
  exists c',
    broadcast_dio e c = Some (tt, c')
    /\ spawned c' = [(1%nat, dio_packet_of e c)].
Proof.
  intros e c.
  destruct (broadcast_dio_spec e c) as (c' & Hrun & _ & _ & Hsp).
  - reflexivity.
  - intros k Hk. apply elem_of_cons in Hk as [->|Hk].
    + vm_compute. eauto.
    + apply elem_of_cons in Hk as [->|Hk]; [vm_compute; eauto|inversion Hk].
  - exists c'. split; [exact Hrun|]. rewrite Hsp. vm_compute. reflexivity.
Defined.

(** ** Reporting *)

(** X16.  [sdu_irg_decide_report] always returns.  It reports exactly
    when the observed neighbour has at least three recorded defections,
    strictly more than its cooperations, and the draw falls below 0.8; a
    report adds one to the node's report count, and without a report the
    count is unchanged.  The estimates of the archive are not changed. *)
Theorem sdu_irg_decide_report_spec (e : Env) (c : Ctx) (observed_node_id : nat)
    (suspected_behavior_type : string) (coin : bool) :
  exists b c',
    sdu_irg_decide_report observed_node_id suspected_behavior_type coin e c
    = Some (b, c')
    /\ b = (3 <=? pfg_defect_count (entry_of e c observed_node_id))%nat
           && (pfg_coop_count (entry_of e c observed_node_id)
               <? pfg_defect_count (entry_of e c observed_node_id))%nat
           && coin
    /\ reports_made (STATS c') (id (self c))
       = ((if b then 1 else 0) + reports_made (STATS c) (id (self c)))%nat
    /\ same_entries e c c'.
Proof.
  unfold sdu_irg_decide_report, bind at 1. rewrite consume_energy_eq.
  destruct (lia_lookup_eq e (consumed "sdu" None c) observed_node_id)
    as (c1 & Hrun & _).
  pose proof (lia_lookup_frame _ _ _ _ _ Hrun) as [Hf1 He1].
  unfold bind at 1. rewrite Hrun. rewrite entry_of_consumed.
  pose proof (frame_trans _ _ _ (consumed_frame "sdu" None c) Hf1)
    as (Hc & Hs & Hsp).
  pose proof (same_entries_trans _ _ _ _
                (consumed_same_entries e "sdu" None c) He1) as He.
  pose proof (f_equal irg_reports_made Hs) as Hir. simpl in Hir.
  set (x := entry_of e c observed_node_id).
  destruct ((3 <=? pfg_defect_count x)%nat && (pfg_coop_count x <? pfg_defect_count x)%nat);
    [destruct coin|].
  - unfold_m. cbn [self STATS]. rewrite (core_id _ _ Hc).
    eexists _, _. split; [reflexivity|]. split; [reflexivity|].
    split; [|exact He].
    unfold reports_made. cbn. rewrite Hir. unfold incr.
    now rewrite lookup_insert_eq.
  - exists false, c1. split; [reflexivity|]. split; [reflexivity|].
    split; [|exact He]. unfold reports_made. now rewrite Hir.
  - exists false, c1. split; [reflexivity|]. split; [reflexivity|].
    split; [|exact He]. unfold reports_made. now rewrite Hir.
Qed.

Lemma sdu_irg_decide_report_spec_witness :
  let e := env_of 30 [new_node 1 None [2%nat]] in
  let c := ctx_of (new_node 2 None [1%nat]) in
  exists c',
    sdu_irg_decide_report 1 "blackhole" true e c = Some (false, c')
    /\ reports_made (STATS c') 2 = reports_made (STATS c) 2.
Proof.
  intros e c.
  destruct (sdu_irg_decide_report_spec e c 1 "blackhole" true)
    as (b & c' & Hrun & Hb & Hr & _).
  vm_compute in Hb. subst b.
  exists c'. split; [exact Hrun|exact Hr].
Defined.

(** ** Relations kept by every method *)

Lemma lia_update_pfg_raises e c k outcome :
  tally_outcome outcome (pfg_tally (STATS c) (id (self c)) k) = None ->
  lia_update_pfg k outcome e c = None.
Proof.
  intros Ht. unfold lia_update_pfg, bind at 1. rewrite consume_energy_eq.
  destruct (lia_lookup_eq e (consumed "lia" None c) k)
    as (c1 & Hrun & _ & Hst & _ & Hself).
  unfold bind at 1. rewrite Hrun.
  destruct (consumed_frame "lia" None c) as (Hc0 & Hs0 & _).
  assert (Hcore : core (self c1) = core (self c)).
  { rewrite <- Hc0, <- Hself. reflexivity. }
  pose proof (f_equal lia_pfg_outcomes Hs0) as Hpo. simpl in Hpo.
  unfold lia_store. unfold bind at 1. unfold bind at 1, get_self at 1.
  unfold put_self at 1. unfold bind at 1, get_self at 1.
  unfold bind at 1, get_stats at 1. cbn [self STATS].
  change (id (set_lia_data (self c1) _)) with (id (self c1)).
  rewrite (core_id _ _ Hcore), Hst, Hpo.
  unfold pfg_tally in Ht. now rewrite Ht.
Qed.

Section Steps.

Variable R : Ctx -> Ctx -> Prop.
Variable allow_pfg : Prop.
Variable allow_discover : Prop.

Hypothesis R_refl : forall c, R c c.
Hypothesis R_trans : forall c1 c2 c3, R c1 c2 -> R c2 c3 -> R c1 c3.
Hypothesis R_consume : forall cost_type c, R c (consumed cost_type None c).
Hypothesis R_lookup : forall k, steps R (lia_lookup k).
Hypothesis R_update_pfg :
  allow_pfg -> forall k o, steps R (lia_update_pfg k o).
Hypothesis R_update_psg : forall s r v, steps R (lia_update_psg_from_dio s r v).
Hypothesis R_pfg_choices : forall c i k,
  R c (with_stats c (set_sdu_pfg_choices (STATS c)
                       (incr2 i k (sdu_pfg_choices (STATS c))))).
Hypothesis R_psg_choices : forall c i k,
  R c (with_stats c (set_sdu_psg_choices (STATS c)
                       (incr2 i k (sdu_psg_choices (STATS c))))).
Hypothesis R_parent_changes : forall c i,
  R c (with_stats c (set_rpl_parent_changes (STATS c)
                       (incr i (rpl_parent_changes (STATS c))))).
Hypothesis R_reports : forall c i,
  R c (with_stats c (set_irg_reports_made (STATS c)
                       (incr i (irg_reports_made (STATS c))))).
Hypothesis R_sent : forall c i k,
  R c (with_stats c (set_control_packets_sent (STATS c)
                       (incr2 i k (control_packets_sent (STATS c))))).
Hypothesis R_delivery : forall c q,
  R c (with_stats c (record_delivery (STATS c) q)).
Hypothesis R_drop : forall c, R c (with_stats c (record_drop (STATS c))).
Hypothesis R_spawn : forall c t p, R c (with_spawned c ((t, p) :: spawned c)).
Hypothesis R_last_dio : forall c t, R c (with_self c (set_last_dio (self c) t)).
Hypothesis R_adopt : forall c p r, R c (with_self c (adopt (self c) p r)).
Hypothesis R_neighbors :
  allow_discover ->
  forall c k,
    R c (with_self c (set_neighbors (self c) (dict_add k (neighbors (self c))))).

Lemma steps_ret {A} (a : A) : steps R (ret a).
Proof. intros e c a' c' [= <- <-]. apply R_refl. Qed.

Lemma steps_raise {A} : steps R (@raise A).
Proof. intros e c a' c' [=]. Qed.

Lemma steps_ask : steps R ask.
Proof. intros e c a' c' [= <- <-]. apply R_refl. Qed.

Lemma steps_get_self : steps R get_self.
Proof. intros e c a' c' [= <- <-]. apply R_refl. Qed.

Lemma steps_get_stats : steps R get_stats.
Proof. intros e c a' c' [= <- <-]. apply R_refl. Qed.

Lemma steps_spawn_send t p : steps R (spawn_send t p).
Proof. intros e c a' c' [= <- <-]. apply R_spawn. Qed.

Lemma steps_bind {A B} (m : M A) (k : A -> M B) :
  steps R m -> (forall a, steps R (k a)) -> steps R (bind m k).
Proof.
  intros Hm Hk e c b c'. unfold bind.
  destruct (m e c) as [[a c1]|] eqn:Hrun; [|discriminate].
  intros Hrun2. eapply R_trans; [eapply Hm; exact Hrun|eapply Hk; exact Hrun2].
Qed.

Lemma steps_consume_energy cost_type : steps R (consume_energy cost_type None).
Proof.
  intros e c a c'. rewrite consume_energy_eq. intros [= <- <-]. apply R_consume.
Qed.

(** [STATS[...] = g(STATS)], followed by [k]. *)
Lemma steps_stats_then {A} (g : Stats -> Stats) (k : Stats -> M A) :
  (forall c, R c (with_stats c (g (STATS c)))) ->
  (forall s, steps R (k s)) ->
  steps R (bind get_stats (fun s => bind (put_stats (g s)) (fun _ => k s))).
Proof.
  intros Hg Hk e c a c'. unfold bind, get_stats, put_stats. intros Hrun.
  eapply R_trans; [apply Hg|]. eapply Hk. exact Hrun.
Qed.

Lemma steps_stats (g : Stats -> Stats) :
  (forall c, R c (with_stats c (g (STATS c)))) ->
  steps R (bind get_stats (fun s => put_stats (g s))).
Proof.
  intros Hg e c a c'. unfold bind, get_stats, put_stats.
  intros [= <- <-]. apply Hg.
Qed.

Ltac stats_side :=
  intros; cbv beta;
  first [ apply R_pfg_choices | apply R_psg_choices | apply R_parent_changes
        | apply R_reports | apply R_sent | apply R_delivery | apply R_drop ].

Ltac steps_step :=
  match goal with
  | |- steps R (bind get_stats (fun s => bind (put_stats (@?g s)) _)) =>
      apply (steps_stats_then g); [stats_side|intros ?]
  | |- steps R (bind get_stats (fun s => put_stats (@?g s))) =>
      apply (steps_stats g); stats_side
  | |- steps R (bind _ _) => apply steps_bind; [|intros ?]
  | |- steps R (if ?b then _ else _) => destruct b
  | |- steps R (match ?x with _ => _ end) => destruct x
  | |- steps R (ret _) => apply steps_ret
  | |- steps R raise => apply steps_raise
  | |- steps R ask => apply steps_ask
  | |- steps R get_self => apply steps_get_self
  | |- steps R get_stats => apply steps_get_stats
  | |- steps R (spawn_send _ _) => apply steps_spawn_send
  | |- steps R (consume_energy _ None) => apply steps_consume_energy
  | |- steps R (lia_lookup _) => apply R_lookup
  | |- steps R (lia_update_psg_from_dio _ _ _) => apply R_update_psg
  end.

Ltac steps_auto := repeat steps_step.

Lemma steps_lia_get_pfg_p_cooperate k : steps R (lia_get_pfg_p_cooperate k).
Proof. unfold lia_get_pfg_p_cooperate. steps_auto. Qed.

Lemma steps_lia_get_psg_parent_score k r :
  steps R (lia_get_psg_parent_score k r).
Proof. unfold lia_get_psg_parent_score. steps_auto. Qed.

Lemma steps_pfg_loop l : forall acc, steps R (pfg_loop l acc).
Proof.
  induction l as [|k l IH]; intros acc; cbn [pfg_loop]; steps_auto;
    first [apply steps_lia_get_pfg_p_cooperate | apply IH].
Qed.

Lemma steps_sdu_pfg_select_forwarder p l :
  steps R (sdu_pfg_select_forwarder p l).
Proof.
  unfold sdu_pfg_select_forwarder. steps_auto; apply steps_pfg_loop.
Qed.

Lemma steps_psg_loop l : forall acc, steps R (psg_loop l acc).
Proof.
  induction l as [|[[i r] v] l IH]; intros acc; cbn [psg_loop]; steps_auto;
    first [apply steps_lia_get_psg_parent_score | apply IH].
Qed.

Lemma steps_psg_current_parent : steps R psg_current_parent.
Proof.
  unfold psg_current_parent. steps_auto; apply steps_lia_get_psg_parent_score.
Qed.

Lemma steps_sdu_psg_select_parent l : steps R (sdu_psg_select_parent l).
Proof.
  unfold sdu_psg_select_parent. steps_auto;
    first [apply steps_psg_current_parent | apply steps_psg_loop].
Qed.

Lemma steps_sdu_irg_decide_report k t coin :
  steps R (sdu_irg_decide_report k t coin).
Proof. unfold sdu_irg_decide_report. steps_auto. Qed.

Lemma steps__send_message t p lost : steps R (_send_message t p lost).
Proof. unfold _send_message. steps_auto. Qed.

Lemma steps_dio_loop ks p : steps R (dio_loop ks p).
Proof.
  induction ks as [|k ks IH]; cbn [dio_loop]; steps_auto; apply IH.
Qed.

Lemma steps_broadcast_dio : steps R broadcast_dio.
Proof.
  intros e c a c'. unfold broadcast_dio, bind at 1, get_self at 1.
  destruct (alive (self c)); cbn [negb].
  - unfold bind at 1, ask at 1. unfold bind at 1, put_self at 1.
    intros Hrun. eapply R_trans; [apply (R_last_dio c (now e))|].
    eapply steps_dio_loop. exact Hrun.
  - intros [= <- <-]. apply R_refl.
Qed.

Lemma steps_handle_dio p s : steps R (handle_dio p s).
Proof.
  unfold handle_dio. destruct (data p) as [?|rank version]; [apply steps_raise|].
  apply steps_bind; [apply R_update_psg|intros _].
  apply steps_bind; [apply steps_get_self|intros n].
  destruct (decide _); [apply steps_ret|].
  apply steps_bind; [apply steps_sdu_psg_select_parent|intros q].
  destruct (truthy_and_eq q s); [|apply steps_ret].
  intros e c a c'. unfold bind at 1, get_self at 1.
  unfold bind at 1, put_self at 1. intros Hrun.
  eapply R_trans; [apply (R_adopt c s (rank_succ rank))|].
  change {| self := adopt (self c) s (rank_succ rank); STATS := STATS c;
            spawned := spawned c |}
    with (with_self c (adopt (self c) s (rank_succ rank))) in Hrun.
  revert Hrun. generalize (with_self c (adopt (self c) s (rank_succ rank))).
  intros c0. destruct (decide _).
  + intros Hrun.
    refine (steps_stats
              (fun s0 => set_rpl_parent_changes s0
                           (incr (id (self c)) (rpl_parent_changes s0)))
              _ e c0 a c' Hrun).
    intros c2. apply R_parent_changes.
  + intros [= <- <-]. apply R_refl.
Qed.

Lemma steps_forward_or_drop p r : steps R (forward_or_drop p r).
Proof. unfold forward_or_drop. steps_auto. Qed.

Lemma steps_handle_data_packet p s : steps R (handle_data_packet p s).
Proof.
  unfold handle_data_packet. steps_auto;
    first [apply steps_sdu_pfg_select_forwarder | apply steps_forward_or_drop].
Qed.

Lemma steps__receive_message p s : steps R (_receive_message p s).
Proof.
  unfold _receive_message, handle_ack, handle_report. steps_auto;
    first [apply steps_handle_dio | apply steps_handle_data_packet].
Qed.

Lemma steps_discover_neighbors pos all_nodes :
  allow_discover -> steps R (discover_neighbors pos all_nodes).
Proof.
  intros Hallow. unfold discover_neighbors.
  induction all_nodes as [|o rest IH]; cbn [discover_loop]; [apply steps_ret|].
  intros e c a c'. unfold bind at 1, get_self at 1.
  destruct (_ =? _)%nat; [now apply IH|].
  destruct (in_range _ _); [|now apply IH].
  unfold bind at 1, put_self at 1. intros Hrun.
  eapply R_trans;
    [apply (R_neighbors Hallow c (placed_id o))|].
  assert (Hk : steps R (bind (lia_lookup (placed_id o))
                          (fun _ => discover_loop pos rest))).
  { apply steps_bind; [apply R_lookup|intros _; exact IH]. }
  eapply Hk. exact Hrun.
Qed.

Lemma steps_exec call :
  (is_pfg_call call -> allow_pfg) ->
  (is_discover_call call -> allow_discover) ->
  steps R (exec call).
Proof.
  intros Hallow Hdisc. destruct call; cbn [exec];
    try (apply R_update_pfg, Hallow; exact I);
    try (apply steps_discover_neighbors, Hdisc; exact I);
    steps_auto;
    first [ apply steps_lia_get_pfg_p_cooperate
          | apply steps_lia_get_psg_parent_score
          | apply steps_sdu_pfg_select_forwarder
          | apply steps_sdu_psg_select_parent
          | apply steps_sdu_irg_decide_report
          | apply steps__send_message
          | apply steps__receive_message
          | apply steps_broadcast_dio
          | apply steps_handle_dio
          | apply steps_handle_data_packet
          | unfold handle_ack, handle_report; apply steps_ret ].
Qed.

Lemma steps_exec_all calls :
  Forall (fun ec => is_discover_call ec.2 -> allow_discover) calls ->
  forall c c',
    Forall (fun ec => is_pfg_call ec.2 -> allow_pfg) calls ->
    exec_all calls c = Some c' -> R c c'.
Proof.
  induction calls as [|[e call] calls IH]; intros Hdisc c c' Hall;
    cbn [exec_all].
  - intros [= <-]. apply R_refl.
  - apply Forall_cons in Hall as [Hhd Htl].
    apply Forall_cons in Hdisc as [Hd Hdtl].
    destruct (exec call e c) as [[[] c1]|] eqn:Hrun; [|discriminate].
    intros Hrest.
    eapply R_trans; [eapply steps_exec; [exact Hhd|exact Hd|exact Hrun]|].
    now apply IH.
Qed.

End Steps.

(** ** The archive along a run *)

(** What [lia_update_pfg] leaves in the archive when it returns. *)
Lemma lia_update_pfg_lia e c k o a c' :
  lia_update_pfg k o e c = Some (a, c') ->
  lia_data (self c') = <[k := pfg_entry (entry_of e c k) o]> (lia_data (self c))
  /\ core (self c') = core (self c)
  /\ exists cd',
       tally_outcome o (pfg_tally (STATS c) (id (self c)) k) = Some cd'
       /\ erase_energy (STATS c')
          = erase_energy
              (set_lia_pfg_outcomes (STATS c)
                 (<[id (self c) :=
                      <[k := cd']> (default ∅ (lia_pfg_outcomes (STATS c)
                                                 !! id (self c)))]>
                    (lia_pfg_outcomes (STATS c)))).
Proof.
  intros Hrun.
  destruct (tally_outcome o (pfg_tally (STATS c) (id (self c)) k)) as [cd'|] eqn:Ht.
  - destruct (lia_update_pfg_run e c k o cd' Ht)
      as (c1 & Hrun1 & Hc & _ & Hlia & _ & _ & _ & _ & Hs).
    rewrite Hrun1 in Hrun. injection Hrun as _ <-.
    split; [exact Hlia|]. split; [exact Hc|]. now exists cd'.
  - rewrite (lia_update_pfg_raises e c k o Ht) in Hrun. discriminate.
Qed.

Lemma entry_of_ok e c k : lia_ok c -> entry_ok (entry_of e c k).
Proof.
  intros Hok. unfold entry_of.
  destruct (lia_data (self c) !! k) as [x|] eqn:Hx; simpl.
  - exact (Hok k x Hx).
  - apply default_entry_ok.
Qed.

Lemma lia_ok_insert c c' k x :
  lia_data (self c') = <[k := x]> (lia_data (self c)) ->
  entry_ok x -> lia_ok c -> lia_ok c'.
Proof.
  intros Hlia Hx Hok j y. rewrite Hlia.
  destruct (decide (k = j)) as [->|Hne].
  - rewrite lookup_insert_eq. now intros [= <-].
  - rewrite lookup_insert_ne by assumption. apply Hok.
Qed.

Lemma lia_ok_same c c' :
  lia_data (self c') = lia_data (self c) -> lia_ok c -> lia_ok c'.
Proof. intros H Hok k x. rewrite H. apply Hok. Qed.

Lemma dio_entry_ok e c s r : lia_ok c -> entry_ok (dio_entry e c s r).
Proof.
  intros Hok. destruct (entry_of_ok e c s Hok) as [Hs Hl].
  split; simpl.
  - now apply stability_update_range.
  - now apply deque_append_length.
Qed.

(** X17.  Along any run of method calls on a node, every entry of its
    archive keeps a stability score in [0, 1] and a recency window of at
    most five timestamps, provided the entries it starts with do (a new
    node has none). *)
Theorem run_keeps_lia_ok (calls : list (Env * Call)) (c c' : Ctx) :
  lia_ok c ->
  exec_all calls c = Some c' ->
  forall k x,
    lia_data (self c') !! k = Some x ->
    0 <= psg_rank_stability_score x <= 1
    /\ (length (psg_dio_timestamps x) <= 5)%nat.
Proof.
  assert (Hsteps : exec_all calls c = Some c' -> lia_ok c -> lia_ok c').
  { apply (steps_exec_all (fun c c' => lia_ok c -> lia_ok c') True True).
    - auto.
    - auto.
    - cbv beta. intros ct c0. apply lia_ok_same, consumed_lia_data.
    - intros k e c0 a c1 Hrun Hok.
      destruct (lia_lookup_eq e c0 k) as (c2 & Hrun2 & Hlia & _).
      rewrite Hrun2 in Hrun. injection Hrun as _ <-.
      eapply lia_ok_insert; [exact Hlia|now apply entry_of_ok|exact Hok].
    - intros _ k o e c0 a c1 Hrun Hok.
      destruct (lia_update_pfg_lia _ _ _ _ _ _ Hrun) as (Hlia & _).
      eapply lia_ok_insert; [exact Hlia| |exact Hok].
      exact (entry_of_ok e c0 k Hok).
    - intros s r v e c0 a c1 Hrun Hok.
      rewrite lia_update_psg_from_dio_run in Hrun. injection Hrun as _ <-.
      eapply (lia_ok_insert c0); [|now apply (dio_entry_ok e c0 s r)|exact Hok].
      unfold dio_updated. simpl. now rewrite consumed_lia_data.
    - cbv beta; intros; eapply lia_ok_same; [|eassumption]; reflexivity.
    - cbv beta; intros; eapply lia_ok_same; [|eassumption]; reflexivity.
    - cbv beta; intros; eapply lia_ok_same; [|eassumption]; reflexivity.
    - cbv beta; intros; eapply lia_ok_same; [|eassumption]; reflexivity.
    - cbv beta; intros; eapply lia_ok_same; [|eassumption]; reflexivity.
    - cbv beta; intros; eapply lia_ok_same; [|eassumption]; reflexivity.
    - cbv beta; intros; eapply lia_ok_same; [|eassumption]; reflexivity.
    - cbv beta; intros; eapply lia_ok_same; [|eassumption]; reflexivity.
    - cbv beta; intros; eapply lia_ok_same; [|eassumption]; reflexivity.
    - cbv beta; intros; eapply lia_ok_same; [|eassumption]; reflexivity.
    - cbv beta; intros; eapply lia_ok_same; [|eassumption]; reflexivity.
    - apply Forall_forall. auto.
    - apply Forall_forall. auto. }
  intros Hok Hrun k x Hx.
  exact (Hsteps Hrun Hok k x Hx).
Qed.

Lemma run_keeps_lia_ok_witness :
  let e := env_of 30 [new_node 1 None [2%nat]] in
  let c := ctx_of (new_node 2 None [1%nat]) in
  let calls := [(e, CallReceiveMessage (dio_of 1 (Fin 1) 30) 1);
                (e, CallReceiveMessage (dio_of 1 (Fin 5) 30) 1)] in
  exists c' x,
    exec_all calls c = Some c'
    /\ lia_data (self c') !! 1%nat = Some x
    /\ 0 <= psg_rank_stability_score x <= 1
    /\ (length (psg_dio_timestamps x) <= 5)%nat.
Proof.
  intros e c calls.
  destruct (exec_all calls c) as [c'|] eqn:Hrun.
  - destruct (lia_data (self c') !! 1%nat) as [x|] eqn:Hx.
    + exists c', x. split; [reflexivity|]. split; [exact Hx|].
      refine (run_keeps_lia_ok calls c c' _ Hrun 1%nat x Hx).
      intros k y Hy. vm_compute in Hy. discriminate Hy.
    + vm_compute in Hrun. injection Hrun as <-. vm_compute in Hx. discriminate Hx.
  - vm_compute in Hrun. discriminate Hrun.
Defined.

Lemma lia_grows_refl c : lia_grows c c.
Proof. intros k x Hx. exists x. split; [exact Hx|]. split; lia. Qed.

Lemma lia_grows_trans c1 c2 c3 :
  lia_grows c1 c2 -> lia_grows c2 c3 -> lia_grows c1 c3.
Proof.
  intros H12 H23 k x Hx.
  destruct (H12 k x Hx) as (y & Hy & Ha & Hb).
  destruct (H23 k y Hy) as (z & Hz & Hc & Hd).
  exists z. split; [exact Hz|]. split; lia.
Qed.

Lemma lia_grows_same c c' :
  lia_data (self c') = lia_data (self c) -> lia_grows c c'.
Proof. intros H k x Hx. exists x. rewrite H. split; [exact Hx|]. split; lia. Qed.

Lemma lia_grows_insert e c c' k x' :
  lia_data (self c') = <[k := x']> (lia_data (self c)) ->
  (pfg_coop_count (entry_of e c k) <= pfg_coop_count x')%nat ->
  (pfg_defect_count (entry_of e c k) <= pfg_defect_count x')%nat ->
  lia_grows c c'.
Proof.
  intros Hlia Ha Hb j x Hx. rewrite Hlia.
  destruct (decide (k = j)) as [->|Hne].
  - exists x'. rewrite lookup_insert_eq. split; [reflexivity|].
    unfold entry_of in Ha, Hb. rewrite Hx in Ha, Hb. simpl in Ha, Hb. now split.
  - exists x. rewrite lookup_insert_ne by assumption.
    split; [exact Hx|]. split; lia.
Qed.

(** X18.  Along any run of method calls on a node, no entry of its
    archive is ever removed and no count of cooperations or defections
    ever decreases. *)
Theorem run_lia_grows (calls : list (Env * Call)) (c c' : Ctx) :
  exec_all calls c = Some c' ->
  forall k x,
    lia_data (self c) !! k = Some x ->
    exists x',
      lia_data (self c') !! k = Some x'
      /\ (pfg_coop_count x <= pfg_coop_count x')%nat
      /\ (pfg_defect_count x <= pfg_defect_count x')%nat.
Proof.
  assert (Hsteps : exec_all calls c = Some c' -> lia_grows c c').
  { apply (steps_exec_all lia_grows True True).
    - apply lia_grows_refl.
    - apply lia_grows_trans.
    - intros ct c0. apply lia_grows_same, consumed_lia_data.
    - intros k e c0 a c1 Hrun.
      destruct (lia_lookup_eq e c0 k) as (c2 & Hrun2 & Hlia & _).
      rewrite Hrun2 in Hrun. injection Hrun as _ <-.
      eapply (lia_grows_insert e); [exact Hlia|lia|lia].
    - intros _ k o e c0 a c1 Hrun.
      destruct (lia_update_pfg_lia _ _ _ _ _ _ Hrun) as (Hlia & _).
      eapply (lia_grows_insert e); [exact Hlia| |];
        unfold pfg_entry; simpl; destruct (String.eqb o "Cooperate"); lia.
    - intros s r v e c0 a c1 Hrun.
      rewrite lia_update_psg_from_dio_run in Hrun. injection Hrun as _ <-.
      eapply (lia_grows_insert e c0 _ s (dio_entry e c0 s r)); [|simpl; lia|simpl; lia].
      unfold dio_updated. simpl. now rewrite consumed_lia_data.
    - intros; now apply lia_grows_same.
    - intros; now apply lia_grows_same.
    - intros; now apply lia_grows_same.
    - intros; now apply lia_grows_same.
    - intros; now apply lia_grows_same.
    - intros; now apply lia_grows_same.
    - intros; now apply lia_grows_same.
    - intros; now apply lia_grows_same.
    - intros; now apply lia_grows_same.
    - intros; now apply lia_grows_same.
    - intros; now apply lia_grows_same.
    - apply Forall_forall. auto.
    - apply Forall_forall. auto. }
  intros Hrun. exact (Hsteps Hrun).
Qed.

Lemma run_lia_grows_witness :
  let e := env_of 30 [new_node 3 None [2%nat]] in
  let c := ctx_of (with_cooperations (new_node 2 None [3%nat]) 3 5) in
  let calls := [(e, CallLiaUpdatePfg 3 "Defect");
                (e, CallReceiveMessage (dio_of 3 (Fin 1) 30) 3)] in
  exists c' x',
    exec_all calls c = Some c'
    /\ lia_data (self c') !! 3%nat = Some x'
    /\ (5 <= pfg_coop_count x')%nat
    /\ (0 <= pfg_defect_count x')%nat.
Proof.
  intros e c calls.
  destruct (exec_all calls c) as [c'|] eqn:Hrun.
  - destruct (run_lia_grows calls c c' Hrun 3%nat
                {| pfg_last_outcome := Some "Cooperate"%string;
                   pfg_coop_count := 5; pfg_defect_count := 0;
                   psg_last_rank_advertised := None;
                   psg_rank_stability_score := 1.0;
                   psg_dio_timestamps := [];
                   irg_reported_as_malicious_count := 0;
                   link_quality_rssi := -60 |})
      as (x' & Hx' & Ha & Hb).
    + vm_compute. reflexivity.
    + exists c', x'. split; [reflexivity|]. split; [exact Hx'|]. now split.
  - vm_compute in Hrun. discriminate Hrun.
Defined.

Lemma pfg_view_insert_same (d : gmap nat LiaEntry) k x j :
  (pfg_last_outcome x, pfg_coop_count x, pfg_defect_count x) = pfg_view d k ->
  pfg_view (<[k := x]> d) j = pfg_view d j.
Proof.
  intros Hx. unfold pfg_view at 1.
  destruct (decide (k = j)) as [->|Hne].
  - now rewrite lookup_insert_eq.
  - rewrite lookup_insert_ne by assumption. reflexivity.
Qed.

Lemma pfg_view_entry_of e c k :
  (pfg_last_outcome (entry_of e c k), pfg_coop_count (entry_of e c k),
   pfg_defect_count (entry_of e c k))
  = pfg_view (lia_data (self c)) k.
Proof.
  unfold entry_of, pfg_view. now destruct (lia_data (self c) !! k).
Qed.

(** X19.  Only [lia_update_pfg] records forwarding outcomes: along a run
    that does not call it, the last outcome and the two counts the node
    holds for any neighbour stay what they were, those of a neighbour
    without entry being the factory's. *)
Theorem run_keeps_pfg_view (calls : list (Env * Call)) (c c' : Ctx) :
  Forall (fun ec => is_pfg_call ec.2 -> False) calls ->
  exec_all calls c = Some c' ->
  forall k, pfg_view (lia_data (self c')) k = pfg_view (lia_data (self c)) k.
Proof.
  assert (Hsteps : Forall (fun ec => is_pfg_call ec.2 -> False) calls ->
      exec_all calls c = Some c' ->
      forall k, pfg_view (lia_data (self c')) k = pfg_view (lia_data (self c)) k).
  { apply (steps_exec_all
             (fun c c' => forall k, pfg_view (lia_data (self c')) k
                                    = pfg_view (lia_data (self c)) k)
             False True).
    - reflexivity.
    - intros c1 c2 c3 H12 H23 k. now rewrite H23, H12.
    - intros ct c0 k. now rewrite consumed_lia_data.
    - intros k e c0 a c1 Hrun j.
      destruct (lia_lookup_eq e c0 k) as (c2 & Hrun2 & Hlia & _).
      rewrite Hrun2 in Hrun. injection Hrun as _ <-. rewrite Hlia.
      apply pfg_view_insert_same, pfg_view_entry_of.
    - intros [].
    - intros s r v e c0 a c1 Hrun j.
      rewrite lia_update_psg_from_dio_run in Hrun. injection Hrun as _ <-.
      unfold dio_updated. cbn [self lia_data set_lia_data].
      rewrite consumed_lia_data.
      apply pfg_view_insert_same. unfold dio_entry. cbn.
      apply pfg_view_entry_of.
    - reflexivity.
    - reflexivity.
    - reflexivity.
    - reflexivity.
    - reflexivity.
    - reflexivity.
    - reflexivity.
    - reflexivity.
    - reflexivity.
    - reflexivity.
    - reflexivity.
    - apply Forall_forall. auto. }
  exact Hsteps.
Qed.

Lemma run_keeps_pfg_view_witness :
  let e := env_of 30 [new_node 1 None [2%nat]] in
  let c := ctx_of (new_node 2 None [1%nat]) in
  let calls := [(e, CallReceiveMessage (dio_of 1 (Fin 1) 30) 1);
                (e, CallReceiveMessage (data_of 5 0 3) 1)] in
  exists c',
    exec_all calls c = Some c'
    /\ pfg_view (lia_data (self c')) 1 = (None, 0%nat, 0%nat).
Proof.
  intros e c calls.
  destruct (exec_all calls c) as [c'|] eqn:Hrun.
  - exists c'. split; [reflexivity|].
    rewrite (run_keeps_pfg_view calls c c'); [reflexivity| |exact Hrun].
    repeat constructor; intros [].
  - vm_compute in Hrun. discriminate Hrun.
Defined.

(** ** Identity and statistics along a run *)

Lemma same_identity_core c c' : core (self c') = core (self c) -> same_identity c c'.
Proof.
  intros H. split; [exact (f_equal id H)|].
  split; [exact (f_equal is_attacker_type H)|].
  split; [exact (f_equal rpl_version_number H)|].
  now rewrite (core_neighbors _ _ H).
Qed.

Lemma prefix_dict_add k ks : ks `prefix_of` dict_add k ks.
Proof.
  unfold dict_add. destruct (decide (k ∈ ks)); [reflexivity|].
  now exists [k].
Qed.

(** X20.  No method assigns a node's id, its attacker variant or its
    topology version: they are the same after any run of method calls.
    The neighbour table is only extended, and only by
    [discover_neighbors]: along any run its keys are kept in their order,
    new keys being appended, and along a run that does not call
    [discover_neighbors] the table is the same. *)
Theorem run_same_identity (calls : list (Env * Call)) (c c' : Ctx) :
  exec_all calls c = Some c' ->
  id (self c') = id (self c)
  /\ is_attacker_type (self c') = is_attacker_type (self c)
  /\ rpl_version_number (self c') = rpl_version_number (self c)
  /\ neighbors (self c) `prefix_of` neighbors (self c')
  /\ (Forall (fun ec => ~ is_discover_call ec.2) calls ->
      neighbors (self c') = neighbors (self c)).
Proof.
  assert (Hsteps : exec_all calls c = Some c' -> same_identity c c').
  { apply (steps_exec_all same_identity True True).
    - intros c0. now repeat split.
    - intros c1 c2 c3 (A1 & B1 & C1 & D1) (A2 & B2 & C2 & D2).
      split; [congruence|]. split; [congruence|]. split; [congruence|].
      now transitivity (neighbors (self c2)).
    - intros ct c0. apply same_identity_core, frame_core, consumed_frame.
    - intros k e c0 a c1 Hrun.
      apply same_identity_core, frame_core.
      now destruct (lia_lookup_frame _ _ _ _ _ Hrun).
    - intros _ k o e c0 a c1 Hrun.
      apply same_identity_core.
      now destruct (lia_update_pfg_lia _ _ _ _ _ _ Hrun) as (_ & Hc & _).
    - intros s r v e c0 a c1 Hrun.
      apply same_identity_core, frame_core.
      exact (lia_update_psg_from_dio_frame _ _ _ _ _ _ _ Hrun).
    - intros; now repeat split.
    - intros; now repeat split.
    - intros; now repeat split.
    - intros; now repeat split.
    - intros; now repeat split.
    - intros; now repeat split.
    - intros; now repeat split.
    - intros; now repeat split.
    - intros; now repeat split.
    - intros; now repeat split.
    - intros _ c0 k. repeat split. apply prefix_dict_add.
    - apply Forall_forall. auto.
    - apply Forall_forall. auto. }
  assert (Hsame : Forall (fun ec => ~ is_discover_call ec.2) calls ->
                  exec_all calls c = Some c' ->
                  neighbors (self c') = neighbors (self c)).
  { intros Hnone.
    apply (steps_exec_all
             (fun c c' => neighbors (self c') = neighbors (self c)) True False).
    - reflexivity.
    - intros c1 c2 c3 H12 H23. now rewrite H23, H12.
    - intros ct c0. apply core_neighbors, frame_core, consumed_frame.
    - intros k e c0 a c1 Hrun.
      apply core_neighbors, frame_core.
      now destruct (lia_lookup_frame _ _ _ _ _ Hrun).
    - intros _ k o e c0 a c1 Hrun.
      apply core_neighbors.
      now destruct (lia_update_pfg_lia _ _ _ _ _ _ Hrun) as (_ & Hc & _).
    - intros s r v e c0 a c1 Hrun.
      apply core_neighbors, frame_core.
      exact (lia_update_psg_from_dio_frame _ _ _ _ _ _ _ Hrun).
    - reflexivity.
    - reflexivity.
    - reflexivity.
    - reflexivity.
    - reflexivity.
    - reflexivity.
    - reflexivity.
    - reflexivity.
    - reflexivity.
    - reflexivity.
    - intros [].
    - exact Hnone.
    - apply Forall_forall. auto. }
  intros Hrun. destruct (Hsteps Hrun) as (Hi & Ha & Hv & Hn).
  split; [exact Hi|]. split; [exact Ha|]. split; [exact Hv|].
  split; [exact Hn|]. intros Hnone. exact (Hsame Hnone Hrun).
Qed.

Lemma run_same_identity_witness :
  let e := env_of 30 [new_node 1 None [2%nat]; new_node 3 None [2%nat]] in
  let c := ctx_of (new_node 2 None [1%nat]) in
  let calls := [(e, CallReceiveMessage (dio_of 1 (Fin 1) 30) 1);
                (e, CallDiscoverNeighbors (10, 10)
                      [mkPlaced 2 (10, 10); mkPlaced 3 (50, 40)]);
                (e, CallBroadcastDio)] in
  exists c',
    exec_all calls c = Some c'
    /\ rpl_version_number (self c') = 0%Z
    /\ [1%nat] `prefix_of` neighbors (self c').
Proof.
  intros e c calls.
  destruct (exec_all calls c) as [c'|] eqn:Hrun.
  - exists c'. split; [reflexivity|].
    destruct (run_same_identity calls c c' Hrun) as (_ & _ & Hv & Hn & _).
    split; [exact Hv|exact Hn].
  - vm_compute in Hrun. discriminate Hrun.
Defined.

Lemma tally_incr2_le {K} `{Countable K} (d : gmap nat (gmap K nat)) i k j k' :
  (tally d j k' <= tally (incr2 i k d) j k')%nat.
Proof.
  destruct (decide ((j, k') = (i, k))) as [[= -> ->]|Hne].
  - rewrite tally_incr2_same. lia.
  - rewrite tally_incr2_other by assumption. lia.
Qed.

Lemma count_of_incr_le {K} `{Countable K} (d : gmap K nat) i j :
  (count_of d j <= count_of (incr i d) j)%nat.
Proof.
  unfold count_of, incr. destruct (decide (i = j)) as [->|Hne].
  - rewrite lookup_insert_eq. simpl. lia.
  - rewrite lookup_insert_ne by assumption. lia.
Qed.

Lemma stats_grow_refl c : stats_grow c c.
Proof. unfold stats_grow. repeat split; intros; lia. Qed.

Lemma stats_grow_trans c1 c2 c3 :
  stats_grow c1 c2 -> stats_grow c2 c3 -> stats_grow c1 c3.
Proof.
  unfold stats_grow.
  intros (A1 & A2 & A3 & A4 & A5 & A6 & A7 & A8 & A9 & A10 & A11)
         (B1 & B2 & B3 & B4 & B5 & B6 & B7 & B8 & B9 & B10 & B11).
  repeat split; intros; try lia.
  - specialize (A6 i). specialize (B6 i). lia.
  - specialize (A7 i). specialize (B7 i). lia.
  - specialize (A8 i k). specialize (B8 i k). lia.
  - specialize (A9 i k). specialize (B9 i k). lia.
  - specialize (A10 i k). specialize (B10 i k). lia.
  - destruct (A11 i k), (B11 i k). lia.
  - destruct (A11 i k), (B11 i k). lia.
Qed.

Lemma stats_grow_erase c c' :
  erase_energy (STATS c') = erase_energy (STATS c) -> stats_grow c c'.
Proof.
  intros H. unfold stats_grow, pfg_tally.
  injection H as -> -> -> -> -> _ -> -> -> -> -> ->.
  repeat split; intros; lia.
Qed.

Lemma stats_grow_erase_to c s c' :
  erase_energy (STATS c') = erase_energy s ->
  stats_grow c (with_stats c s) -> stats_grow c c'.
Proof.
  intros H Hg. eapply stats_grow_trans; [exact Hg|].
  apply stats_grow_erase. exact H.
Qed.

Lemma stats_grow_pfg_outcome c i k o cd' :
  tally_outcome o (pfg_tally (STATS c) i k) = Some cd' ->
  stats_grow c
    (with_stats c
       (set_lia_pfg_outcomes (STATS c)
          (<[i := <[k := cd']> (default ∅ (lia_pfg_outcomes (STATS c) !! i))]>
             (lia_pfg_outcomes (STATS c))))).
Proof.
  intros Ht. unfold stats_grow, with_stats. cbn.
  repeat split; intros; try lia.
  all: unfold pfg_tally in *; cbn;
    destruct (decide (i = i0)) as [->|Hi];
      [rewrite lookup_insert_eq; cbn;
       destruct (decide (k = k0)) as [->|Hk];
         [rewrite lookup_insert_eq; cbn|rewrite lookup_insert_ne by assumption; lia]
      |rewrite lookup_insert_ne by assumption; lia].
  all: unfold tally_outcome in Ht;
    destruct o as [|a rest]; [discriminate|];
    destruct a as [[] [] [] [] [] [] [] []]; try discriminate;
    injection Ht as <-; cbn; lia.
Qed.

(** X21.  Along any run of method calls on a node, no counter of the
    statistics ever decreases: neither the delivered and dropped packet
    counts, nor any per-node count of parent changes, reports, choices,
    sent packets or recorded outcomes. *)
Theorem run_stats_grow (calls : list (Env * Call)) (c c' : Ctx) :
  exec_all calls c = Some c' -> stats_grow c c'.
Proof.
  assert (Hsteps : exec_all calls c = Some c' -> stats_grow c c').
  { apply (steps_exec_all stats_grow True True).
    - apply stats_grow_refl.
    - apply stats_grow_trans.
    - intros ct c0. apply stats_grow_erase. now destruct (consumed_frame ct None c0) as (_ & Hs & _).
    - intros k e c0 a c1 Hrun. apply stats_grow_erase.
      now destruct (lia_lookup_frame _ _ _ _ _ Hrun) as [(_ & Hs & _) _].
    - intros _ k o e c0 a c1 Hrun.
      destruct (lia_update_pfg_lia _ _ _ _ _ _ Hrun) as (_ & _ & cd' & Ht & Hs).
      eapply stats_grow_erase_to; [exact Hs|].
      now apply (stats_grow_pfg_outcome c0 _ _ o).
    - intros s r v e c0 a c1 Hrun. apply stats_grow_erase.
      now destruct (lia_update_psg_from_dio_frame _ _ _ _ _ _ _ Hrun) as (_ & Hs & _).
    - intros c0 i k. unfold stats_grow, with_stats, pfg_tally. cbn.
      repeat split; intros; try lia. apply tally_incr2_le.
    - intros c0 i k. unfold stats_grow, with_stats, pfg_tally. cbn.
      repeat split; intros; try lia. apply tally_incr2_le.
    - intros c0 i. unfold stats_grow, with_stats, pfg_tally. cbn.
      repeat split; intros; try lia. apply count_of_incr_le.
    - intros c0 i. unfold stats_grow, with_stats, pfg_tally. cbn.
      repeat split; intros; try lia. apply count_of_incr_le.
    - intros c0 i k. unfold stats_grow, with_stats, pfg_tally. cbn.
      repeat split; intros; try lia. apply tally_incr2_le.
    - intros c0 q. unfold stats_grow, with_stats, pfg_tally. cbn. repeat split; intros; lia.
    - intros c0. unfold stats_grow, with_stats, pfg_tally. cbn. repeat split; intros; lia.
    - intros c0 t p. now apply stats_grow_erase.
    - intros c0 t. now apply stats_grow_erase.
    - intros c0 p r. now apply stats_grow_erase.
    - intros _ c0 ks. now apply stats_grow_erase.
    - apply Forall_forall. auto.
    - apply Forall_forall. auto. }
  exact Hsteps.
Qed.

Lemma run_stats_grow_witness :
  let e := env_of 30 [new_node 1 None [2%nat]] in
  let c := ctx_of (new_node 2 None [1%nat]) in
  let calls := [(e, CallReceiveMessage (data_of 5 0 3) 1);
                (e, CallReceiveMessage (data_of 5 2 3) 1)] in
  exists c',
    exec_all calls c = Some c'
    /\ (packets_dropped_selfish (STATS c) <= packets_dropped_selfish (STATS c'))%nat
    /\ (packets_received_dest (STATS c) <= packets_received_dest (STATS c'))%nat.
Proof.
  intros e c calls.
  destruct (exec_all calls c) as [c'|] eqn:Hrun.
  - exists c'. split; [reflexivity|].
    destruct (run_stats_grow calls c c' Hrun) as (_ & Hd & _ & Hs & _).
    split; [exact Hs|exact Hd].
  - vm_compute in Hrun. discriminate Hrun.
Defined.

(** ** Neighbour discovery *)

Lemma elem_of_dict_add k j ks : j ∈ dict_add k ks <-> j ∈ ks \/ j = k.
Proof.
  unfold dict_add. destruct (decide (k ∈ ks)) as [Hin|Hin].
  - split; [now left|]. intros [H| ->]; assumption.
  - rewrite elem_of_app, list_elem_of_singleton. reflexivity.
Qed.

Lemma in_range_sym p q : in_range p q = in_range q p.
Proof.
  unfold in_range.
  assert (Hs : sq_dist p q == sq_dist q p) by (unfold sq_dist; ring).
  apply eq_true_iff_eq. rewrite !Qle_bool_iff, Hs. reflexivity.
Qed.

Lemma discover_loop_eq pos all_nodes e c :
  exists c',
    discover_loop pos all_nodes e c = Some (tt, c')
    /\ (forall k, k ∈ neighbors (self c')
                  <-> k ∈ neighbors (self c)
                      \/ (k <> id (self c) /\ reachable pos all_nodes k))
    /\ (forall k, k ∈ neighbors (self c') ->
                  k ∈ neighbors (self c) \/ is_Some (lia_data (self c') !! k))
    /\ (forall k x, lia_data (self c) !! k = Some x ->
                    lia_data (self c') !! k = Some x)
    /\ set_lia_data (set_neighbors (self c') (neighbors (self c)))
                    (lia_data (self c)) = self c
    /\ STATS c' = STATS c
    /\ spawned c' = spawned c.
Proof.
  revert c. induction all_nodes as [|o rest IH]; intros c.
  - exists c. split; [reflexivity|]. split.
    { intros k. split; [now left|]. intros [H|(_ & o & Ho & _)]; [assumption|].
      inversion Ho. }
    split; [now left|]. split; [tauto|].
    split; [now destruct c as [[] ? ?]|]. now split.
  - cbn [discover_loop]. unfold bind at 1, get_self at 1.
    destruct (Nat.eqb_spec (id (self c)) (placed_id o)) as [Heq|Hne].
    { destruct (IH c) as (c' & Hrun & Hn & Hl & Hk & Hs & Hst & Hsp).
      exists c'. split; [exact Hrun|]. split; [|now repeat split].
      intros k. rewrite Hn. split.
      - intros [H|(Hk1 & o' & Ho' & Hid & Hr)]; [now left|right].
        split; [assumption|]. exists o'. split; [now apply list_elem_of_further|].
        now split.
      - intros [H|(Hk1 & o' & Ho' & Hid & Hr)]; [now left|right].
        split; [assumption|]. exists o'. apply elem_of_cons in Ho'.
        destruct Ho' as [->|Ho']; [congruence|]. now repeat split. }
    destruct (in_range pos (position o)) eqn:Hr.
    2:{ destruct (IH c) as (c' & Hrun & Hn & Hl & Hk & Hs & Hst & Hsp).
        exists c'. split; [exact Hrun|]. split; [|now repeat split].
        intros k. rewrite Hn. split.
        - intros [H|(Hk1 & o' & Ho' & Hid & Hr')]; [now left|right].
          split; [assumption|]. exists o'. split; [now apply list_elem_of_further|].
          now split.
        - intros [H|(Hk1 & o' & Ho' & Hid & Hr')]; [now left|right].
          split; [assumption|]. exists o'. apply elem_of_cons in Ho'.
          destruct Ho' as [->|Ho']; [congruence|]. now repeat split. }
    unfold bind at 1, put_self at 1. unfold bind at 1.
    set (c0 := {| self := set_neighbors (self c)
                            (dict_add (placed_id o) (neighbors (self c)));
                  STATS := STATS c; spawned := spawned c |}).
    destruct (lia_lookup_eq e c0 (placed_id o)) as (c1 & Hrun1 & Hlia1 & Hst1 & Hsp1 & Hself1).
    rewrite Hrun1.
    destruct (IH c1) as (c' & Hrun & Hn & Hl & Hk & Hs & Hst & Hsp).
    assert (Hc1 : self c1 = set_lia_data (self c0) (lia_data (self c1))).
    { rewrite <- Hself1. now destruct (self c1). }
    assert (Hn1 : neighbors (self c1) = dict_add (placed_id o) (neighbors (self c))).
    { rewrite Hc1. reflexivity. }
    assert (Hid1 : id (self c1) = id (self c)).
    { rewrite Hc1. reflexivity. }
    exists c'. split; [exact Hrun|]. split.
    { intros k. rewrite Hn, Hn1, Hid1, elem_of_dict_add. split.
      - intros [[H| ->]|(Hk1 & o' & Ho' & Hid & Hr')].
        + now left.
        + right. split; [congruence|]. exists o.
          split; [apply list_elem_of_here|]. now split.
        + right. split; [assumption|]. exists o'.
          split; [now apply list_elem_of_further|]. now split.
      - intros [H|(Hk1 & o' & Ho' & Hid & Hr')]; [now left; left|].
        apply elem_of_cons in Ho'. destruct Ho' as [->|Ho'].
        + left. right. now symmetry.
        + right. split; [assumption|]. exists o'. now repeat split. }
    split.
    { intros k Hin. destruct (Hl k Hin) as [H|H]; [|now right].
      rewrite Hn1 in H. apply elem_of_dict_add in H. destruct H as [H| ->]; [now left|].
      right. exists (entry_of e c0 (placed_id o)). apply Hk.
      rewrite Hlia1. apply lookup_insert_eq. }
    split.
    { intros k x Hx. apply Hk. rewrite Hlia1.
      destruct (decide (placed_id o = k)) as [<-|Hd].
      - rewrite lookup_insert_eq. unfold entry_of.
        change (lia_data (self c0)) with (lia_data (self c)). now rewrite Hx.
      - rewrite lookup_insert_ne by assumption. exact Hx. }
    split.
    { transitivity (set_lia_data (set_neighbors (self c1) (neighbors (self c)))
                      (lia_data (self c))).
      - exact (f_equal (fun n => set_lia_data (set_neighbors n (neighbors (self c)))
                                   (lia_data (self c))) Hs).
      - rewrite Hc1. now destruct c as [[] ? ?]. }
    split; [now rewrite Hst, Hst1|now rewrite Hsp, Hsp1].
Qed.

Lemma placed_id_unique (all_nodes : list Placed) (a b : Placed) :
  NoDup (placed_id <$> all_nodes) ->
  a ∈ all_nodes -> b ∈ all_nodes -> placed_id a = placed_id b -> a = b.
Proof.
  induction all_nodes as [|o rest IH]; intros Hnd Ha Hb Hid.
  - inversion Ha.
  - rewrite fmap_cons in Hnd. apply NoDup_cons in Hnd. destruct Hnd as (Ho & Hnd).
    apply elem_of_cons in Ha. apply elem_of_cons in Hb.
    destruct Ha as [->|Ha], Hb as [->|Hb].
    + reflexivity.
    + exfalso. apply Ho. rewrite Hid. now apply list_elem_of_fmap_2.
    + exfalso. apply Ho. rewrite <- Hid. now apply list_elem_of_fmap_2.
    + now apply IH.
Qed.

Lemma reachable_unique (all_nodes : list Placed) (pos : Q * Q) (b : Placed) :
  NoDup (placed_id <$> all_nodes) -> b ∈ all_nodes ->
  reachable pos all_nodes (placed_id b) <-> in_range pos (position b) = true.
Proof.
  intros Hnd Hb. split.
  - intros (o & Ho & Hid & Hr).
    now rewrite <- (placed_id_unique all_nodes o b Hnd Ho Hb Hid).
  - intros Hr. exists b. now repeat split.
Qed.

Lemma in_range_near p q : sq_dist p q <= 69.99 * 69.99 -> in_range p q = true.
Proof.
  intros H. unfold in_range, RADIO_RANGE. apply Qle_bool_iff. lra.
Qed.

Lemma in_range_far p q : in_range p q = true -> sq_dist p q <= 70.01 * 70.01.
Proof.
  unfold in_range, RADIO_RANGE. intros H. apply Qle_bool_iff in H. lra.
Qed.

(** X22.  [discover_neighbors] always returns.  Afterwards the node's
    neighbours are the ones it had together with other nodes of
    [all_nodes], never the node itself: every other node closer than
    69.99 has been added, and every node added is closer than 70.01 (the
    radio range is 70; in the band between, the rounding of the distance
    decides).  Each newly found neighbour has an entry in the node's LIA
    store, entries already stored are kept, and discovery costs no
    energy and touches no statistic. *)
Theorem discover_neighbors_spec (pos : Q * Q) (all_nodes : list Placed)
    (e : Env) (c : Ctx) :
  exists c',
    discover_neighbors pos all_nodes e c = Some (tt, c')
    /\ (forall k, k ∈ neighbors (self c) -> k ∈ neighbors (self c'))
    /\ (forall o, o ∈ all_nodes -> placed_id o <> id (self c) ->
                  sq_dist pos (position o) <= 69.99 * 69.99 ->
                  placed_id o ∈ neighbors (self c'))
    /\ (forall k, k ∈ neighbors (self c') ->
                  k ∈ neighbors (self c)
                  \/ (k <> id (self c)
                      /\ exists o, o ∈ all_nodes /\ placed_id o = k
                                   /\ sq_dist pos (position o) <= 70.01 * 70.01))
    /\ (forall k, k ∈ neighbors (self c') ->
                  k ∈ neighbors (self c) \/ is_Some (lia_data (self c') !! k))
    /\ (forall k x, lia_data (self c) !! k = Some x ->
                    lia_data (self c') !! k = Some x)
    /\ id (self c') = id (self c)
    /\ energy (self c') = energy (self c)
    /\ alive (self c') = alive (self c)
    /\ rpl_parent_id (self c') = rpl_parent_id (self c)
    /\ rpl_rank (self c') = rpl_rank (self c)
    /\ STATS c' = STATS c
    /\ spawned c' = spawned c.
Proof.
  destruct (discover_loop_eq pos all_nodes e c)
    as (c' & Hrun & Hn & Hl & Hk & Hs & Hst & Hsp).
  exists c'. split; [exact Hrun|].
  split; [intros k Hin; apply Hn; now left|].
  split.
  { intros o Ho Hid Hd. apply Hn. right. split; [exact Hid|].
    exists o. split; [exact Ho|]. split; [reflexivity|].
    now apply in_range_near. }
  split.
  { intros k Hin. apply Hn in Hin. destruct Hin as [Hin|(Hid & o & Ho & Hko & Hr)].
    - now left.
    - right. split; [exact Hid|]. exists o. split; [exact Ho|].
      split; [exact Hko|]. now apply in_range_far. }
  split; [exact Hl|]. split; [exact Hk|].
  split; [exact (f_equal id Hs)|]. split; [exact (f_equal energy Hs)|].
  split; [exact (f_equal alive Hs)|]. split; [exact (f_equal rpl_parent_id Hs)|].
  split; [exact (f_equal rpl_rank Hs)|]. now split.
Qed.

Lemma discover_neighbors_spec_witness :
  let all_nodes := [mkPlaced 0 (10, 10); mkPlaced 1 (50, 40); mkPlaced 2 (200, 200)] in
  let e := env_of 0 [] in
  let c := ctx_of (new_node 0 None []) in
  exists c',
    discover_neighbors (10, 10) all_nodes e c = Some (tt, c')
    /\ (1%nat ∈ neighbors (self c') /\ 2%nat ∉ neighbors (self c'))
    /\ is_Some (lia_data (self c') !! 1%nat).
Proof.
  intros all_nodes e c.
  destruct (discover_neighbors_spec (10, 10) all_nodes e c)
    as (c' & Hrun & _ & Hnear & Hfar & Hl & _).
  exists c'. split; [exact Hrun|].
  assert (H1 : 1%nat ∈ neighbors (self c')).
  { apply (Hnear (mkPlaced 1 (50, 40))).
    - apply list_elem_of_further, list_elem_of_here.
    - discriminate.
    - vm_compute. discriminate. }
  split; [split; [exact H1|]|].
  - intros H2. apply Hfar in H2. destruct H2 as [H2|(_ & o & Ho & Hid & Hd)].
    + inversion H2.
    + unfold all_nodes in Ho. rewrite !elem_of_cons in Ho.
      destruct Ho as [->|[->|[->|Ho]]]; try discriminate Hid; [|inversion Ho].
      vm_compute in Hd. apply Hd. reflexivity.
  - destruct (Hl 1%nat H1) as [H|H]; [inversion H|exact H].
Defined.

(** X23.  Neighbourhood is symmetric: when the ids of [all_nodes] are
    pairwise distinct and two of its nodes each run [discover_neighbors]
    on it from an empty neighbour table, the first lists the second as a
    neighbour exactly when the second lists the first. *)
Theorem discover_neighbors_symmetric (all_nodes : list Placed) (a b : Placed)
    (ea eb : Env) (ca cb ca' cb' : Ctx) :
  NoDup (placed_id <$> all_nodes) ->
  a ∈ all_nodes -> b ∈ all_nodes ->
  placed_id a <> placed_id b ->
  id (self ca) = placed_id a -> id (self cb) = placed_id b ->
  neighbors (self ca) = [] -> neighbors (self cb) = [] ->
  discover_neighbors (position a) all_nodes ea ca = Some (tt, ca') ->
  discover_neighbors (position b) all_nodes eb cb = Some (tt, cb') ->
  placed_id b ∈ neighbors (self ca') <-> placed_id a ∈ neighbors (self cb').
Proof.
  intros Hnd Ha Hb Hne Hia Hib Hna Hnb Hra Hrb.
  destruct (discover_loop_eq (position a) all_nodes ea ca) as (c1 & Hr1 & Hn1 & _).
  destruct (discover_loop_eq (position b) all_nodes eb cb) as (c2 & Hr2 & Hn2 & _).
  unfold discover_neighbors in Hra, Hrb.
  rewrite Hr1 in Hra. rewrite Hr2 in Hrb.
  injection Hra as <-. injection Hrb as <-.
  rewrite Hn1, Hn2, Hna, Hnb, Hia, Hib.
  rewrite (reachable_unique all_nodes (position a) b Hnd Hb).
  rewrite (reachable_unique all_nodes (position b) a Hnd Ha).
  rewrite (in_range_sym (position b) (position a)).
  split.
  - intros [H|(_ & H)]; [inversion H|]. right. split; [congruence|exact H].
  - intros [H|(_ & H)]; [inversion H|]. right. split; [congruence|exact H].
Qed.

Lemma discover_neighbors_symmetric_witness :
  let all_nodes := [mkPlaced 0 (10, 10); mkPlaced 1 (50, 40); mkPlaced 2 (200, 200)] in
  let e := env_of 0 [] in
  exists ca' cb',
    discover_neighbors (10, 10) all_nodes e (ctx_of (new_node 0 None [])) = Some (tt, ca')
    /\ discover_neighbors (50, 40) all_nodes e (ctx_of (new_node 1 None [])) = Some (tt, cb')
    /\ (1%nat ∈ neighbors (self ca') <-> 0%nat ∈ neighbors (self cb')).
Proof.
  intros all_nodes e.
  destruct (discover_neighbors (10, 10) all_nodes e (ctx_of (new_node 0 None [])))
    as [[[] ca']|] eqn:Hra; [|vm_compute in Hra; discriminate Hra].
  destruct (discover_neighbors (50, 40) all_nodes e (ctx_of (new_node 1 None [])))
    as [[[] cb']|] eqn:Hrb; [|vm_compute in Hrb; discriminate Hrb].
  exists ca', cb'. split; [reflexivity|]. split; [reflexivity|].
  apply (discover_neighbors_symmetric all_nodes
           (mkPlaced 0 (10, 10)) (mkPlaced 1 (50, 40)) e e
           (ctx_of (new_node 0 None [])) (ctx_of (new_node 1 None [])) ca' cb').
  - apply (bool_decide_unpack _). vm_compute. exact I.
  - apply list_elem_of_here.
  - apply list_elem_of_further, list_elem_of_here.
  - cbn. lia.
  - reflexivity.
  - reflexivity.
  - reflexivity.
  - reflexivity.
  - exact Hra.
  - exact Hrb.
Defined.
